(** * CTF Hunger Games: the match engine of [ctf_hunger_game.py]

    A shallow embedding of the engine class [CTFHungerGame], of its judge
    [GreenAgent] and of the round loop of [Agent.run], followed by the
    properties of the engine.

    Conventions of the embedding.
    - Python [int] is [Z]; Python [float] is the binary64 [float] of the
      kernel, so the arithmetic on [ctf_progress] and on the timeout score
      is the one Python performs.
    - A Python [dict] is an insertion-ordered association list ([Dict]):
      iteration order is observable in the engine (alive players are
      listed in insertion order, and [max] keeps the first maximum).
    - The player dictionaries are shared mutable objects.  Every read and
      write goes through the player id in the game state, which is the
      reference: entries of [self.players] are never replaced.
    - A method is a function on the game state that returns the new state
      together with either its value or the exception it raised; the
      mutations made before an exception are kept, as in Python.
    - What the engine draws from outside (the clock, the pseudo-random
      generator, the reply of the language model) is an input ([Env]).
    - [print] calls and the ['message'] entries of result dictionaries
      (formatted text) are left out. *)

From Stdlib Require Import ZArith Lia.
From Stdlib Require Import Floats.PrimFloat Floats.SpecFloat Floats.FloatOps
  Floats.FloatAxioms.
From stdpp Require Import base decidable option list strings gmap pretty.

Local Open Scope string_scope.
Local Open Scope list_scope.
Local Open Scope Z_scope.
#[local] Set Warnings "-inexact-float".

(** ** Insertion-ordered dictionaries *)

Module Dict.
Section dict.
Context {K V : Type} `{EqDecision K}.

Definition t := list (K * V).

Fixpoint get (k : K) (d : list (K * V)) : option V :=
match d with
| [] => None
| (k', v) :: d' => if decide (k = k') then Some v else get k d'
end.

(** [d[k] = v]: in place when the key exists, at the end otherwise. *)
Fixpoint set (k : K) (v : V) (d : list (K * V)) : list (K * V) :=
match d with
| [] => [(k, v)]
| (k', v') :: d' =>
  if decide (k = k') then (k', v) :: d' else (k', v') :: set k v d'
end.

Definition mem (k : K) (d : list (K * V)) : bool :=
match get k d with Some _ => true | None => false end.

Definition keys (d : list (K * V)) : list K := map fst d.

(** Apply [f] to the value stored under [k], if any. *)
Fixpoint alter (f : V -> V) (k : K) (d : list (K * V)) : list (K * V) :=
match d with
| [] => []
| (k', v) :: d' =>
  if decide (k = k') then (k', f v) :: d' else (k', v) :: alter f k d'
end.
End dict.
End Dict.

(** ** Enumerations *)

Inductive ActionType :=
  | MOVE | ATTACK_PLAYER | SOLVE_CTF | CLAIM_TERRITORY
  | REST | SCOUT | DEFEND | STEAL_PROGRESS.

Inductive PlayerStatus := ALIVE | ELIMINATED | WINNER | LOST_TIMEOUT.

Inductive HexType := NORMAL | RESOURCE.

Global Instance ActionType_eq_dec : EqDecision ActionType.
Proof. solve_decision. Defined.
Global Instance PlayerStatus_eq_dec : EqDecision PlayerStatus.
Proof. solve_decision. Defined.
Global Instance HexType_eq_dec : EqDecision HexType.
Proof. solve_decision. Defined.

Definition ActionType_value (a : ActionType) : string :=
  match a with
  | MOVE => "move"
  | ATTACK_PLAYER => "attack_player"
  | SOLVE_CTF => "solve_ctf"
  | CLAIM_TERRITORY => "claim_territory"
  | REST => "rest"
  | SCOUT => "scout"
  | DEFEND => "defend"
  | STEAL_PROGRESS => "steal_progress"
  end.

Definition PlayerStatus_value (s : PlayerStatus) : string :=
  match s with
  | ALIVE => "alive"
  | ELIMINATED => "eliminated"
  | WINNER => "winner"
  | LOST_TIMEOUT => "lost_timeout"
  end.

Definition HexType_value (h : HexType) : string :=
  match h with
  | NORMAL => "normal"
  | RESOURCE => "resource"
  end.

(** ** Hexagon coordinate helpers *)

Definition Coord : Type := Z * Z.

Definition _is_adjacent (hex1 hex2 : Coord) : bool :=
  let '(q1, r1) := hex1 in
  let '(q2, r2) := hex2 in
  let dq := Z.abs (q1 - q2) in
  let dr := Z.abs (r1 - r2) in
  let ds := Z.abs ((q1 + r1) - (q2 + r2)) in
  bool_decide ((dq + dr + ds) `div` 2 = 1).

Definition _hex_distance (hex1 hex2 : Coord) : Z :=
  let '(q1, r1) := hex1 in
  let '(q2, r2) := hex2 in
  (Z.abs (q1 - q2) + Z.abs (r1 - r2) + Z.abs ((q1 + r1) - (q2 + r2))) `div` 2.

Definition directions : list Coord :=
  [(1, 0); (1, -1); (0, -1); (-1, 0); (-1, 1); (0, 1)].


(** ** Python values *)

(** The value of [player['status']]: a member of [PlayerStatus], or a raw
    string (the disqualification path of [_action_move] stores
    [PlayerStatus.ELIMINATED.value]). *)
Inductive StatusVal :=
  | StatusEnum (s : PlayerStatus)
  | StatusStr (s : string).

Global Instance StatusVal_eq_dec : EqDecision StatusVal.
Proof. solve_decision. Defined.

(** [status == PlayerStatus.ALIVE]: an enum member equals only itself. *)
Definition status_is (e : PlayerStatus) (st : StatusVal) : bool :=
  match st with
  | StatusEnum s => bool_decide (s = e)
  | StatusStr _ => false
  end.

(** Values stored in result dictionaries. *)
#[local] Unset Elimination Schemes.
Inductive Val :=
  | VNone
  | VBool (b : bool)
  | VInt (z : Z)
  | VFloat (f : float)
  | VStr (s : string)
  | VStatus (s : PlayerStatus)
  | VTuple (l : list Val)
  | VList (l : list Val)
  | VDict (d : list (string * Val)).
#[local] Set Elimination Schemes.

Definition Result : Type := list (string * Val).

Definition VCoord (c : Coord) : Val := VTuple [VInt c.1; VInt c.2].
Definition VCoordList (c : Coord) : Val := VList [VInt c.1; VInt c.2].
Definition VOptInt (o : option Z) : Val :=
  match o with Some z => VInt z | None => VNone end.
Definition VLen {A} (l : list A) : Val := VInt (Z.of_nat (length l)).

(** Truthiness of a value, as in [if not validation['legal']]. *)
Definition truthy (v : Val) : bool :=
  match v with
  | VNone => false
  | VBool b => b
  | VInt z => negb (Z.eqb z 0)
  | VFloat f => negb (PrimFloat.eqb f 0)
  | VStr s => negb (bool_decide (s = ""))
  | VStatus _ => true
  | VTuple l | VList l => negb (bool_decide (length l = 0%nat))
  | VDict d => negb (bool_decide (length d = 0%nat))
  end.

(** ** Floating point *)

(** [float(z)], correctly rounded. *)
Definition float_of_Z (z : Z) : float :=
  SF2Prim (binary_normalize prec emax z 0 false).

(** [min(a, b)] and [max(a, b)] of Python keep the first argument unless
    the second is strictly smaller (resp. greater). *)
Definition py_fmin (a b : float) : float := if PrimFloat.ltb b a then b else a.
Definition py_fmax (a b : float) : float := if PrimFloat.ltb a b then b else a.

(** ** Board cells, players and the game *)

Record Cell := Build_Cell {
  c_type : HexType;
  c_owner : option Z;
  c_defense : Z;
  c_bonus_consumed : bool
}.

Definition set_owner (v : option Z) (c : Cell) : Cell :=
  Build_Cell
    (c_type c) v (c_defense c) (c_bonus_consumed c).
Definition set_bonus_consumed (v : bool) (c : Cell) : Cell :=
  Build_Cell
    (c_type c) (c_owner c) (c_defense c) v.

Record Player := Build_Player {
  p_id : Z;
  p_name : string;
  p_position : Coord;
  p_energy : Z;
  p_max_energy : Z;
  p_health : Z;
  p_shield : Z;
  p_status : StatusVal;
  p_ctf_progress : float;
  p_ctf_hints : list string;
  p_ctf_attempts : Z;
  p_territories : list Coord;
  p_territory_income : Z;
  p_attack_power : Z;
  p_defense_power : Z;
  p_kills : Z;
  p_defending : bool;
  p_vision_range : Z;
  p_visible_hexagons : list Coord;
  p_visible_players : list Z;
  p_actions_taken : Z;
  p_idle_streak : Z;
  p_last_actions : list string;
  p_since_objective : Z;
  p_seen_tiles : gset string;
  p_color : string;
  p_alive : option bool;
  p_bad_moves : option Z
}.

Definition set_position (v : Coord) (p : Player) : Player :=
  Build_Player
    (p_id p) (p_name p) v (p_energy p) (p_max_energy p) (p_health p)
    (p_shield p) (p_status p) (p_ctf_progress p) (p_ctf_hints p)
    (p_ctf_attempts p) (p_territories p) (p_territory_income p)
    (p_attack_power p) (p_defense_power p) (p_kills p) (p_defending p)
    (p_vision_range p) (p_visible_hexagons p) (p_visible_players p)
    (p_actions_taken p) (p_idle_streak p) (p_last_actions p)
    (p_since_objective p) (p_seen_tiles p) (p_color p) (p_alive p)
    (p_bad_moves p).
Definition set_energy (v : Z) (p : Player) : Player :=
  Build_Player
    (p_id p) (p_name p) (p_position p) v (p_max_energy p) (p_health p)
    (p_shield p) (p_status p) (p_ctf_progress p) (p_ctf_hints p)
    (p_ctf_attempts p) (p_territories p) (p_territory_income p)
    (p_attack_power p) (p_defense_power p) (p_kills p) (p_defending p)
    (p_vision_range p) (p_visible_hexagons p) (p_visible_players p)
    (p_actions_taken p) (p_idle_streak p) (p_last_actions p)
    (p_since_objective p) (p_seen_tiles p) (p_color p) (p_alive p)
    (p_bad_moves p).
Definition set_health (v : Z) (p : Player) : Player :=
  Build_Player
    (p_id p) (p_name p) (p_position p) (p_energy p) (p_max_energy p) v
    (p_shield p) (p_status p) (p_ctf_progress p) (p_ctf_hints p)
    (p_ctf_attempts p) (p_territories p) (p_territory_income p)
    (p_attack_power p) (p_defense_power p) (p_kills p) (p_defending p)
    (p_vision_range p) (p_visible_hexagons p) (p_visible_players p)
    (p_actions_taken p) (p_idle_streak p) (p_last_actions p)
    (p_since_objective p) (p_seen_tiles p) (p_color p) (p_alive p)
    (p_bad_moves p).
Definition set_shield (v : Z) (p : Player) : Player :=
  Build_Player
    (p_id p) (p_name p) (p_position p) (p_energy p) (p_max_energy p)
    (p_health p) v (p_status p) (p_ctf_progress p) (p_ctf_hints p)
    (p_ctf_attempts p) (p_territories p) (p_territory_income p)
    (p_attack_power p) (p_defense_power p) (p_kills p) (p_defending p)
    (p_vision_range p) (p_visible_hexagons p) (p_visible_players p)
    (p_actions_taken p) (p_idle_streak p) (p_last_actions p)
    (p_since_objective p) (p_seen_tiles p) (p_color p) (p_alive p)
    (p_bad_moves p).
Definition set_status (v : StatusVal) (p : Player) : Player :=
  Build_Player
    (p_id p) (p_name p) (p_position p) (p_energy p) (p_max_energy p)
    (p_health p) (p_shield p) v (p_ctf_progress p) (p_ctf_hints p)
    (p_ctf_attempts p) (p_territories p) (p_territory_income p)
    (p_attack_power p) (p_defense_power p) (p_kills p) (p_defending p)
    (p_vision_range p) (p_visible_hexagons p) (p_visible_players p)
    (p_actions_taken p) (p_idle_streak p) (p_last_actions p)
    (p_since_objective p) (p_seen_tiles p) (p_color p) (p_alive p)
    (p_bad_moves p).
Definition set_ctf_progress (v : float) (p : Player) : Player :=
  Build_Player
    (p_id p) (p_name p) (p_position p) (p_energy p) (p_max_energy p)
    (p_health p) (p_shield p) (p_status p) v (p_ctf_hints p)
    (p_ctf_attempts p) (p_territories p) (p_territory_income p)
    (p_attack_power p) (p_defense_power p) (p_kills p) (p_defending p)
    (p_vision_range p) (p_visible_hexagons p) (p_visible_players p)
    (p_actions_taken p) (p_idle_streak p) (p_last_actions p)
    (p_since_objective p) (p_seen_tiles p) (p_color p) (p_alive p)
    (p_bad_moves p).
Definition set_ctf_hints (v : list string) (p : Player) : Player :=
  Build_Player
    (p_id p) (p_name p) (p_position p) (p_energy p) (p_max_energy p)
    (p_health p) (p_shield p) (p_status p) (p_ctf_progress p) v
    (p_ctf_attempts p) (p_territories p) (p_territory_income p)
    (p_attack_power p) (p_defense_power p) (p_kills p) (p_defending p)
    (p_vision_range p) (p_visible_hexagons p) (p_visible_players p)
    (p_actions_taken p) (p_idle_streak p) (p_last_actions p)
    (p_since_objective p) (p_seen_tiles p) (p_color p) (p_alive p)
    (p_bad_moves p).
Definition set_ctf_attempts (v : Z) (p : Player) : Player :=
  Build_Player
    (p_id p) (p_name p) (p_position p) (p_energy p) (p_max_energy p)
    (p_health p) (p_shield p) (p_status p) (p_ctf_progress p) (p_ctf_hints p)
    v (p_territories p) (p_territory_income p) (p_attack_power p)
    (p_defense_power p) (p_kills p) (p_defending p) (p_vision_range p)
    (p_visible_hexagons p) (p_visible_players p) (p_actions_taken p)
    (p_idle_streak p) (p_last_actions p) (p_since_objective p)
    (p_seen_tiles p) (p_color p) (p_alive p) (p_bad_moves p).
Definition set_territories (v : list Coord) (p : Player) : Player :=
  Build_Player
    (p_id p) (p_name p) (p_position p) (p_energy p) (p_max_energy p)
    (p_health p) (p_shield p) (p_status p) (p_ctf_progress p) (p_ctf_hints p)
    (p_ctf_attempts p) v (p_territory_income p) (p_attack_power p)
    (p_defense_power p) (p_kills p) (p_defending p) (p_vision_range p)
    (p_visible_hexagons p) (p_visible_players p) (p_actions_taken p)
    (p_idle_streak p) (p_last_actions p) (p_since_objective p)
    (p_seen_tiles p) (p_color p) (p_alive p) (p_bad_moves p).
Definition set_territory_income (v : Z) (p : Player) : Player :=
  Build_Player
    (p_id p) (p_name p) (p_position p) (p_energy p) (p_max_energy p)
    (p_health p) (p_shield p) (p_status p) (p_ctf_progress p) (p_ctf_hints p)
    (p_ctf_attempts p) (p_territories p) v (p_attack_power p)
    (p_defense_power p) (p_kills p) (p_defending p) (p_vision_range p)
    (p_visible_hexagons p) (p_visible_players p) (p_actions_taken p)
    (p_idle_streak p) (p_last_actions p) (p_since_objective p)
    (p_seen_tiles p) (p_color p) (p_alive p) (p_bad_moves p).
Definition set_kills (v : Z) (p : Player) : Player :=
  Build_Player
    (p_id p) (p_name p) (p_position p) (p_energy p) (p_max_energy p)
    (p_health p) (p_shield p) (p_status p) (p_ctf_progress p) (p_ctf_hints p)
    (p_ctf_attempts p) (p_territories p) (p_territory_income p)
    (p_attack_power p) (p_defense_power p) v (p_defending p)
    (p_vision_range p) (p_visible_hexagons p) (p_visible_players p)
    (p_actions_taken p) (p_idle_streak p) (p_last_actions p)
    (p_since_objective p) (p_seen_tiles p) (p_color p) (p_alive p)
    (p_bad_moves p).
Definition set_defending (v : bool) (p : Player) : Player :=
  Build_Player
    (p_id p) (p_name p) (p_position p) (p_energy p) (p_max_energy p)
    (p_health p) (p_shield p) (p_status p) (p_ctf_progress p) (p_ctf_hints p)
    (p_ctf_attempts p) (p_territories p) (p_territory_income p)
    (p_attack_power p) (p_defense_power p) (p_kills p) v (p_vision_range p)
    (p_visible_hexagons p) (p_visible_players p) (p_actions_taken p)
    (p_idle_streak p) (p_last_actions p) (p_since_objective p)
    (p_seen_tiles p) (p_color p) (p_alive p) (p_bad_moves p).
Definition set_vision_range (v : Z) (p : Player) : Player :=
  Build_Player
    (p_id p) (p_name p) (p_position p) (p_energy p) (p_max_energy p)
    (p_health p) (p_shield p) (p_status p) (p_ctf_progress p) (p_ctf_hints p)
    (p_ctf_attempts p) (p_territories p) (p_territory_income p)
    (p_attack_power p) (p_defense_power p) (p_kills p) (p_defending p) v
    (p_visible_hexagons p) (p_visible_players p) (p_actions_taken p)
    (p_idle_streak p) (p_last_actions p) (p_since_objective p)
    (p_seen_tiles p) (p_color p) (p_alive p) (p_bad_moves p).
Definition set_visible_hexagons (v : list Coord) (p : Player) : Player :=
  Build_Player
    (p_id p) (p_name p) (p_position p) (p_energy p) (p_max_energy p)
    (p_health p) (p_shield p) (p_status p) (p_ctf_progress p) (p_ctf_hints p)
    (p_ctf_attempts p) (p_territories p) (p_territory_income p)
    (p_attack_power p) (p_defense_power p) (p_kills p) (p_defending p)
    (p_vision_range p) v (p_visible_players p) (p_actions_taken p)
    (p_idle_streak p) (p_last_actions p) (p_since_objective p)
    (p_seen_tiles p) (p_color p) (p_alive p) (p_bad_moves p).
Definition set_visible_players (v : list Z) (p : Player) : Player :=
  Build_Player
    (p_id p) (p_name p) (p_position p) (p_energy p) (p_max_energy p)
    (p_health p) (p_shield p) (p_status p) (p_ctf_progress p) (p_ctf_hints p)
    (p_ctf_attempts p) (p_territories p) (p_territory_income p)
    (p_attack_power p) (p_defense_power p) (p_kills p) (p_defending p)
    (p_vision_range p) (p_visible_hexagons p) v (p_actions_taken p)
    (p_idle_streak p) (p_last_actions p) (p_since_objective p)
    (p_seen_tiles p) (p_color p) (p_alive p) (p_bad_moves p).
Definition set_actions_taken (v : Z) (p : Player) : Player :=
  Build_Player
    (p_id p) (p_name p) (p_position p) (p_energy p) (p_max_energy p)
    (p_health p) (p_shield p) (p_status p) (p_ctf_progress p) (p_ctf_hints p)
    (p_ctf_attempts p) (p_territories p) (p_territory_income p)
    (p_attack_power p) (p_defense_power p) (p_kills p) (p_defending p)
    (p_vision_range p) (p_visible_hexagons p) (p_visible_players p) v
    (p_idle_streak p) (p_last_actions p) (p_since_objective p)
    (p_seen_tiles p) (p_color p) (p_alive p) (p_bad_moves p).
Definition set_idle_streak (v : Z) (p : Player) : Player :=
  Build_Player
    (p_id p) (p_name p) (p_position p) (p_energy p) (p_max_energy p)
    (p_health p) (p_shield p) (p_status p) (p_ctf_progress p) (p_ctf_hints p)
    (p_ctf_attempts p) (p_territories p) (p_territory_income p)
    (p_attack_power p) (p_defense_power p) (p_kills p) (p_defending p)
    (p_vision_range p) (p_visible_hexagons p) (p_visible_players p)
    (p_actions_taken p) v (p_last_actions p) (p_since_objective p)
    (p_seen_tiles p) (p_color p) (p_alive p) (p_bad_moves p).
Definition set_last_actions (v : list string) (p : Player) : Player :=
  Build_Player
    (p_id p) (p_name p) (p_position p) (p_energy p) (p_max_energy p)
    (p_health p) (p_shield p) (p_status p) (p_ctf_progress p) (p_ctf_hints p)
    (p_ctf_attempts p) (p_territories p) (p_territory_income p)
    (p_attack_power p) (p_defense_power p) (p_kills p) (p_defending p)
    (p_vision_range p) (p_visible_hexagons p) (p_visible_players p)
    (p_actions_taken p) (p_idle_streak p) v (p_since_objective p)
    (p_seen_tiles p) (p_color p) (p_alive p) (p_bad_moves p).
Definition set_since_objective (v : Z) (p : Player) : Player :=
  Build_Player
    (p_id p) (p_name p) (p_position p) (p_energy p) (p_max_energy p)
    (p_health p) (p_shield p) (p_status p) (p_ctf_progress p) (p_ctf_hints p)
    (p_ctf_attempts p) (p_territories p) (p_territory_income p)
    (p_attack_power p) (p_defense_power p) (p_kills p) (p_defending p)
    (p_vision_range p) (p_visible_hexagons p) (p_visible_players p)
    (p_actions_taken p) (p_idle_streak p) (p_last_actions p) v
    (p_seen_tiles p) (p_color p) (p_alive p) (p_bad_moves p).
Definition set_seen_tiles (v : gset string) (p : Player) : Player :=
  Build_Player
    (p_id p) (p_name p) (p_position p) (p_energy p) (p_max_energy p)
    (p_health p) (p_shield p) (p_status p) (p_ctf_progress p) (p_ctf_hints p)
    (p_ctf_attempts p) (p_territories p) (p_territory_income p)
    (p_attack_power p) (p_defense_power p) (p_kills p) (p_defending p)
    (p_vision_range p) (p_visible_hexagons p) (p_visible_players p)
    (p_actions_taken p) (p_idle_streak p) (p_last_actions p)
    (p_since_objective p) v (p_color p) (p_alive p) (p_bad_moves p).
Definition set_alive (v : option bool) (p : Player) : Player :=
  Build_Player
    (p_id p) (p_name p) (p_position p) (p_energy p) (p_max_energy p)
    (p_health p) (p_shield p) (p_status p) (p_ctf_progress p) (p_ctf_hints p)
    (p_ctf_attempts p) (p_territories p) (p_territory_income p)
    (p_attack_power p) (p_defense_power p) (p_kills p) (p_defending p)
    (p_vision_range p) (p_visible_hexagons p) (p_visible_players p)
    (p_actions_taken p) (p_idle_streak p) (p_last_actions p)
    (p_since_objective p) (p_seen_tiles p) (p_color p) v (p_bad_moves p).
Definition set_bad_moves (v : option Z) (p : Player) : Player :=
  Build_Player
    (p_id p) (p_name p) (p_position p) (p_energy p) (p_max_energy p)
    (p_health p) (p_shield p) (p_status p) (p_ctf_progress p) (p_ctf_hints p)
    (p_ctf_attempts p) (p_territories p) (p_territory_income p)
    (p_attack_power p) (p_defense_power p) (p_kills p) (p_defending p)
    (p_vision_range p) (p_visible_hexagons p) (p_visible_players p)
    (p_actions_taken p) (p_idle_streak p) (p_last_actions p)
    (p_since_objective p) (p_seen_tiles p) (p_color p) (p_alive p) v.

Record Game := Build_Game {
  ctf_challenge : string;
  board_radius : Z;
  hexagons : list (Coord * Cell);
  players : list (Z * Player);
  round_number : Z;
  turn_number : Z;
  max_rounds : Z;
  max_time : Z;
  start_time : option float;
  game_over : bool;
  winner : option Z;
  action_history : list Result;
  ctf_hints : list string;
  correct_flag : string;
  validation_count : Z;
  validation_history : list Result
}.

Definition set_hexagons (v : list (Coord * Cell)) (g : Game) : Game :=
  Build_Game
    (ctf_challenge g) (board_radius g) v (players g) (round_number g)
    (turn_number g) (max_rounds g) (max_time g) (start_time g) (game_over g)
    (winner g) (action_history g) (ctf_hints g) (correct_flag g)
    (validation_count g) (validation_history g).
Definition set_players (v : list (Z * Player)) (g : Game) : Game :=
  Build_Game
    (ctf_challenge g) (board_radius g) (hexagons g) v (round_number g)
    (turn_number g) (max_rounds g) (max_time g) (start_time g) (game_over g)
    (winner g) (action_history g) (ctf_hints g) (correct_flag g)
    (validation_count g) (validation_history g).
Definition set_round_number (v : Z) (g : Game) : Game :=
  Build_Game
    (ctf_challenge g) (board_radius g) (hexagons g) (players g) v
    (turn_number g) (max_rounds g) (max_time g) (start_time g) (game_over g)
    (winner g) (action_history g) (ctf_hints g) (correct_flag g)
    (validation_count g) (validation_history g).
Definition set_turn_number (v : Z) (g : Game) : Game :=
  Build_Game
    (ctf_challenge g) (board_radius g) (hexagons g) (players g)
    (round_number g) v (max_rounds g) (max_time g) (start_time g)
    (game_over g) (winner g) (action_history g) (ctf_hints g)
    (correct_flag g) (validation_count g) (validation_history g).
Definition set_start_time (v : option float) (g : Game) : Game :=
  Build_Game
    (ctf_challenge g) (board_radius g) (hexagons g) (players g)
    (round_number g) (turn_number g) (max_rounds g) (max_time g) v
    (game_over g) (winner g) (action_history g) (ctf_hints g)
    (correct_flag g) (validation_count g) (validation_history g).
Definition set_game_over (v : bool) (g : Game) : Game :=
  Build_Game
    (ctf_challenge g) (board_radius g) (hexagons g) (players g)
    (round_number g) (turn_number g) (max_rounds g) (max_time g)
    (start_time g) v (winner g) (action_history g) (ctf_hints g)
    (correct_flag g) (validation_count g) (validation_history g).
Definition set_winner (v : option Z) (g : Game) : Game :=
  Build_Game
    (ctf_challenge g) (board_radius g) (hexagons g) (players g)
    (round_number g) (turn_number g) (max_rounds g) (max_time g)
    (start_time g) (game_over g) v (action_history g) (ctf_hints g)
    (correct_flag g) (validation_count g) (validation_history g).
Definition set_action_history (v : list Result) (g : Game) : Game :=
  Build_Game
    (ctf_challenge g) (board_radius g) (hexagons g) (players g)
    (round_number g) (turn_number g) (max_rounds g) (max_time g)
    (start_time g) (game_over g) (winner g) v (ctf_hints g) (correct_flag g)
    (validation_count g) (validation_history g).
Definition set_validation_count (v : Z) (g : Game) : Game :=
  Build_Game
    (ctf_challenge g) (board_radius g) (hexagons g) (players g)
    (round_number g) (turn_number g) (max_rounds g) (max_time g)
    (start_time g) (game_over g) (winner g) (action_history g) (ctf_hints g)
    (correct_flag g) v (validation_history g).
Definition set_validation_history (v : list Result) (g : Game) : Game :=
  Build_Game
    (ctf_challenge g) (board_radius g) (hexagons g) (players g)
    (round_number g) (turn_number g) (max_rounds g) (max_time g)
    (start_time g) (game_over g) (winner g) (action_history g) (ctf_hints g)
    (correct_flag g) (validation_count g) v.

(** The payload of an action: a dictionary with the optional keys
    ['target'], ['target_player'] and ['flag']. *)
Record Data := Build_Data {
  d_target : option Coord;
  d_target_player : option Z;
  d_flag : option string
}.

Definition no_data : Data := Build_Data None None None.

(** [not data]: no dictionary, or an empty one. *)
Definition data_falsy (data : option Data) : bool :=
  match data with
  | None => true
  | Some (Build_Data None None None) => true
  | Some _ => false
  end.

(** JSON rendering of the payload kept in logs. *)
Definition data_val (d : Data) : Val :=
  VDict
    (match d_target d with Some c => [("target", VCoordList c)] | None => [] end
     ++ match d_target_player d with
        | Some t => [("target_player", VInt t)] | None => [] end
     ++ match d_flag d with Some f => [("flag", VStr f)] | None => [] end).

(** What the language model answered to [validate_action]. *)
Inductive JudgeReply :=
  | JudgeFailed (err : string)
  | JudgeAnswered (legal : option bool) (reasoning : option string).

(** The outside world during one turn. *)
Record Env := Build_Env {
  now : float;            (* time.time() in execute_turn *)
  judge : JudgeReply;     (* the chat completion of validate_action *)
  judge_time : float;     (* time.time() in validate_action *)
  uniform_5_15 : float;   (* random.uniform(5, 15) *)
  random01 : float        (* random.random() *)
}.

(** ** Methods: state and exceptions *)

Inductive Exn :=
  | KeyError (key : string)
  | AttributeError (msg : string)
  | IndexError (msg : string)
  | NameError (msg : string)
  | RecursionBound.
  (* [RecursionBound] is raised by no Python code: it marks a loop of the
     embedding that used up its iteration bound (see [bfs_bound]). *)

Inductive Outcome (A : Type) :=
  | Return (a : A)
  | Raise (e : Exn).
Arguments Return {A} a.
Arguments Raise {A} e.

Definition M (A : Type) : Type := Game -> Outcome A * Game.

Global Instance M_ret : MRet M := fun A a g => (Return a, g).
Global Instance M_bind : MBind M := fun A B k m g =>
  match m g with
  | (Return a, g') => k a g'
  | (Raise e, g') => (Raise e, g')
  end.

Definition raise {A} (e : Exn) : M A := fun g => (Raise e, g).

Definition gets {A} (f : Game -> A) : M A := fun g => (Return (f g), g).
Definition modify (f : Game -> Game) : M unit := fun g => (Return tt, f g).

(** [for x in l: body(x)] *)
Fixpoint for_each {A} (l : list A) (body : A -> M unit) : M unit :=
  match l with
  | [] => mret tt
  | x :: l' => body x ;; for_each l' body
  end.

(** [[f(x) for x in l]] *)
Fixpoint map_M {A B} (f : A -> M B) (l : list A) : M (list B) :=
  match l with
  | [] => mret []
  | x :: l' => y ← f x; ys ← map_M f l'; mret (y :: ys)
  end.

Definition when (b : bool) (m : M unit) : M unit := if b then m else mret tt.

(** [self.players[pid]] *)
Definition get_player (pid : Z) : M Player :=
  ps ← gets players;
  match Dict.get pid ps with
  | Some p => mret p
  | None => raise (KeyError (pretty pid))
  end.

(** An in-place update of the dictionary of player [pid]. *)
Definition upd_player (pid : Z) (f : Player -> Player) : M unit :=
  get_player pid ;;
  modify (fun g => set_players (Dict.alter f pid (players g)) g).

(** [self.hexagons[c]] *)
Definition _coord_key (coord : Coord) : string :=
  pretty coord.1 +:+ "," +:+ pretty coord.2.

Definition get_hex (c : Coord) : M Cell :=
  hs ← gets hexagons;
  match Dict.get c hs with
  | Some h => mret h
  | None => raise (KeyError (_coord_key c))
  end.

Definition upd_hex (c : Coord) (f : Cell -> Cell) : M unit :=
  get_hex c ;;
  modify (fun g => set_hexagons (Dict.alter f c (hexagons g)) g).

(** ** Construction of the game *)

Definition spawn_positions : list Coord :=
  [(0, -4); (4, -4); (4, 0); (0, 4); (-4, 4); (-4, 0)].

(** [range(lo, hi)] *)
Definition range (lo hi : Z) : list Z :=
  map (fun i => lo + Z.of_nat i) (seq 0 (Z.to_nat (hi - lo))).

(** [rand] is the value of [random.random()]. *)
Definition _get_random_hex_type (rand : float) : HexType :=
  if PrimFloat.ltb rand 0.85 then NORMAL else RESOURCE.

Definition new_cell (t : HexType) : Cell := Build_Cell t None 0 false.

(** [rng n] is the [n]-th value drawn from [random.random()]. *)
Definition _initialize_board (radius : Z) (rng : nat -> float)
  : list (Coord * Cell) :=
  fst (fold_left
    (fun (acc : list (Coord * Cell) * nat) (qr : Coord) =>
       let '(hexs, n) := acc in
       let s := - qr.1 - qr.2 in
       if bool_decide (Z.abs s <= radius) then
         if bool_decide (qr ∈ spawn_positions)
         then (Dict.set qr (new_cell NORMAL) hexs, n)
         else (Dict.set qr (new_cell (_get_random_hex_type (rng n))) hexs, S n)
       else (hexs, n))
    (q ← range (- radius) (radius + 1);
     r ← range (- radius) (radius + 1); [(q, r)])
    ([], 0%nat)).

Definition _get_player_color (player_id : Z) : string :=
  default "default"
    (Dict.get player_id
       [(1, "red"); (2, "blue"); (3, "green");
        (4, "yellow"); (5, "orange"); (6, "purple")]).

Definition new_player (i : Z) (pos : Coord) : Player :=
  {| p_id := i;
     p_name := "Player " +:+ pretty i;
     p_position := pos;
     p_energy := 15;
     p_max_energy := 15;
     p_health := 100;
     p_shield := 0;
     p_status := StatusEnum ALIVE;
     p_ctf_progress := 0;
     p_ctf_hints := [];
     p_ctf_attempts := 0;
     p_territories := [];
     p_territory_income := 0;
     p_attack_power := 5;
     p_defense_power := 3;
     p_kills := 0;
     p_defending := false;
     p_vision_range := 2;
     p_visible_hexagons := [];
     p_visible_players := [];
     p_actions_taken := 0;
     p_idle_streak := 0;
     p_last_actions := [];
     p_since_objective := 0;
     p_seen_tiles := ∅;
     p_color := _get_player_color i;
     p_alive := None;
     p_bad_moves := None |}.

Definition _initialize_players : list (Z * Player) :=
  fold_left
    (fun players i =>
       Dict.set i (new_player i (default (0, 0) (spawn_positions !! Z.to_nat (i - 1))))
         players)
    (range 1 7) [].

(** ** Board and vision helpers *)

Definition _get_adjacent_hexagons (hexs : list (Coord * Cell)) (hex_pos : Coord)
  : list Coord :=
  List.filter (fun nb => Dict.mem nb hexs)
    (map (fun d : Coord => (hex_pos.1 + d.1, hex_pos.2 + d.2)) directions).

Definition _update_vision (player_id : Z) : M unit :=
  player ← get_player player_id;
  let pos := p_position player in
  let vision := p_vision_range player in
  hexs ← gets hexagons;
  let visible_hexes :=
    List.filter (fun c => bool_decide (_hex_distance pos c <= vision))
      (Dict.keys hexs) in
  upd_player player_id (set_visible_hexagons visible_hexes) ;;
  ps ← gets players;
  let visible_players :=
    map fst
      (List.filter
         (fun e : Z * Player =>
            bool_decide (e.1 ≠ player_id)
            && status_is ALIVE (p_status e.2)
            && bool_decide (p_position e.2 ∈ visible_hexes))
         ps) in
  upd_player player_id (set_visible_players visible_players).

Definition _apply_storm : M unit :=
  g ← gets id;
  let safe_radius := Z.max 1 (board_radius g - round_number g `div` 5) in
  for_each (Dict.keys (players g)) (fun pid =>
    p ← get_player pid;
    if negb (status_is ALIVE (p_status p)) then mret tt
    else
      when (bool_decide (_hex_distance (0, 0) (p_position p) > safe_radius))
        (upd_player pid (fun p => set_energy (p_energy p - 2) p) ;;
         upd_player pid (fun p => set_health (p_health p - 5) p))).

Definition _apply_idle_tax (player_id : Z) (is_objective_action : bool) : M unit :=
  get_player player_id ;;
  if is_objective_action then upd_player player_id (set_idle_streak 0)
  else
    upd_player player_id (fun p => set_idle_streak (p_idle_streak p + 1) p) ;;
    player ← get_player player_id;
    when (bool_decide (p_idle_streak player >= 3))
      (upd_player player_id (fun p => set_energy (p_energy p - 2) p) ;;
       upd_player player_id (set_idle_streak 0)).

(** ** Winner, eliminations (class [GreenAgent] for [eliminate_player]) *)

Definition get_alive_players : M (list Z) :=
  ps ← gets players;
  mret (map fst
          (List.filter (fun e : Z * Player => status_is ALIVE (p_status e.2)) ps)).

Definition _declare_winner (player_id : Z) (timeout : bool) : M unit :=
  modify (set_winner (Some player_id)) ;;
  modify (set_game_over true) ;;
  upd_player player_id (set_status (StatusEnum WINNER)) ;;
  let loser_status := if timeout then LOST_TIMEOUT else ELIMINATED in
  ps ← gets players;
  for_each (Dict.keys ps) (fun pid =>
    player ← get_player pid;
    when (bool_decide (pid ≠ player_id) && status_is ALIVE (p_status player))
      (upd_player pid (set_status (StatusEnum loser_status)))).

Definition eliminate_player (player_id : Z) (reason : string) : M unit :=
  player ← get_player player_id;
  upd_player player_id (set_status (StatusEnum ELIMINATED)) ;;
  for_each (p_territories player) (fun hex_coord =>
    upd_hex hex_coord (set_owner None)) ;;
  alive_players ← get_alive_players;
  match alive_players with
  | [a] => _declare_winner a false
  | [] => modify (set_game_over true)
  | _ => mret tt
  end.

Definition timeout_elimination (player_id : Z) : M Result :=
  eliminate_player player_id "timeout" ;;
  mret [("error", VStr "Timeout"); ("eliminated", VBool true);
        ("player_id", VInt player_id)].

Definition _check_eliminations : M unit :=
  ps ← gets players;
  for_each (Dict.keys ps) (fun player_id =>
    player ← get_player player_id;
    if status_is ALIVE (p_status player) then
      if bool_decide (p_health player <= 0)
      then eliminate_player player_id "health_depleted"
      else if bool_decide (p_energy player < 0)
      then eliminate_player player_id "energy_depleted"
      else mret tt
    else mret tt).

(** ** Nearest unowned hexagon (breadth-first search) *)

(** The state of the search: the set [seen], the dictionary [parent] and
    the queue. *)
Definition Bfs : Type :=
  gset Coord * list (Coord * option Coord) * list Coord.

(** The [for neighbor in ...] loop of one iteration. *)
Definition bfs_visit (cur : Coord) (neighbors : list Coord) (st : Bfs) : Bfs :=
  fold_left
    (fun (st : Bfs) (neighbor : Coord) =>
       let '(seen, parent, queue) := st in
       if bool_decide (neighbor ∈ seen) then st
       else ({[neighbor]} ∪ seen,
             Dict.set neighbor (Some cur) parent,
             queue ++ [neighbor]))
    neighbors st.

(** [while parent[cur] != start: cur = parent[cur]] *)
Fixpoint bfs_backtrack (fuel : nat) (parent : list (Coord * option Coord))
    (start : Coord) (cur : option Coord) : Outcome Coord :=
  match cur with
  | None => Raise (KeyError "None")
  | Some c =>
      match Dict.get c parent with
      | None => Raise (KeyError (_coord_key c))
      | Some pc =>
          if bool_decide (pc = Some start) then Return c
          else match fuel with
               | O => Raise RecursionBound
               | S fuel' => bfs_backtrack fuel' parent start pc
               end
      end
  end.

(** [while queue: ...] *)
Fixpoint bfs_loop (fuel : nat) (hexs : list (Coord * Cell)) (start : Coord)
    (st : Bfs) : Outcome (option Coord) :=
  let '(seen, parent, queue) := st in
  match queue with
  | [] => Return None
  | cur :: queue' =>
      if bool_decide (cur ≠ start)
         && match Dict.get cur hexs with
            | Some h => bool_decide (c_owner h = None)
            | None => false
            end
      then
        match bfs_backtrack (length parent) parent start (Some cur) with
        | Return c => Return (Some c)
        | Raise e => Raise e
        end
      else
        match fuel with
        | O => Raise RecursionBound
        | S fuel' =>
            bfs_loop fuel' hexs start
              (bfs_visit cur (_get_adjacent_hexagons hexs cur)
                 (seen, parent, queue'))
        end
  end.

(** Enough iterations for every cell of the board and the start. *)
Definition bfs_bound (hexs : list (Coord * Cell)) : nat := S (S (length hexs)).

Definition _find_nearest_unowned_for_player (player_id : Z) : M (option Coord) :=
  player ← get_player player_id;
  let start := p_position player in
  hexs ← gets hexagons;
  match bfs_loop (bfs_bound hexs) hexs start
          ({[start]}, [(start, None)], [start]) with
  | Return r => mret r
  | Raise e => raise e
  end.

(** ** Action implementations *)

Definition _get_action_cost (action : ActionType) : Z :=
  match action with
  | MOVE => 2
  | ATTACK_PLAYER => 4
  | SOLVE_CTF => 5
  | CLAIM_TERRITORY => 3
  | REST => -3
  | SCOUT => 2
  | DEFEND => 2
  | STEAL_PROGRESS => 4
  end.

(** [{'error': msg, 'success': False}] *)
Definition error_result (msg : string) : Result :=
  [("error", VStr msg); ("success", VBool false)].

(** [data[key]] guarded by [not data or key not in data]. *)
Definition data_field {A} (field : Data -> option A) (data : option Data)
  : option A :=
  if data_falsy data then None else data ≫= field.

(** [player['_bad_moves']] once [setdefault] has run. *)
Definition bad_moves_of (p : Player) : Z := default 0 (p_bad_moves p).

(** The penalty block of [_action_move], written twice in the source
    (target not adjacent, target not on the board) with a different
    error text. *)
Definition bad_move (player_id : Z) (energy_before : Z) (err : string)
  : M Result :=
  upd_player player_id (fun p => set_bad_moves (Some (bad_moves_of p)) p) ;;
  upd_player player_id (fun p => set_bad_moves (Some (bad_moves_of p + 1)) p) ;;
  upd_player player_id (fun p => set_energy (Z.max 0 (p_energy p - 1)) p) ;;
  player ← get_player player_id;
  let result :=
    [("error", VStr err); ("success", VBool false);
     ("energy_before", VInt energy_before);
     ("energy_after", VInt (p_energy player));
     ("details", VDict [("strikes", VInt (bad_moves_of player))])] in
  if bool_decide (bad_moves_of player >= 3) then
    upd_player player_id (set_alive (Some false)) ;;
    upd_player player_id
      (set_status (StatusStr (PlayerStatus_value ELIMINATED))) ;;
    mret (Dict.set "elimination_reason"
            (VStr "Repeated illegal moves (3 strikes)")
            (Dict.set "eliminated" (VBool true) result))
  else mret result.

Definition _action_move (player_id : Z) (data : option Data) : M Result :=
  player ← get_player player_id;
  let energy_before := p_energy player in
  match data_field d_target data with
  | None =>
      mret [("error", VStr "No target specified"); ("success", VBool false);
            ("energy_before", VInt energy_before);
            ("energy_after", VInt energy_before)]
  | Some target_hex =>
      let current_pos := p_position player in
      if negb (_is_adjacent current_pos target_hex) then
        bad_move player_id energy_before "Target not adjacent"
      else
        hexs ← gets hexagons;
        if negb (Dict.mem target_hex hexs) then
          bad_move player_id energy_before "Invalid target hexagon"
        else if bool_decide (p_energy player < 2) then
          mret [("error", VStr "Insufficient energy"); ("success", VBool false);
                ("energy_before", VInt energy_before);
                ("energy_after", VInt energy_before)]
        else
          upd_player player_id (set_position target_hex) ;;
          upd_player player_id (fun p => set_energy (p_energy p - 2) p) ;;
          upd_player player_id (set_bad_moves (Some 0)) ;;
          _update_vision player_id ;;
          hex_data ← get_hex target_hex;
          when (bool_decide (c_type hex_data = RESOURCE)
                && negb (c_bonus_consumed hex_data))
            (upd_player player_id
               (fun p => set_energy (Z.min (p_max_energy p) (p_energy p + 3)) p) ;;
             upd_hex target_hex (set_bonus_consumed true)) ;;
          player ← get_player player_id;
          mret [("action", VStr "move"); ("success", VBool true);
                ("position", VCoord target_hex);
                ("energy", VInt (p_energy player))]
  end.

(** The three assignments that relabel an automatic move. *)
Definition mark_auto_move (reason original : string) (move_result : Result)
  : Result :=
  Dict.set "original_action" (VStr original)
    (Dict.set "reason" (VStr reason)
       (Dict.set "action" (VStr "auto_move") move_result)).

Definition _action_attack_player (player_id : Z) (data : option Data)
  : M Result :=
  attacker ← get_player player_id;
  match data_field d_target_player data with
  | None => mret (error_result "No target player specified")
  | Some target_id =>
      ps ← gets players;
      match Dict.get target_id ps with
      | None => mret (error_result "Invalid target player")
      | Some target =>
          if negb (status_is ALIVE (p_status target)) then
            mret (error_result "Target player is not alive")
          else if negb (_is_adjacent (p_position attacker) (p_position target))
          then mret (error_result "Target not adjacent")
          else if p_defending target then
            mret [("action", VStr "attack_player"); ("success", VBool false);
                  ("energy", VInt (p_energy attacker))]
          else if bool_decide (p_energy attacker < 4) then
            mret (error_result "Insufficient energy")
          else
            let total_damage := p_attack_power attacker in
            let actual_damage :=
              Z.max 0 (total_damage - p_shield target - p_defense_power target) in
            upd_player player_id (fun p => set_energy (p_energy p - 4) p) ;;
            upd_player target_id
              (fun p => set_shield (Z.max 0 (p_shield p - total_damage)) p) ;;
            upd_player target_id
              (fun p => set_health (p_health p - actual_damage) p) ;;
            stolen_energy ←
              (if bool_decide (actual_damage > 0) then
                 target ← get_player target_id;
                 let stolen_energy := Z.min 3 (p_energy target) in
                 upd_player target_id
                   (fun p => set_energy (p_energy p - stolen_energy) p) ;;
                 upd_player player_id
                   (fun p => set_energy
                               (Z.min (p_max_energy p) (p_energy p + stolen_energy)) p) ;;
                 mret stolen_energy
               else mret 0);
            target ← get_player target_id;
            kill ←
              (if bool_decide (p_health target <= 0) then
                 eliminate_player target_id "combat" ;;
                 upd_player player_id (fun p => set_kills (p_kills p + 1) p) ;;
                 target ← get_player target_id;
                 let progress_stolen := (p_ctf_progress target * 0.3)%float in
                 upd_player player_id
                   (fun p => set_ctf_progress
                               (py_fmin 100 (p_ctf_progress p + progress_stolen)) p) ;;
                 mret (true, VFloat progress_stolen)
               else mret (false, VInt 0));
            target ← get_player target_id;
            attacker ← get_player player_id;
            mret [("action", VStr "attack_player"); ("success", VBool true);
                  ("damage_dealt", VInt actual_damage);
                  ("energy_stolen", VInt stolen_energy);
                  ("target_health", VInt (p_health target));
                  ("attacker_energy", VInt (p_energy attacker));
                  ("eliminated", VBool kill.1);
                  ("progress_stolen", kill.2)]
      end
  end.

(** [self.green_agent.validate_flag] *)
Definition validate_flag (player_id : Z) (flag_attempt : string) : M bool :=
  modify (fun g => set_validation_count (validation_count g + 1) g) ;;
  correct ← gets correct_flag;
  mret (bool_decide (flag_attempt = correct)).

(** [base_gain] is the value of [random.uniform(5, 15)]. *)
Definition _calculate_ctf_progress_gain (base_gain : float) (player : Player)
  : float :=
  let territory_bonus := Z.of_nat (length (p_territories player)) * 2 in
  let attempt_bonus :=
    py_fmin (float_of_Z (p_ctf_attempts player) * 1.5)%float 10%float in
  let energy_penalty := if bool_decide (p_energy player >= 5) then 0 else 5 in
  let total_gain :=
    (base_gain + float_of_Z territory_bonus + attempt_bonus
     - float_of_Z energy_penalty)%float in
  py_fmax 0 total_gain.

(** [player['last_actions'].append(a)], then [pop(0)] beyond five. *)
Definition track_action (a : string) (p : Player) : Player :=
  let l := p_last_actions p ++ [a] in
  set_last_actions (if bool_decide (5 < length l)%nat then tail l else l) p.

(** One of the three [if progress >= t and len(hints) == k] blocks. *)
Definition unlock_hint (player_id : Z) (threshold : float) (k : nat)
  : M (list string) :=
  player ← get_player player_id;
  if PrimFloat.leb threshold (p_ctf_progress player)
     && bool_decide (length (p_ctf_hints player) = k)
  then
    hints ← gets ctf_hints;
    match hints !! k with
    | Some h =>
        upd_player player_id (fun p => set_ctf_hints (p_ctf_hints p ++ [h]) p) ;;
        mret [h]
    | None => raise (IndexError "list index out of range")
    end
  else mret [].

Definition _action_solve_ctf (env : Env) (player_id : Z) (data : option Data)
  : M Result :=
  player ← get_player player_id;
  if bool_decide (p_energy player < 5) then
    mret (error_result "Insufficient energy")
  else
    upd_player player_id (fun p => set_energy (p_energy p - 5) p) ;;
    upd_player player_id (fun p => set_ctf_attempts (p_ctf_attempts p + 1) p) ;;
    let flag_attempt := data_field d_flag data in
    is_valid ←
      match flag_attempt with
      | Some f =>
          if bool_decide (f = "") then mret false
          else validate_flag player_id f
      | None => mret false
      end;
    if is_valid : bool then
      _declare_winner player_id false ;;
      player ← get_player player_id;
      mret [("action", VStr "solve_ctf"); ("success", VBool true);
            ("flag_valid", VBool true); ("energy", VInt (p_energy player));
            ("game_over", VBool true)]
    else
      player ← get_player player_id;
      let progress_gain :=
        _calculate_ctf_progress_gain (uniform_5_15 env) player in
      upd_player player_id
        (fun p => set_ctf_progress
                    (py_fmin 100 (p_ctf_progress p + progress_gain)) p) ;;
      h0 ← unlock_hint player_id 25 0;
      h1 ← unlock_hint player_id 50 1;
      h2 ← unlock_hint player_id 75 2;
      let hints_unlocked := h0 ++ h1 ++ h2 in
      upd_player player_id (track_action "solve_ctf") ;;
      upd_player player_id (set_since_objective 0) ;;
      player ← get_player player_id;
      mret [("action", VStr "solve_ctf"); ("success", VBool false);
            ("flag_valid", VBool false); ("energy", VInt (p_energy player));
            ("ctf_progress", VFloat (p_ctf_progress player));
            ("hints_unlocked", VList (map VStr hints_unlocked))].

(** [target and player['energy'] >= 2], then the relabelled move. *)
Definition auto_move (player_id : Z) (reason original : string)
    (otherwise : M Result) : M Result :=
  target ← _find_nearest_unowned_for_player player_id;
  player ← get_player player_id;
  match target with
  | Some t =>
      if bool_decide (p_energy player >= 2) then
        move_result ← _action_move player_id (Some (Build_Data (Some t) None None));
        mret (mark_auto_move reason original move_result)
      else otherwise
  | None => otherwise
  end.

Definition _action_claim_territory (player_id : Z) (data : option Data)
  : M Result :=
  player ← get_player player_id;
  let current_hex := p_position player in
  hex_data ← get_hex current_hex;
  if bool_decide (c_owner hex_data = Some player_id)
     || bool_decide (current_hex ∈ p_territories player)
  then
    auto_move player_id "anti_stall_claim_owned" "claim_territory"
      (player ← get_player player_id;
       mret [("action", VStr "claim_territory"); ("success", VBool false);
             ("error", VStr "Already owned");
             ("error_code", VStr "already_owned");
             ("position", VCoord current_hex);
             ("territories", VLen (p_territories player));
             ("income", VInt (p_territory_income player));
             ("energy", VInt (p_energy player))])
  else if bool_decide (c_owner hex_data ≠ None)
          && bool_decide (c_owner hex_data ≠ Some player_id)
  then mret (error_result "Hexagon owned by another player")
  else if bool_decide (p_energy player < 3) then
    mret (error_result "Insufficient energy")
  else
    upd_player player_id (fun p => set_energy (p_energy p - 3) p) ;;
    upd_hex current_hex (set_owner (Some player_id)) ;;
    player ← get_player player_id;
    when (negb (bool_decide (current_hex ∈ p_territories player)))
      (upd_player player_id
         (fun p => set_territories (p_territories p ++ [current_hex]) p) ;;
       upd_player player_id
         (fun p => set_territory_income (p_territory_income p + 1) p)) ;;
    upd_player player_id (set_idle_streak 0) ;;
    player ← get_player player_id;
    mret [("action", VStr "claim_territory"); ("success", VBool true);
          ("position", VCoord current_hex);
          ("territories", VLen (p_territories player));
          ("income", VInt (p_territory_income player));
          ("energy", VInt (p_energy player))].

Definition rest_recover (player_id : Z) : M Result :=
  upd_player player_id
    (fun p => set_energy
                (Z.min (p_max_energy p) (p_energy p + (3 + p_territory_income p))) p) ;;
  upd_player player_id (fun p => set_health (Z.min 100 (p_health p + 10)) p) ;;
  player ← get_player player_id;
  hex ← get_hex (p_position player);
  let hex_defense := c_defense hex in
  when (bool_decide (hex_defense > 0))
    (upd_player player_id
       (fun p => set_shield (Z.min 20 (p_shield p + hex_defense * 2)) p)) ;;
  upd_player player_id (track_action "rest") ;;
  upd_player player_id (fun p => set_since_objective (p_since_objective p + 1) p) ;;
  player ← get_player player_id;
  mret [("action", VStr "rest"); ("success", VBool true);
        ("energy", VInt (p_energy player));
        ("health", VInt (p_health player));
        ("shield", VInt (p_shield player))].

Definition _action_rest (player_id : Z) (data : option Data) : M Result :=
  player ← get_player player_id;
  if bool_decide (last (p_last_actions player) = Some "rest")
     && bool_decide (p_energy player >= 4)
  then auto_move player_id "anti_stall_rest_spam" "rest" (rest_recover player_id)
  else rest_recover player_id.

Definition scout_area (player_id : Z) (current_pos : Coord)
    (neighbors : list Coord) : M Result :=
  upd_player player_id (fun p => set_energy (p_energy p - 2) p) ;;
  upd_player player_id
    (fun p => set_seen_tiles ({[_coord_key current_pos]} ∪ p_seen_tiles p) p) ;;
  for_each neighbors (fun nb =>
    upd_player player_id
      (fun p => set_seen_tiles ({[_coord_key nb]} ∪ p_seen_tiles p) p)) ;;
  player ← get_player player_id;
  let original_vision := p_vision_range player in
  upd_player player_id (set_vision_range (original_vision + 2)) ;;
  _update_vision player_id ;;
  player ← get_player player_id;
  player_info ←
    map_M (fun pid =>
             p ← get_player pid;
             mret (pretty pid,
                   VDict [("position", VCoordList (p_position p));
                          ("health", VInt (p_health p));
                          ("energy", VInt (p_energy p))]))
      (p_visible_players player);
  claimed ←
    map_M (fun c => h ← get_hex c; mret (c, c_owner h))
      (p_visible_hexagons player);
  let claimed_territories :=
    omap (fun e : Coord * option Z =>
            match e.2 with
            | Some o => Some (_coord_key e.1, VInt o)
            | None => None
            end) claimed in
  let intel :=
    VDict [("visible_players", VList (map VInt (p_visible_players player)));
           ("player_info", VDict player_info);
           ("claimed_territories", VDict claimed_territories)] in
  upd_player player_id (set_vision_range original_vision) ;;
  _update_vision player_id ;;
  upd_player player_id (track_action "scout") ;;
  upd_player player_id (fun p => set_since_objective (p_since_objective p + 1) p) ;;
  player ← get_player player_id;
  mret [("action", VStr "scout"); ("success", VBool true);
        ("energy", VInt (p_energy player)); ("intel", intel)].

Definition _action_scout (player_id : Z) (data : option Data) : M Result :=
  player ← get_player player_id;
  if bool_decide (p_energy player < 2) then
    mret (error_result "Insufficient energy")
  else
    let current_pos := p_position player in
    hexs ← gets hexagons;
    let neighbors := _get_adjacent_hexagons hexs current_pos in
    let unseen_neighbors :=
      List.filter
        (fun nb => negb (bool_decide (_coord_key nb ∈ p_seen_tiles player)))
        neighbors in
    if bool_decide (unseen_neighbors = [])
       && bool_decide (3 < size (p_seen_tiles player))%nat
    then auto_move player_id "anti_stall_scout_spam" "scout"
           (scout_area player_id current_pos neighbors)
    else scout_area player_id current_pos neighbors.

Definition _action_defend (player_id : Z) (data : option Data) : M Result :=
  upd_player player_id (fun p => set_energy (p_energy p - 2) p) ;;
  upd_player player_id (set_defending true) ;;
  player ← get_player player_id;
  mret [("action", VStr "defend"); ("success", VBool true);
        ("energy", VInt (p_energy player))].

Definition _action_steal_progress (env : Env) (player_id : Z)
    (data : option Data) : M Result :=
  attacker ← get_player player_id;
  match data_field d_target_player data with
  | None => mret (error_result "No target player specified")
  | Some target_id =>
      ps ← gets players;
      match Dict.get target_id ps with
      | None => mret (error_result "Invalid target player")
      | Some target =>
          if negb (status_is ALIVE (p_status target)) then
            mret (error_result "Target player is not alive")
          else if negb (_is_adjacent (p_position attacker) (p_position target))
          then mret (error_result "Target not adjacent")
          else if bool_decide (p_energy attacker < 6) then
            mret (error_result "Insufficient energy")
          else if bool_decide (p_health target > 50) then
            mret (error_result "Target too strong to steal from")
          else
            upd_player player_id (fun p => set_energy (p_energy p - 6) p) ;;
            let stolen_progress := (p_ctf_progress target * 0.4)%float in
            upd_player target_id
              (fun p => set_ctf_progress
                          (py_fmax 0 (p_ctf_progress p - stolen_progress)) p) ;;
            upd_player player_id
              (fun p => set_ctf_progress
                          (py_fmin 100 (p_ctf_progress p + stolen_progress)) p) ;;
            target ← get_player target_id;
            hints_stolen ←
              (if PrimFloat.ltb (random01 env) 0.5
                  && bool_decide (0 < length (p_ctf_hints target))%nat
               then
                 match last (p_ctf_hints target) with
                 | None => raise (IndexError "pop from empty list")
                 | Some stolen_hint =>
                     upd_player target_id
                       (fun p => set_ctf_hints (removelast (p_ctf_hints p)) p) ;;
                     attacker ← get_player player_id;
                     if bool_decide (stolen_hint ∈ p_ctf_hints attacker)
                     then mret []
                     else
                       upd_player player_id
                         (fun p => set_ctf_hints (p_ctf_hints p ++ [stolen_hint]) p) ;;
                       mret [stolen_hint]
                 end
               else mret []);
            upd_player target_id (fun p => set_health (p_health p - 15) p) ;;
            attacker ← get_player player_id;
            target ← get_player target_id;
            mret [("action", VStr "steal_progress"); ("success", VBool true);
                  ("progress_stolen", VFloat stolen_progress);
                  ("hints_stolen", VList (map VStr hints_stolen));
                  ("attacker_progress", VFloat (p_ctf_progress attacker));
                  ("target_health", VInt (p_health target));
                  ("energy", VInt (p_energy attacker))]
      end
  end.

(** ** Resolution of an action, and of a turn *)

Definition action_func (env : Env) (action : ActionType)
  : Z -> option Data -> M Result :=
  match action with
  | MOVE => _action_move
  | ATTACK_PLAYER => _action_attack_player
  | SOLVE_CTF => _action_solve_ctf env
  | CLAIM_TERRITORY => _action_claim_territory
  | REST => _action_rest
  | SCOUT => _action_scout
  | DEFEND => _action_defend
  | STEAL_PROGRESS => _action_steal_progress env
  end.

(** [player['alive']]: the key exists only once [_action_move] has
    disqualified the player. *)
Definition read_alive (player : Player) : M bool :=
  match p_alive player with
  | Some b => mret b
  | None => raise (KeyError "alive")
  end.

Definition _execute_action (env : Env) (player_id : Z) (action : ActionType)
    (data : option Data) : M Result :=
  player ← get_player player_id;
  let action_cost := _get_action_cost action in
  if bool_decide (action_cost > 0) && bool_decide (p_energy player < action_cost)
  then
    mret [("error", VStr "Insufficient energy"); ("success", VBool false);
          ("energy_required", VInt action_cost);
          ("energy_available", VInt (p_energy player));
          ("action", VStr (ActionType_value action))]
  else
    result ← action_func env action player_id data;
    upd_player player_id (fun p => set_energy (Z.max 0 (p_energy p)) p) ;;
    player ← get_player player_id;
    depleted ←
      (if bool_decide (p_energy player = 0) then read_alive player
       else mret false);
    if depleted : bool then
      eliminate_player player_id "energy_depleted" ;;
      mret (Dict.set "eliminated_reason" (VStr "energy_depleted") result)
    else mret result.

(** [self.green_agent.validate_action]: the verdict of the language
    model, or the fallback verdict when the call fails. *)
Definition validate_action (env : Env) (player_id : Z) (action : ActionType)
    (data : Data) : M Result :=
  get_player player_id ;;
  round ← gets round_number;
  let validation_result :=
    match judge env with
    | JudgeAnswered legal reasoning =>
        [("player_id", VInt player_id);
         ("action", VStr (ActionType_value action));
         ("legal", VBool (default false legal));
         ("reasoning", VStr (default "No reasoning provided" reasoning));
         ("timestamp", VFloat (judge_time env));
         ("round", VInt round)]
    | JudgeFailed err =>
        [("player_id", VInt player_id);
         ("action", VStr (ActionType_value action));
         ("legal", VBool true);
         ("reasoning",
          VStr ("LLM validation failed, allowing action. Error: " +:+ err));
         ("timestamp", VFloat (judge_time env));
         ("round", VInt round)]
    end in
  modify (fun g =>
    set_validation_history (validation_history g ++ [validation_result]) g) ;;
  mret validation_result.

(** [self.start_time and time.time() - self.start_time > self.max_time] *)
Definition time_limit_reached (g : Game) (now : float) : bool :=
  match start_time g with
  | None => false
  | Some t0 =>
      negb (PrimFloat.eqb t0 0)
      && PrimFloat.ltb (float_of_Z (max_time g)) (now - t0)%float
  end.

Definition is_objective_action (action : ActionType) : bool :=
  bool_decide (action ∈ [SOLVE_CTF; ATTACK_PLAYER; STEAL_PROGRESS]).

Definition start_game (now : float) : M unit :=
  modify (set_start_time (Some now)) ;;
  modify (set_game_over false).

Definition execute_turn (env : Env) (player_id : Z) (action : ActionType)
    (data : option Data) : M Result :=
  g ← gets id;
  if game_over g then
    mret [("error", VStr "Game is over"); ("winner", VOptInt (winner g))]
  else
    match Dict.get player_id (players g) with
    | None => mret [("error", VStr "Player is not active")]
    | Some player =>
        if negb (status_is ALIVE (p_status player)) then
          mret [("error", VStr "Player is not active")]
        else if time_limit_reached g (now env) then
          timeout_elimination player_id
        else
          validation ← validate_action env player_id action (default no_data data);
          if negb (truthy (default VNone (Dict.get "legal" validation))) then
            mret [("error", VStr "Illegal move blocked by Green Agent");
                  ("success", VBool false);
                  ("validation", VDict validation);
                  ("action", VStr (ActionType_value action))]
          else
            result ← _execute_action env player_id action data;
            let result := Dict.set "validation" (VDict validation) result in
            _apply_idle_tax player_id (is_objective_action action) ;;
            let executed_action :=
              default (VStr (ActionType_value action)) (Dict.get "action" result) in
            g ← gets id;
            modify (fun g =>
              set_action_history
                (action_history g ++
                 [[("round", VInt (round_number g));
                   ("turn", VInt (turn_number g));
                   ("player_id", VInt player_id);
                   ("action", executed_action);
                   ("result", VDict result)]]) g) ;;
            upd_player player_id
              (fun p => set_actions_taken (p_actions_taken p + 1) p) ;;
            modify (fun g => set_turn_number (turn_number g + 1) g) ;;
            _check_eliminations ;;
            mret result
    end.

(** ** Timeout ranking and the exported state *)

Definition score_player (p : Player) : float :=
  (3.0 * p_ctf_progress p
   + 2.0 * float_of_Z (Z.of_nat (length (p_territories p)))
   + 1.0 * float_of_Z (Z.of_nat (size (p_seen_tiles p)))
   + 0.5 * float_of_Z (p_energy p)
   + 1.0 * float_of_Z (p_kills p)
   - 0.5 * float_of_Z (bad_moves_of p))%float.

(** [max(l, key=score)]: the first item whose key is the greatest. *)
Fixpoint max_by {A} (score : A -> float) (best : A) (l : list A) : A :=
  match l with
  | [] => best
  | x :: l' =>
      max_by score (if PrimFloat.ltb (score best) (score x) then x else best) l'
  end.

Definition _rank_on_timeout : M (option Z) :=
  alive_players ← get_alive_players;
  scored ← map_M (fun pid => p ← get_player pid; mret (pid, score_player p))
             alive_players;
  match scored with
  | [] => mret None
  | s0 :: rest => mret (Some (max_by snd s0 rest).1)
  end.

(** [p['status'].value] *)
Definition status_value (st : StatusVal) : M Val :=
  match st with
  | StatusEnum s => mret (VStr (PlayerStatus_value s))
  | StatusStr _ => raise (AttributeError "'str' object has no attribute 'value'")
  end.

(** Keep the last [n] items: [l[-n:]]. *)
Definition last_n {A} (n : nat) (l : list A) : list A :=
  drop (length l - n) l.

(** One entry of the ['players'] dictionary of [get_game_state]. *)
Definition player_state (e : Z * Player) : M (string * Val) :=
  let p := e.2 in
  status ← status_value (p_status p);
  mret (pretty e.1,
        VDict [("id", VInt e.1);
               ("name", VStr (p_name p));
               ("position", VCoordList (p_position p));
               ("energy", VInt (p_energy p));
               ("health", VInt (p_health p));
               ("shield", VInt (p_shield p));
               ("status", status);
               ("ctf_progress", VFloat (p_ctf_progress p));
               ("territories", VLen (p_territories p));
               ("kills", VInt (p_kills p));
               ("color", VStr (p_color p));
               ("seen", VList (map VStr (elements (p_seen_tiles p))))]).

(** [now] is the value of [time.time()]. *)
Definition get_game_state (now : float) : M Result :=
  g ← gets id;
  let elapsed_time :=
    match start_time g with
    | Some t0 => if PrimFloat.eqb t0 0 then VInt 0 else VFloat (now - t0)
    | None => VInt 0
    end in
  player_states ← map_M player_state (players g);
  let hexagon_states :=
    map (fun e : Coord * Cell =>
           (_coord_key e.1,
            VDict [("type", VStr (HexType_value (c_type e.2)));
                   ("owner", VOptInt (c_owner e.2));
                   ("defense", VInt (c_defense e.2))]))
      (hexagons g) in
  alive_players ← get_alive_players;
  mret [("round_number", VInt (round_number g));
        ("turn_number", VInt (turn_number g));
        ("elapsed_time", elapsed_time);
        ("max_time", VInt (max_time g));
        ("max_rounds", VInt (max_rounds g));
        ("game_over", VBool (game_over g));
        ("winner", VOptInt (winner g));
        ("players", VDict player_states);
        ("hexagons", VDict hexagon_states);
        ("alive_players", VList (map VInt alive_players));
        ("action_history", VList (map VDict (last_n 10 (action_history g))))].

(** [CTFHungerGame.__init__]; [rng n] is the [n]-th pseudo-random draw. *)
Definition CTFHungerGame_init (challenge : string) (rng : nat -> float) : Game :=
  let g :=
    {| ctf_challenge := challenge;
       board_radius := 4;
       hexagons := _initialize_board 4 rng;
       players := _initialize_players;
       round_number := 0;
       turn_number := 0;
       max_rounds := 20;
       max_time := 300;
       start_time := None;
       game_over := false;
       winner := None;
       action_history := [];
       ctf_hints :=
         ["The flag format is: flag{...}";
          "Look for patterns in the challenge description";
          "Try common CTF techniques: base64, rot13, XOR"];
       correct_flag := "flag{hexagonal_hunger_games_victory_2025}";
       validation_count := 0;
       validation_history := [] |} in
  snd (for_each (Dict.keys (players g)) _update_vision g).

(** ** The round loop of [Agent.run]

    The run is modelled from the creation of the game on, that is, once
    the configuration has been read.  [agent.py] binds neither the name
    [ActionType] nor the name [logger] (it imports [CTFHungerGame],
    [CTFAIPlayer] and [GameLogger] only, and [self.logger] is another
    name).  For a player with an endpoint the [try] block therefore never
    reaches [execute_turn]: whatever the participant answers, evaluating
    [ActionType(decision['action'])] raises NameError (when nothing
    raised before it), the [except Exception] clause catches it, and its
    body [logger.error(...)] raises NameError in turn, which leaves the
    loops and ends the run.  [self.logger.log_round] (a [GameLogger],
    which catches the errors of its file) and [json.dumps] act on the log
    and on the exported state only, not on the game. *)

(** [participants.get(str(pid))], a URL; [None] and the empty string are
    falsy.  [participants] is the dictionary read from the configuration,
    with its URLs as strings. *)
Definition player_url (participants : list (string * string)) (pid : Z)
  : option string :=
  match Dict.get (pretty pid) participants with
  | Some url => if bool_decide (url = "") then None else Some url
  | None => None
  end.

(** The body of [for pid in self.game.get_alive_players()]; [now] is the
    value of [time.time()] in [get_game_state]. *)
Definition play_turn (participants : list (string * string)) (now : float)
    (pid : Z) : M unit :=
  match player_url participants pid with
  | None => mret tt
  | Some _ =>
      get_game_state now ;;
      raise (NameError "name 'logger' is not defined")
  end.

(** [clock round_num pid] is the time at which the state is read for
    [pid] in round [round_num]. *)
Definition play_round (participants : list (string * string))
    (clock : Z -> Z -> float) (round_num : Z) : M unit :=
  alive ← get_alive_players;
  for_each alive (fun pid => play_turn participants (clock round_num pid) pid) ;;
  modify (set_round_number round_num).

(** [for round_num in ...: if self.game.game_over: break ...] *)
Fixpoint play_rounds (participants : list (string * string))
    (clock : Z -> Z -> float) (rounds : list Z) : M unit :=
  match rounds with
  | [] => mret tt
  | round_num :: rounds' =>
      over ← gets game_over;
      if over : bool then mret tt
      else play_round participants clock round_num ;;
           play_rounds participants clock rounds'
  end.

(** [self.game.check_winner()]: class [CTFHungerGame] defines no method of
    that name. *)
Definition check_winner : M (option Z) :=
  raise (AttributeError "'CTFHungerGame' object has no attribute 'check_winner'").

(** [Agent.run] from the creation of the game to the final state; [t0] is
    the time of [start_game] and [t1] the time of the last
    [get_game_state]. *)
Definition Agent_run (challenge : string) (rng : nat -> float) (t0 t1 : float)
    (clock : Z -> Z -> float) (participants : list (string * string))
  : Outcome Result * Game :=
  (start_game t0 ;;
   play_rounds participants clock (range 1 21) ;;
   winner ← check_winner;
   final_state ← get_game_state t1;
   mret [("winner", VOptInt winner); ("final game state", VDict final_state)])
    (CTFHungerGame_init challenge rng).

(** ** Relations between states *)

(** Pointwise relation between two dictionaries: every entry of the first
    has a related entry in the second. *)
Definition dict_rel {K V : Type} `{EqDecision K} (R : V -> V -> Prop)
    (d d' : list (K * V)) : Prop :=
  forall k v, Dict.get k d = Some v ->
    exists v', Dict.get k d' = Some v' /\ R v v'.

(** The updates of a player that touch neither the status, the progress,
    the hints nor the defending flag. *)
Inductive plain_update : Player -> Player -> Prop :=
  | plain_position v p : plain_update p (set_position v p)
  | plain_energy v p : plain_update p (set_energy v p)
  | plain_health v p : plain_update p (set_health v p)
  | plain_shield v p : plain_update p (set_shield v p)
  | plain_ctf_attempts v p : plain_update p (set_ctf_attempts v p)
  | plain_territories v p : plain_update p (set_territories v p)
  | plain_territory_income v p : plain_update p (set_territory_income v p)
  | plain_kills v p : plain_update p (set_kills v p)
  | plain_vision_range v p : plain_update p (set_vision_range v p)
  | plain_visible_hexagons v p : plain_update p (set_visible_hexagons v p)
  | plain_visible_players v p : plain_update p (set_visible_players v p)
  | plain_actions_taken v p : plain_update p (set_actions_taken v p)
  | plain_idle_streak v p : plain_update p (set_idle_streak v p)
  | plain_last_actions v p : plain_update p (set_last_actions v p)
  | plain_since_objective v p : plain_update p (set_since_objective v p)
  | plain_seen_tiles v p : plain_update p (set_seen_tiles v p)
  | plain_alive v p : plain_update p (set_alive v p)
  | plain_bad_moves v p : plain_update p (set_bad_moves v p).

(** [mono Rp Rc g g']: the players and the cells of [g] are still there in
    [g'], related by [Rp] and [Rc]; the hint texts and the player ids are
    the same. *)
Definition mono (Rp : Player -> Player -> Prop) (Rc : Cell -> Cell -> Prop)
    (g g' : Game) : Prop :=
  dict_rel Rp (players g) (players g')
  /\ dict_rel Rc (hexagons g) (hexagons g')
  /\ ctf_hints g' = ctf_hints g
  /\ Dict.keys (players g') = Dict.keys (players g).

(** Relations on one player, or on one cell, before and after. *)
Definition any_player (p p' : Player) : Prop := True.
Definition any_cell (h h' : Cell) : Prop := True.

Definition defending_stays (p p' : Player) : Prop :=
  p_defending p = true -> p_defending p' = true.

Definition bonus_stays (h h' : Cell) : Prop :=
  c_type h' = c_type h
  /\ (c_bonus_consumed h = true -> c_bonus_consumed h' = true).

(** The string stored by a disqualification stays. *)
Definition dq_status_stays (p p' : Player) : Prop :=
  p_status p = StatusStr "eliminated" -> p_status p' = StatusStr "eliminated".

(** Player [q] has been disqualified by [_action_move]; the ids of a
    dictionary of players are distinct. *)
Definition disqualified (q : Z) (g : Game) : Prop :=
  NoDup (Dict.keys (players g))
  /\ exists p, Dict.get q (players g) = Some p
               /\ p_status p = StatusStr "eliminated".

(** Energy, health, shield and maximal energy are the same. *)
Definition vitals_kept (p p' : Player) : Prop :=
  p_energy p' = p_energy p /\ p_health p' = p_health p
  /\ p_shield p' = p_shield p /\ p_max_energy p' = p_max_energy p.

(** *** Hints *)

(** The progress at which the [k]-th hint is unlocked. *)
Definition hint_threshold (k : nat) : option float :=
  match k with
  | 0%nat => Some 25%float
  | 1%nat => Some 50%float
  | 2%nat => Some 75%float
  | _ => None
  end.

Definition hints_kept (p p' : Player) : Prop :=
  p_ctf_hints p' = p_ctf_hints p.

Definition hints_progress_kept (p p' : Player) : Prop :=
  p_ctf_hints p' = p_ctf_hints p /\ p_ctf_progress p' = p_ctf_progress p.

(** What a turn without theft does to the hints of a player, [texts]
    being the hints of the game: the hints held are kept, in place; at
    most three are held; a player that holds the first hints of the game
    still does; and a hint granted in the turn is the one of its rank,
    the progress being at least the threshold of that rank. *)
Definition hints_grow (texts : list string) (p p' : Player) : Prop :=
  p_ctf_hints p `prefix_of` p_ctf_hints p'
  /\ (length (p_ctf_hints p) <= 3 -> length (p_ctf_hints p') <= 3)%nat
  /\ (p_ctf_hints p `prefix_of` texts -> p_ctf_hints p' `prefix_of` texts)
  /\ forall k,
       (length (p_ctf_hints p) <= k < length (p_ctf_hints p'))%nat ->
       exists t, hint_threshold k = Some t
                 /\ PrimFloat.leb t (p_ctf_progress p') = true
                 /\ p_ctf_hints p' !! k = texts !! k.

(** No player of [g] has lost a hint in [g']. *)
Definition hints_monotone (g g' : Game) : Prop :=
  forall q p, Dict.get q (players g) = Some p ->
    exists p', Dict.get q (players g') = Some p'
               /\ p_ctf_hints p `prefix_of` p_ctf_hints p'.

(** Player [q] holds the hints of [p] (resp. hints grown from those of
    [p]), and the hints of the game are [texts]. *)
Definition hints_same (q : Z) (p : Player) (texts : list string) (g : Game)
  : Prop :=
  ctf_hints g = texts
  /\ exists p', Dict.get q (players g) = Some p'
                /\ p_ctf_hints p' = p_ctf_hints p.

Definition hints_grown (q : Z) (p : Player) (texts : list string) (g : Game)
  : Prop :=
  ctf_hints g = texts
  /\ exists p', Dict.get q (players g) = Some p' /\ hints_grow texts p p'.

(** A method keeps a relation between the state before and the state
    after, whether it returns or raises. *)
Definition preserves {A} (R : Game -> Game -> Prop) (m : M A) : Prop :=
  forall g, R g (snd (m g)).

(** Hoare triples; the postcondition also sees the outcome. *)
Definition hoare {A} (P : Game -> Prop) (m : M A)
    (Q : Outcome A -> Game -> Prop) : Prop :=
  forall g, P g -> Q (fst (m g)) (snd (m g)).

(** ** Sequences of calls, and the matches used as examples *)

(** One call of the engine by the code that runs a match. *)
Inductive Call :=
  | call_start_game (now : float)
  | call_execute_turn (env : Env) (pid : Z) (action : ActionType)
      (data : option Data)
  | call_get_game_state (now : float)
  | call_get_alive_players
  | call_set_round_number (n : Z).

(** The state after a call; a call that raises leaves the state as it was
    at the exception. *)
Definition run_call (c : Call) (g : Game) : Game :=
  match c with
  | call_start_game now => snd (start_game now g)
  | call_execute_turn env pid action data =>
      snd (execute_turn env pid action data g)
  | call_get_game_state now => snd (get_game_state now g)
  | call_get_alive_players => snd (get_alive_players g)
  | call_set_round_number n => set_round_number n g
  end.

Definition run_calls (calls : list Call) (g : Game) : Game :=
  fold_left (fun g c => run_call c g) calls g.

(** A board without resource cells. *)
Definition fresh_game : Game :=
  CTFHungerGame_init "Standard CTF Arena" (fun _ => 0.5%float).

(** The judge approves, [random.uniform(5, 15)] gives [7.0] and
    [random.random()] gives [0.25]. *)
Definition calm_env : Env :=
  {| now := 1; judge := JudgeAnswered (Some true) (Some "ok");
     judge_time := 1; uniform_5_15 := 7; random01 := 0.25 |}.

Definition plays (pid : Z) (action : ActionType) : Call :=
  call_execute_turn calm_env pid action None.

Definition moves_to (pid : Z) (target : Coord) : Call :=
  call_execute_turn calm_env pid MOVE (Some (Build_Data (Some target) None None)).

Definition energy_and_status (pid : Z) (g : Game) : option (Z * StatusVal) :=
  (fun p => (p_energy p, p_status p)) <$> Dict.get pid (players g).

Definition owner_of (c : Coord) (g : Game) : option (option Z) :=
  c_owner <$> Dict.get c (hexagons g).

Definition statuses (g : Game) : list StatusVal :=
  map (fun e : Z * Player => p_status e.2) (players g).

(** A board on which every cell but the spawn cells is a resource cell. *)
Definition rich_game : Game :=
  CTFHungerGame_init "Standard CTF Arena" (fun _ => 0.9%float).

(** Two strikes against player 1, which owns its spawn cell. *)
Definition two_strikes : Game :=
  run_calls [plays 1 CLAIM_TERRITORY; moves_to 1 (0, 0); moves_to 1 (0, 0)]
    fresh_game.

(** A fresh game in which player 2 stands next to player 1. *)
Definition duel : Game :=
  set_players (Dict.alter (set_position (1, -4)) 2 (players fresh_game))
    fresh_game.

(** The same, player 2 being wounded and holding the first hint. *)
Definition wounded : Game :=
  set_players
    (Dict.alter
       (fun p => set_ctf_hints ["The flag format is: flag{...}"]
                   (set_ctf_progress 30 (set_health 40 p)))
       2 (players duel))
    duel.

(** The same, player 1 holding the hints a theft of the third hint and
    two unlocks leave: third, second, third. *)
Definition crowded : Game :=
  set_players
    (Dict.alter
       (fun p => set_ctf_hints
                   ["Try common CTF techniques: base64, rot13, XOR";
                    "Look for patterns in the challenge description";
                    "Try common CTF techniques: base64, rot13, XOR"] p)
       1 (players wounded))
    wounded.

(** Player 1 after two attempts at the challenge without a flag. *)
Definition two_attempts : Game :=
  run_calls [plays 1 SOLVE_CTF; plays 1 SOLVE_CTF] fresh_game.

Definition targets (t : Z) : option Data :=
  Some (Build_Data None (Some t) None).

(** The payload of a move of player 1 to the cell next to its spawn. *)
Definition first_move : option Data :=
  Some (Build_Data (Some (1, -4)) None None).

(** The calls of a match in which player 1 plays DEFEND in round 1 and
    player 2 walks next to player 1 and attacks in round 4; a round ends
    with the assignment to [round_number]. *)
Definition defend_match : list Call :=
  [plays 1 DEFEND; moves_to 2 (3, -4); call_set_round_number 1;
   moves_to 2 (2, -4); call_set_round_number 2;
   moves_to 2 (1, -4); call_set_round_number 3;
   call_execute_turn calm_env 2 ATTACK_PLAYER (targets 1);
   call_set_round_number 4].

(** *** The search for the nearest unowned hexagon *)

(** [bfs_path parent start c n]: following [parent] from [c] leads to a
    child of [start] in [n] steps. *)
Inductive bfs_path (parent : list (Coord * option Coord)) (start : Coord)
  : Coord -> nat -> Prop :=
  | bfs_path_child c :
      Dict.get c parent = Some (Some start) -> bfs_path parent start c 0
  | bfs_path_step c pc n :
      Dict.get c parent = Some (Some pc) -> pc <> start ->
      bfs_path parent start pc n -> bfs_path parent start c (S n).

(** A cell is the start, or leads to it in fewer steps than [parent] has
    entries. *)
Definition bfs_rooted (parent : list (Coord * option Coord)) (start c : Coord)
  : Prop :=
  c = start
  \/ exists n, bfs_path parent start c n /\ (n < length parent)%nat.

(** The cells of the board not seen yet, plus the cells in the queue. *)
Definition bfs_measure (hexs : list (Coord * Cell)) (st : Bfs) : nat :=
  let '(seen, parent, queue) := st in
  (length (List.filter (fun c => negb (bool_decide (c ∈ seen))) (Dict.keys hexs))
   + length queue)%nat.

Definition bfs_inv (start : Coord) (st : Bfs) : Prop :=
  let '(seen, parent, queue) := st in
  (forall c, is_Some (Dict.get c parent) -> c ∈ seen)
  /\ Dict.get start parent = Some None
  /\ Forall (bfs_rooted parent start) queue.

(** ** Further definitions: relations between states and example games *)

Definition bfs_edges (hexs : list (Coord * Cell))
    (parent : list (Coord * option Coord)) : Prop :=
  ∀ c pc, Dict.get c parent = Some (Some pc) →
    c ∈ _get_adjacent_hexagons hexs pc.

(** [unowned hexs c]: the test [cur in self.hexagons and
    self.hexagons[cur]['owner'] is None] of the search. *)
Definition unowned (hexs : list (Coord * Cell)) (c : Coord) : bool :=
  match Dict.get c hexs with
  | Some h => bool_decide (c_owner h = None)
  | None => false
  end.

(** Player 1 owns its cell and has 1 energy left. *)
Definition exhausted_owner : Game :=
  run_calls [plays 1 CLAIM_TERRITORY; plays 1 SOLVE_CTF; plays 1 SOLVE_CTF;
             moves_to 1 (0, 0)] fresh_game.

(** A player that is not ALIVE stays so. *)
Definition stays_out (p p' : Player) : Prop :=
  status_is ALIVE (p_status p) = false → status_is ALIVE (p_status p') = false.

(** The counters and the collections of a player only grow. *)
Definition records_grow (p p' : Player) : Prop :=
  p_kills p ≤ p_kills p'
  ∧ p_ctf_attempts p ≤ p_ctf_attempts p'
  ∧ p_actions_taken p ≤ p_actions_taken p'
  ∧ p_territory_income p ≤ p_territory_income p'
  ∧ p_territories p `prefix_of` p_territories p'
  ∧ p_seen_tiles p ⊆ p_seen_tiles p'.

(** The fields no method writes, and the cap on health. *)
Definition stats_fixed (p p' : Player) : Prop :=
  p_id p' = p_id p ∧ p_name p' = p_name p ∧ p_color p' = p_color p
  ∧ p_max_energy p' = p_max_energy p
  ∧ p_attack_power p' = p_attack_power p
  ∧ p_defense_power p' = p_defense_power p
  ∧ (p_health p ≤ 100 → p_health p' ≤ 100).

Definition terrain_fixed (h h' : Cell) : Prop :=
  c_type h' = c_type h ∧ c_defense h' = c_defense h.

(** The calls that play: everything but [start_game] and the assignment
    to [round_number]. *)
Definition playing_call (c : Call) : bool :=
  match c with
  | call_start_game _ | call_set_round_number _ => false
  | _ => true
  end.

(** The status [_declare_winner] leaves to a player. *)
Definition status_after_win (w : Z) (timeout : bool) (q : Z) (p : Player)
  : Player :=
  if bool_decide (q = w) then set_status (StatusEnum WINNER) p
  else if status_is ALIVE (p_status p)
  then set_status (StatusEnum (if timeout then LOST_TIMEOUT else ELIMINATED)) p
  else p.

(** The ids [get_alive_players] returns once [pid] is marked
    ELIMINATED. *)
Definition survivors (pid : Z) (g : Game) : list Z :=
  map fst
    (List.filter (λ e : Z * Player, status_is ALIVE (p_status e.2))
       (Dict.alter (set_status (StatusEnum ELIMINATED)) pid (players g))).

(** Players 3 to 6 are out, player 1 owns its cell: eliminating player 1
    releases the cell and makes player 2 the winner. *)
Definition last_two : Game :=
  set_players
    (map (λ e : Z * Player,
            if bool_decide (2 < e.1)
            then (e.1, set_status (StatusEnum ELIMINATED) e.2) else e)
       (players (run_calls [plays 1 CLAIM_TERRITORY] fresh_game)))
    (run_calls [plays 1 CLAIM_TERRITORY] fresh_game).




(** Player 2 has no health left, player 3 a negative energy and player 4
    exactly 0 energy. *)
Definition depleted : Game :=
  set_players
    (Dict.alter (set_health 0) 2
       (Dict.alter (set_energy (-1)) 3
          (Dict.alter (set_energy 0) 4 (players fresh_game))))
    fresh_game.

(** Player [pid] has an endpoint in the configuration. *)
Definition has_endpoint (participants : list (string * string)) (pid : Z)
  : bool :=
  match player_url participants pid with Some _ => true | None => false end.

(** The game that [Agent.run] creates and starts. *)
Definition started_game (challenge : string) (rng : nat → float) (t0 : float)
  : Game :=
  set_game_over false (set_start_time (Some t0) (CTFHungerGame_init challenge rng)).

(** The number of the thresholds 25, 50, 75 that a progress has reached. *)
Definition thresholds_reached (progress : float) : nat :=
  length (List.filter (λ t, PrimFloat.leb t progress) [25; 50; 75]%float).

(** One of the three blocks of [_action_solve_ctf], on the player. *)
Definition grant (threshold : float) (k : nat) (h : string) (p : Player)
  : Player :=
  if PrimFloat.leb threshold (p_ctf_progress p)
     && bool_decide (length (p_ctf_hints p) = k)
  then set_ctf_hints (p_ctf_hints p ++ [h]) p else p.

(** The cells that [_initialize_board] stores: a fresh NORMAL cell, or,
    away from the spawn positions, a fresh cell of a drawn type. *)
Definition initial_cell (rng : nat → float) (c : Coord) (cell : Cell) : Prop :=
  cell = new_cell NORMAL
  ∨ ((c ∉ spawn_positions)
     ∧ ∃ n, cell = new_cell (_get_random_hex_type (rng n))).
(** ** Hex geometry *)

Section geometry.
Implicit Types a b : Coord.

Lemma hex_sum_even (x y : Z) :
  (Z.abs x + Z.abs y + Z.abs (x + y)) `mod` 2 = 0.
Proof.
  assert (H : ∃ k, Z.abs x + Z.abs y + Z.abs (x + y) = k * 2).
  { destruct (Z_le_gt_dec 0 x), (Z_le_gt_dec 0 y), (Z_le_gt_dec 0 (x + y)).
    all: first [ exists (x + y); lia | exists x; lia | exists y; lia
               | exists (- x); lia | exists (- y); lia
               | exists (- x - y); lia ]. }
  destruct H as [k ->]. apply Z.mod_mul. lia.
Qed.

Lemma hex_distance_unfold a b :
  2 * _hex_distance a b =
  Z.abs (a.1 - b.1) + Z.abs (a.2 - b.2) + Z.abs ((a.1 + a.2) - (b.1 + b.2)).
Proof.
  destruct a as [q1 r1], b as [q2 r2]; simpl.
  set (x := q1 - q2). set (y := r1 - r2).
  replace (q1 + r1 - (q2 + r2)) with (x + y) by (unfold x, y; lia).
  pose proof (hex_sum_even x y) as He.
  pose proof (Z.div_mod (Z.abs x + Z.abs y + Z.abs (x + y)) 2 ltac:(lia)).
  lia.
Qed.

Lemma hex_distance_sym a b : _hex_distance a b = _hex_distance b a.
Proof.
  pose proof (hex_distance_unfold a b). pose proof (hex_distance_unfold b a).
  lia.
Qed.

Lemma hex_distance_zero a b : _hex_distance a b = 0 ↔ a = b.
Proof.
  pose proof (hex_distance_unfold a b) as H.
  destruct a as [q1 r1], b as [q2 r2]. cbn [fst snd] in H. split.
  - intros H0. rewrite H0 in H. f_equal; lia.
  - intros [= -> ->]. lia.
Qed.

Lemma is_adjacent_distance a b :
  _is_adjacent a b = true ↔ _hex_distance a b = 1.
Proof.
  destruct a as [q1 r1], b as [q2 r2]. unfold _is_adjacent, _hex_distance.
  cbv zeta. by rewrite bool_decide_eq_true.
Qed.

(** C8. Hex geometry: for all axial coordinates [a] and [b],
    [_is_adjacent a b] holds exactly when [_hex_distance a b = 1], the
    distance is symmetric, and it is [0] exactly when [a = b]. *)
Theorem hex_geometry_laws a b :
  (_is_adjacent a b = true ↔ _hex_distance a b = 1)
  ∧ _hex_distance a b = _hex_distance b a
  ∧ (_hex_distance a b = 0 ↔ a = b).
Proof.
  split; [apply is_adjacent_distance|].
  split; [apply hex_distance_sym | apply hex_distance_zero].
Qed.
End geometry.

(** ** Dictionaries *)

Section dict_facts.
Context {K V : Type} `{EqDecision K}.
Implicit Types (k : K) (v : V) (d : list (K * V)) (f : V → V).

Lemma dict_get_alter f k k' d :
  Dict.get k (Dict.alter f k' d) =
  if decide (k' = k) then f <$> Dict.get k d else Dict.get k d.
Proof.
  induction d as [|[k0 v0] d IH]; simpl.
  - by destruct (decide (k' = k)).
  - destruct (decide (k' = k0)) as [->|Hne]; simpl.
    + destruct (decide (k = k0)) as [->|?].
      * by rewrite decide_True.
      * by destruct (decide (k0 = k)); [congruence|].
    + destruct (decide (k = k0)) as [->|?].
      * by rewrite decide_False.
      * apply IH.
Qed.

Lemma dict_get_alter_eq f k d :
  Dict.get k (Dict.alter f k d) = f <$> Dict.get k d.
Proof. by rewrite dict_get_alter, decide_True. Qed.

Lemma dict_get_alter_ne f k k' d :
  k' ≠ k → Dict.get k (Dict.alter f k' d) = Dict.get k d.
Proof. intros. by rewrite dict_get_alter, decide_False. Qed.

Lemma dict_keys_alter f k d : Dict.keys (Dict.alter f k d) = Dict.keys d.
Proof.
  unfold Dict.keys. induction d as [|[k0 v0] d IH]; [done|]. simpl.
  destruct (decide (k = k0)); simpl; [done|]. by rewrite IH.
Qed.

Lemma dict_get_Some_keys k v d : Dict.get k d = Some v → k ∈ Dict.keys d.
Proof.
  induction d as [|[k0 v0] d IH]; simpl; [done|].
  destruct (decide (k = k0)) as [->|?]; intros.
  - apply list_elem_of_here.
  - apply list_elem_of_further. by apply IH.
Qed.

Lemma dict_keys_get k d : k ∈ Dict.keys d → is_Some (Dict.get k d).
Proof.
  induction d as [|[k0 v0] d IH]; simpl.
  - by intros ?%elem_of_nil.
  - destruct (decide (k = k0)) as [->|?]; [by eauto|].
    intros [?|?]%elem_of_cons; [done|]. by apply IH.
Qed.

Lemma dict_get_In k v d : Dict.get k d = Some v → (k, v) ∈ d.
Proof.
  induction d as [|[k0 v0] d IH]; simpl; [done|].
  destruct (decide (k = k0)) as [->|?].
  - intros [= ->]. apply list_elem_of_here.
  - intros. apply list_elem_of_further. by apply IH.
Qed.

Lemma dict_In_get k v d :
  NoDup (Dict.keys d) → (k, v) ∈ d → Dict.get k d = Some v.
Proof.
  unfold Dict.keys. induction d as [|[k0 v0] d IH]; simpl.
  - by intros _ ?%elem_of_nil.
  - intros [Hk0 Hnd]%NoDup_cons [[= -> ->]|Hin]%elem_of_cons.
    + by rewrite decide_True.
    + rewrite decide_False; [by apply IH|]. intros ->. apply Hk0.
      apply list_elem_of_fmap. by exists (k0, v).
Qed.

Lemma dict_mem_true k d : Dict.mem k d = true ↔ is_Some (Dict.get k d).
Proof.
  unfold Dict.mem. destruct (Dict.get k d); split; intros H0; eauto.
  - done.
  - by destruct H0.
Qed.

Lemma dict_rel_refl (R : V → V → Prop) d :
  (∀ v, R v v) → dict_rel R d d.
Proof. intros ? k v ?. eauto. Qed.

Lemma dict_rel_trans (R : V → V → Prop) d1 d2 d3 :
  (∀ x y z, R x y → R y z → R x z) →
  dict_rel R d1 d2 → dict_rel R d2 d3 → dict_rel R d1 d3.
Proof.
  intros Ht H12 H23 k v Hk.
  destruct (H12 _ _ Hk) as (v2 & Hk2 & ?).
  destruct (H23 _ _ Hk2) as (v3 & Hk3 & ?). eauto.
Qed.

Lemma dict_rel_alter (R : V → V → Prop) f k d :
  (∀ v, R v v) → (∀ v, Dict.get k d = Some v → R v (f v)) →
  dict_rel R d (Dict.alter f k d).
Proof.
  intros Hr Hf k' v Hk'. rewrite dict_get_alter.
  destruct (decide (k = k')) as [->|?]; rewrite Hk'; simpl; eauto.
Qed.
End dict_facts.

(** ** Running a method *)

Section run.
Context {A B : Type}.
Implicit Types (m : M A) (k : A → M B) (g : Game).

Lemma run_bind m k g :
  (m ≫= k) g =
  match m g with
  | (Return a, g') => k a g'
  | (Raise e, g') => (Raise e, g')
  end.
Proof. done. Qed.

Lemma run_bind_return m k g a g' :
  m g = (Return a, g') → (m ≫= k) g = k a g'.
Proof. intros H. by rewrite run_bind, H. Qed.

Lemma run_bind_raise m k g e g' :
  m g = (Raise e, g') → (m ≫= k) g = (Raise e, g').
Proof. intros H. by rewrite run_bind, H. Qed.
End run.

Lemma run_get_player pid p g :
  Dict.get pid (players g) = Some p → get_player pid g = (Return p, g).
Proof. intros H. unfold get_player, gets. rewrite run_bind. simpl. by rewrite H. Qed.

Lemma run_get_player_None pid g :
  Dict.get pid (players g) = None →
  get_player pid g = (Raise (KeyError (pretty pid)), g).
Proof. intros H. unfold get_player, gets. rewrite run_bind. simpl. by rewrite H. Qed.

Lemma run_upd_player pid f p g :
  Dict.get pid (players g) = Some p →
  upd_player pid f g =
  (Return tt, set_players (Dict.alter f pid (players g)) g).
Proof.
  intros H. unfold upd_player. by rewrite (run_bind_return _ _ _ _ _ (run_get_player _ _ _ H)).
Qed.

Lemma run_get_hex c h g :
  Dict.get c (hexagons g) = Some h → get_hex c g = (Return h, g).
Proof. intros H. unfold get_hex, gets. rewrite run_bind. simpl. by rewrite H. Qed.

Lemma run_upd_hex c f h g :
  Dict.get c (hexagons g) = Some h →
  upd_hex c f g = (Return tt, set_hexagons (Dict.alter f c (hexagons g)) g).
Proof.
  intros H. unfold upd_hex. by rewrite (run_bind_return _ _ _ _ _ (run_get_hex _ _ _ H)).
Qed.

(** ** Symbolic execution *)

Lemma run_bind_assoc {A B C} (m : M A) (k1 : A → M B) (k2 : B → M C) g :
  ((m ≫= k1) ≫= k2) g = (m ≫= (λ a, k1 a ≫= k2)) g.
Proof. rewrite !run_bind. by destruct (m g) as [[a|e] g']. Qed.

Lemma dict_alter_alter {K V} `{EqDecision K} (f f' : V → V) (k : K) d :
  Dict.alter f k (Dict.alter f' k d) = Dict.alter (f ∘ f') k d.
Proof.
  induction d as [|[k0 v0] d IH]; [done|]. simpl.
  destruct (decide (k = k0)) as [->|?]; simpl.
  - by rewrite decide_True.
  - rewrite decide_False by done. by rewrite IH.
Qed.

(** [_update_vision] rewrites the two vision fields of the player. *)
Lemma run_update_vision pid p g :
  Dict.get pid (players g) = Some p →
  ∃ vh vp,
    _update_vision pid g =
    (Return tt,
     set_players
       (Dict.alter (λ p, set_visible_players vp (set_visible_hexagons vh p))
          pid (players g)) g).
Proof.
  intros H. unfold _update_vision.
  rewrite (run_bind_return _ _ _ _ _ (run_get_player _ _ _ H)).
  change ((gets hexagons ≫= ?k) g) with (k (hexagons g) g). cbv beta.
  erewrite (run_bind_return (upd_player _ _)); [|by eapply run_upd_player].
  match goal with |- context [ (gets players ≫= ?k) ?g' ] =>
    change ((gets players ≫= k) g') with (k (players g') g') end.
  cbv beta. erewrite run_upd_player.
  2:{ simpl. rewrite dict_get_alter_eq, H. reflexivity. }
  eexists _, _. unfold set_players. simpl. rewrite dict_alter_alter.
  reflexivity.
Qed.

(** Read a field through the updates made before. *)
Ltac field_simpl :=
  cbn [p_id p_name p_position p_energy p_max_energy p_health p_shield
       p_status p_ctf_progress p_ctf_hints p_ctf_attempts p_territories
       p_territory_income p_attack_power p_defense_power p_kills
       p_defending p_vision_range p_visible_hexagons p_visible_players
       p_actions_taken p_idle_streak p_last_actions p_since_objective
       p_seen_tiles p_color p_alive p_bad_moves set_position set_energy
       set_health set_shield set_status set_ctf_progress set_ctf_hints
       set_ctf_attempts set_territories set_territory_income set_kills
       set_defending set_vision_range set_visible_hexagons
       set_visible_players set_actions_taken set_idle_streak
       set_last_actions set_since_objective set_seen_tiles set_alive
       set_bad_moves c_type c_owner c_defense c_bonus_consumed set_owner
       set_bonus_consumed].

Ltac field_simpl_all :=
  cbn [p_id p_name p_position p_energy p_max_energy p_health p_shield
       p_status p_ctf_progress p_ctf_hints p_ctf_attempts p_territories
       p_territory_income p_attack_power p_defense_power p_kills
       p_defending p_vision_range p_visible_hexagons p_visible_players
       p_actions_taken p_idle_streak p_last_actions p_since_objective
       p_seen_tiles p_color p_alive p_bad_moves set_position set_energy
       set_health set_shield set_status set_ctf_progress set_ctf_hints
       set_ctf_attempts set_territories set_territory_income set_kills
       set_defending set_vision_range set_visible_hexagons
       set_visible_players set_actions_taken set_idle_streak
       set_last_actions set_since_objective set_seen_tiles set_alive
       set_bad_moves c_type c_owner c_defense c_bonus_consumed set_owner
       set_bonus_consumed] in *.

(** Put the state in normal form: one record. *)
Ltac game_simpl :=
  unfold set_players, set_hexagons, set_round_number, set_turn_number,
    set_start_time, set_game_over, set_winner, set_action_history,
    set_validation_count, set_validation_history;
  cbn [players hexagons ctf_hints game_over winner round_number turn_number
       start_time action_history validation_count validation_history
       correct_flag max_time max_rounds board_radius ctf_challenge fst snd].

(** Solve [Dict.get k d = Some ?v] for a dictionary built by updates. *)
Ltac lookup :=
  game_simpl;
  repeat first
    [ rewrite dict_get_alter_eq
    | rewrite dict_get_alter_ne by (done || congruence) ];
  first [ eassumption
        | match goal with
          | H : Dict.get _ _ = Some _ |- _ => rewrite H; reflexivity
          end ].

(** Run the first primitive of the method under execution. *)
Ltac run_step :=
  lazymatch goal with
  | |- context [ ((?m ≫= ?k1) ≫= ?k2) ?g ] =>
      rewrite (run_bind_assoc m k1 k2 g)
  | |- context [ (get_player ?pid ≫= ?k) ?g ] =>
      erewrite (run_bind_return (get_player pid) k g);
      [| eapply run_get_player; lookup ]
  | |- context [ (upd_player ?pid ?f ≫= ?k) ?g ] =>
      erewrite (run_bind_return (upd_player pid f) k g);
      [| eapply run_upd_player; lookup ]
  | |- context [ (get_hex ?c ≫= ?k) ?g ] =>
      erewrite (run_bind_return (get_hex c) k g);
      [| eapply run_get_hex; lookup ]
  | |- context [ (upd_hex ?c ?f ≫= ?k) ?g ] =>
      erewrite (run_bind_return (upd_hex c f) k g);
      [| eapply run_upd_hex; lookup ]
  | |- context [ (_update_vision ?pid ≫= ?k) ?g ] =>
      let H := fresh in
      let Hl := fresh in
      let vh := fresh "vh" in
      let vp := fresh "vp" in
      eassert (Hl : Dict.get pid (players g) = Some _) by lookup;
      destruct (run_update_vision pid _ g Hl) as (vh & vp & H); clear Hl;
      rewrite (run_bind_return _ k g _ _ H); clear H
  | |- context [ (gets ?f ≫= ?k) ?g ] =>
      change ((gets f ≫= k) g) with (k (f g) g); cbv beta
  | |- context [ (modify ?f ≫= ?k) ?g ] =>
      change ((modify f ≫= k) g) with (k tt (f g)); cbv beta
  | |- context [ (mret ?a ≫= ?k) ?g ] =>
      change ((mret a ≫= k) g) with (k a g); cbv beta
  | |- context [ upd_player ?pid ?f ?g ] =>
      erewrite (run_upd_player pid f _ g); [| lookup ]
  | |- context [ upd_hex ?c ?f ?g ] =>
      erewrite (run_upd_hex c f _ g); [| lookup ]
  | |- context [ get_player ?pid ?g ] =>
      erewrite (run_get_player pid _ g); [| lookup ]
  end; game_simpl; field_simpl.

(** ** Methods that keep a preorder on states *)

Section preserves.
Context (R : Game → Game → Prop) `{!PreOrder R}.

Lemma preserves_ret {A} (a : A) : preserves R (mret a).
Proof. intros g. simpl. reflexivity. Qed.

Lemma preserves_raise {A} e : preserves R (@raise A e).
Proof. intros g. simpl. reflexivity. Qed.

Lemma preserves_gets {A} (f : Game → A) : preserves R (gets f).
Proof. intros g. simpl. reflexivity. Qed.

Lemma preserves_bind {A B} (m : M A) (k : A → M B) :
  preserves R m → (∀ a, preserves R (k a)) → preserves R (m ≫= k).
Proof.
  intros Hm Hk g. rewrite run_bind. specialize (Hm g).
  destruct (m g) as [[a|e] g']; simpl in *; [|done].
  etrans; [exact Hm|apply Hk].
Qed.

Lemma preserves_modify (f : Game → Game) :
  (∀ g, R g (f g)) → preserves R (modify f).
Proof. intros H g. apply H. Qed.

Lemma preserves_when b (m : M unit) : preserves R m → preserves R (when b m).
Proof. destruct b; [done|]. intros _. apply preserves_ret. Qed.

Lemma preserves_for_each {A} (l : list A) (body : A → M unit) :
  (∀ x, preserves R (body x)) → preserves R (for_each l body).
Proof.
  intros H. induction l as [|x l IH]; simpl.
  - apply preserves_ret.
  - apply preserves_bind; [apply H|]. by intros _.
Qed.

Lemma preserves_map_M {A B} (f : A → M B) (l : list A) :
  (∀ x, preserves R (f x)) → preserves R (map_M f l).
Proof.
  intros H. induction l as [|x l IH]; simpl.
  - apply preserves_ret.
  - apply preserves_bind; [apply H|]. intros y.
    apply preserves_bind; [apply IH|]. intros ys. apply preserves_ret.
Qed.

End preserves.

(** ** The engine keeps pointwise preorders

    [Rp] relates a player before and after, [Rc] a cell before and after.
    Each lemma of the section uses only the stability hypotheses of the
    updates its method performs. *)

Section monotone.
Context (Rp : Player → Player → Prop) (Rc : Cell → Cell → Prop).
Context `{!PreOrder Rp, !PreOrder Rc}.

#[local] Abbreviation R := (mono Rp Rc).

#[global] Instance mono_preorder : PreOrder R.
Proof.
  split.
  - intros g. split_and!; [apply dict_rel_refl|apply dict_rel_refl|..]; done.
  - intros g1 g2 g3 (Hp1 & Hc1 & Hh1 & Hk1) (Hp2 & Hc2 & Hh2 & Hk2).
    split_and!.
    + eapply dict_rel_trans; [|done..]. intros ???; apply transitivity.
    + eapply dict_rel_trans; [|done..]. intros ???; apply transitivity.
    + congruence.
    + congruence.
Qed.

Lemma mono_same g g' :
  players g' = players g → hexagons g' = hexagons g →
  ctf_hints g' = ctf_hints g → R g g'.
Proof.
  intros Hp Hc Hh.
  split_and!; [rewrite Hp|rewrite Hc|done|by rewrite Hp];
    by apply dict_rel_refl.
Qed.

Lemma preserves_get_player pid : preserves R (get_player pid).
Proof.
  intros g. unfold get_player, gets. rewrite run_bind. simpl.
  destruct (Dict.get pid (players g)); simpl; reflexivity.
Qed.

Lemma preserves_upd_player pid f :
  (∀ p, Rp p (f p)) → preserves R (upd_player pid f).
Proof.
  intros Hf g. destruct (Dict.get pid (players g)) as [p|] eqn:Hp.
  - rewrite (run_upd_player _ _ _ _ Hp). simpl. split_and!; simpl.
    + apply dict_rel_alter; [intros; reflexivity|by intros].
    + by apply dict_rel_refl.
    + done.
    + apply dict_keys_alter.
  - unfold upd_player. rewrite (run_bind_raise _ _ _ _ _ (run_get_player_None _ _ Hp)).
    simpl. reflexivity.
Qed.

Lemma preserves_get_hex c : preserves R (get_hex c).
Proof.
  intros g. unfold get_hex, gets. rewrite run_bind. simpl.
  destruct (Dict.get c (hexagons g)); simpl; reflexivity.
Qed.

Lemma preserves_upd_hex c f :
  (∀ h, Rc h (f h)) → preserves R (upd_hex c f).
Proof.
  intros Hf g. destruct (Dict.get c (hexagons g)) as [h|] eqn:Hh.
  - rewrite (run_upd_hex _ _ _ _ Hh). simpl. split_and!; simpl.
    + by apply dict_rel_refl.
    + apply dict_rel_alter; [intros; reflexivity|by intros].
    + done.
    + done.
  - unfold upd_hex, get_hex, gets. rewrite !run_bind. simpl. rewrite Hh.
    simpl. reflexivity.
Qed.

Lemma preserves_modify_frame (f : Game → Game) :
  (∀ g, players (f g) = players g) →
  (∀ g, hexagons (f g) = hexagons g) →
  (∀ g, ctf_hints (f g) = ctf_hints g) →
  preserves R (modify f).
Proof. intros ??? g. simpl. by apply mono_same. Qed.
End monotone.

(** One step of a proof that a method keeps a relation. *)
Ltac preserves_step :=
  lazymatch goal with
  | |- PreOrder _ => apply _
  | |- preserves _ (mret _) => apply preserves_ret
  | |- preserves _ (raise _) => apply preserves_raise
  | |- preserves _ (gets _) => apply preserves_gets
  | |- preserves _ (_ ≫= _) => apply preserves_bind; [..|intros ?]
  | |- preserves _ (when _ _) => apply preserves_when
  | |- preserves _ (for_each _ _) => apply preserves_for_each; [..|intros ?]
  | |- preserves _ (map_M _ _) => apply preserves_map_M; [..|intros ?]
  | |- preserves _ (get_player _) => apply preserves_get_player
  | |- preserves _ (get_hex _) => apply preserves_get_hex
  | |- preserves _ (upd_player _ _) => apply preserves_upd_player; [..|intros ?]
  | |- preserves _ (upd_hex _ _) => apply preserves_upd_hex; [..|intros ?]
  | |- preserves _ (modify _) =>
      apply preserves_modify_frame; [..|intros ?; reflexivity]
  | |- preserves _ (if ?b then _ else _) => destruct b
  | |- preserves _ (match ?x with _ => _ end) => destruct x
  end.

Ltac preserves_auto := repeat (first [ preserves_step | solve [eauto] ]).

Section engine_monotone.
Context (Rp : Player → Player → Prop) (Rc : Cell → Cell → Prop).
Context `{!PreOrder Rp, !PreOrder Rc}.

#[local] Abbreviation R := (mono Rp Rc).

Create HintDb keeps discriminated.

Hypothesis Rp_plain : ∀ p p', plain_update p p' → Rp p p'.
Hypothesis Rp_progress : ∀ v p, Rp p (set_ctf_progress v p).
Hypothesis Rp_defend : ∀ p, Rp p (set_defending true p).
Hypothesis Rp_disqualify :
  ∀ p, Rp p (set_status (StatusStr (PlayerStatus_value ELIMINATED)) p).
Hypothesis Rp_status : ∀ s p, Rp p (set_status (StatusEnum s) p).
Hypothesis Rp_hint_push :
  ∀ h p, Rp p (set_ctf_hints (p_ctf_hints p ++ [h]) p).
Hypothesis Rp_hint_pop :
  ∀ p, Rp p (set_ctf_hints (removelast (p_ctf_hints p)) p).
Hypothesis Rc_owner : ∀ v h, Rc h (set_owner v h).
Hypothesis Rc_consumed : ∀ h, Rc h (set_bonus_consumed true h).

#[local] Ltac update :=
  cbv beta; unfold track_action;
  first [ apply Rp_plain; constructor | apply Rp_progress | apply Rp_defend
        | apply Rp_disqualify | apply Rp_status | apply Rp_hint_push
        | apply Rp_hint_pop | apply Rc_owner | apply Rc_consumed ].

#[local] Ltac go :=
  repeat (first [ preserves_step | solve [eauto with keeps] | update ]).

Lemma update_vision_keeps pid : preserves R (_update_vision pid).
Proof. unfold _update_vision. go. Qed.
#[local] Hint Resolve update_vision_keeps : keeps.

Lemma apply_storm_keeps : preserves R _apply_storm.
Proof. unfold _apply_storm. go. Qed.
#[local] Hint Resolve apply_storm_keeps : keeps.

Lemma apply_idle_tax_keeps pid b : preserves R (_apply_idle_tax pid b).
Proof. unfold _apply_idle_tax. go. Qed.
#[local] Hint Resolve apply_idle_tax_keeps : keeps.

Lemma get_alive_players_keeps : preserves R get_alive_players.
Proof. unfold get_alive_players. go. Qed.
#[local] Hint Resolve get_alive_players_keeps : keeps.

Lemma declare_winner_keeps pid timeout : preserves R (_declare_winner pid timeout).
Proof. unfold _declare_winner. go. Qed.
#[local] Hint Resolve declare_winner_keeps : keeps.

Lemma eliminate_player_keeps pid reason :
  preserves R (eliminate_player pid reason).
Proof.
  unfold eliminate_player. go.
Qed.
#[local] Hint Resolve eliminate_player_keeps : keeps.

Lemma timeout_elimination_keeps pid : preserves R (timeout_elimination pid).
Proof.
  unfold timeout_elimination. go.
Qed.
#[local] Hint Resolve timeout_elimination_keeps : keeps.

Lemma check_eliminations_keeps : preserves R _check_eliminations.
Proof.
  unfold _check_eliminations. go.
Qed.
#[local] Hint Resolve check_eliminations_keeps : keeps.

Lemma find_nearest_keeps pid :
  preserves R (_find_nearest_unowned_for_player pid).
Proof. unfold _find_nearest_unowned_for_player. go. Qed.
#[local] Hint Resolve find_nearest_keeps : keeps.

Lemma bad_move_keeps pid e err : preserves R (bad_move pid e err).
Proof. unfold bad_move. go. Qed.
#[local] Hint Resolve bad_move_keeps : keeps.

Lemma action_move_keeps pid data : preserves R (_action_move pid data).
Proof.
  unfold _action_move. go.
Qed.
#[local] Hint Resolve action_move_keeps : keeps.

Lemma auto_move_keeps pid reason original otherwise :
  preserves R otherwise →
  preserves R (auto_move pid reason original otherwise).
Proof.
  intros. unfold auto_move. go.
Qed.
#[local] Hint Resolve auto_move_keeps : keeps.

Lemma action_attack_keeps pid data :
  preserves R (_action_attack_player pid data).
Proof.
  unfold _action_attack_player. go.
Qed.
#[local] Hint Resolve action_attack_keeps : keeps.

Lemma validate_flag_keeps pid f : preserves R (validate_flag pid f).
Proof. unfold validate_flag. go. Qed.
#[local] Hint Resolve validate_flag_keeps : keeps.

Lemma unlock_hint_keeps pid t k : preserves R (unlock_hint pid t k).
Proof. unfold unlock_hint. go. Qed.
#[local] Hint Resolve unlock_hint_keeps : keeps.

Lemma action_solve_keeps env pid data :
  preserves R (_action_solve_ctf env pid data).
Proof.
  unfold _action_solve_ctf. go.
Qed.
#[local] Hint Resolve action_solve_keeps : keeps.

Lemma action_claim_keeps pid data :
  preserves R (_action_claim_territory pid data).
Proof.
  unfold _action_claim_territory. repeat (go; try apply auto_move_keeps).
Qed.
#[local] Hint Resolve action_claim_keeps : keeps.

Lemma rest_recover_keeps pid : preserves R (rest_recover pid).
Proof. unfold rest_recover. go. Qed.
#[local] Hint Resolve rest_recover_keeps : keeps.

Lemma action_rest_keeps pid data : preserves R (_action_rest pid data).
Proof.
  unfold _action_rest. repeat (go; try apply auto_move_keeps).
Qed.
#[local] Hint Resolve action_rest_keeps : keeps.

Lemma scout_area_keeps pid pos nbs : preserves R (scout_area pid pos nbs).
Proof.
  unfold scout_area. go.
Qed.
#[local] Hint Resolve scout_area_keeps : keeps.

Lemma action_scout_keeps pid data : preserves R (_action_scout pid data).
Proof.
  unfold _action_scout. repeat (go; try apply auto_move_keeps).
Qed.
#[local] Hint Resolve action_scout_keeps : keeps.

Lemma action_defend_keeps pid data : preserves R (_action_defend pid data).
Proof. unfold _action_defend. go. Qed.
#[local] Hint Resolve action_defend_keeps : keeps.

Lemma action_steal_keeps env pid data :
  preserves R (_action_steal_progress env pid data).
Proof.
  unfold _action_steal_progress. go.
Qed.
#[local] Hint Resolve action_steal_keeps : keeps.

Lemma read_alive_keeps p : preserves R (read_alive p).
Proof. unfold read_alive. go. Qed.
#[local] Hint Resolve read_alive_keeps : keeps.

Lemma validate_action_keeps env pid action data :
  preserves R (validate_action env pid action data).
Proof. unfold validate_action. go. Qed.
#[local] Hint Resolve validate_action_keeps : keeps.

Lemma start_game_keeps now : preserves R (start_game now).
Proof. unfold start_game. go. Qed.

Lemma rank_on_timeout_keeps : preserves R _rank_on_timeout.
Proof. unfold _rank_on_timeout. go. Qed.

Lemma status_value_keeps st : preserves R (status_value st).
Proof. unfold status_value. go. Qed.
#[local] Hint Resolve status_value_keeps : keeps.

Lemma player_state_keeps e : preserves R (player_state e).
Proof. unfold player_state. go. Qed.
#[local] Hint Resolve player_state_keeps : keeps.

Lemma get_game_state_keeps now : preserves R (get_game_state now).
Proof. unfold get_game_state. go. Qed.
#[local] Hint Resolve get_game_state_keeps : keeps.

(** Resolution keeps the relation as soon as the action itself does. *)
Lemma execute_action_keeps env pid action data :
  preserves R (action_func env action pid data) →
  preserves R (_execute_action env pid action data).
Proof. intros. unfold _execute_action. go. Qed.

Lemma execute_turn_keeps env pid action data :
  preserves R (action_func env action pid data) →
  preserves R (execute_turn env pid action data).
Proof.
  intros. pose proof (execute_action_keeps _ _ _ _ H).
  unfold execute_turn. go.
Qed.

(** Every action but [STEAL_PROGRESS] and [SOLVE_CTF]. *)
Lemma action_func_keeps_plain env action pid data :
  action ≠ STEAL_PROGRESS → action ≠ SOLVE_CTF →
  preserves R (action_func env action pid data).
Proof. intros. destruct action; simpl; try done; eauto with keeps. Qed.

(** Every action but [STEAL_PROGRESS]. *)
Lemma action_func_keeps_no_steal env action pid data :
  action ≠ STEAL_PROGRESS →
  preserves R (action_func env action pid data).
Proof. intros. destruct action; simpl; try done; eauto with keeps. Qed.

Lemma action_func_keeps env action pid data :
  preserves R (action_func env action pid data).
Proof. destruct action; simpl; eauto with keeps. Qed.

Lemma execute_turn_keeps_all env pid action data :
  preserves R (execute_turn env pid action data).
Proof. apply execute_turn_keeps, action_func_keeps. Qed.
#[local] Hint Resolve execute_turn_keeps_all : keeps.

Lemma run_call_keeps c g : R g (run_call c g).
Proof.
  destruct c; simpl.
  - apply start_game_keeps.
  - apply execute_turn_keeps_all.
  - apply get_game_state_keeps.
  - apply get_alive_players_keeps.
  - by apply mono_same.
Qed.

Lemma run_calls_keeps calls g : R g (run_calls calls g).
Proof.
  revert g. induction calls as [|c calls IH]; intros g; simpl.
  - reflexivity.
  - etrans; [apply run_call_keeps|apply IH].
Qed.
End engine_monotone.

(** ** Instances of the relations *)

#[global] Instance any_player_preorder : PreOrder any_player.
Proof. by split. Qed.

#[global] Instance any_cell_preorder : PreOrder any_cell.
Proof. by split. Qed.

#[global] Instance defending_stays_preorder : PreOrder defending_stays.
Proof. split; unfold defending_stays; [intros ?|intros ???]; auto. Qed.

#[global] Instance bonus_stays_preorder : PreOrder bonus_stays.
Proof.
  split; unfold bonus_stays; [intros ?|intros ??? [? ?] [? ?]]; split;
    auto; congruence.
Qed.

(** The stability conditions of a relation that looks at no field an
    update changes. *)
Ltac stable :=
  solve [ intros; try match goal with H : plain_update _ _ |- _ => destruct H end;
          hnf; unfold track_action; cbn; intuition (auto; congruence) ].

(** The defending flag is set by DEFEND and cleared by nothing. *)
Lemma defending_persists calls g pid p :
  Dict.get pid (players g) = Some p → p_defending p = true →
  (p_defending <$> Dict.get pid (players (run_calls calls g))) = Some true.
Proof.
  intros Hp Hd.
  destruct (run_calls_keeps defending_stays any_cell
              ltac:(stable) ltac:(stable) ltac:(stable) ltac:(stable)
              ltac:(stable) ltac:(stable) ltac:(stable) ltac:(stable)
              ltac:(stable) calls g) as (Hps & _).
  destruct (Hps _ _ Hp) as (p' & -> & Hp'). simpl. f_equal. by apply Hp'.
Qed.

(** A consumed bonus stays consumed, and the type of a cell is fixed. *)
Lemma bonus_consumed_persists calls g c h :
  Dict.get c (hexagons g) = Some h →
  ∃ h', Dict.get c (hexagons (run_calls calls g)) = Some h'
        ∧ c_type h' = c_type h
        ∧ (c_bonus_consumed h = true → c_bonus_consumed h' = true).
Proof.
  intros Hc.
  destruct (run_calls_keeps any_player bonus_stays
              ltac:(stable) ltac:(stable) ltac:(stable) ltac:(stable)
              ltac:(stable) ltac:(stable) ltac:(stable) ltac:(stable)
              ltac:(stable) calls g) as (_ & Hcs & _).
  destruct (Hcs _ _ Hc) as (h' & ? & ? & ?). eauto.
Qed.

(** ** Hoare rules *)

Section hoare_rules.
Context {A : Type}.
Implicit Types (P : Game → Prop) (Q : Outcome A → Game → Prop) (m : M A).

Lemma hoare_conseq P P' Q Q' m :
  (∀ s, P' s → P s) → (∀ o s, Q o s → Q' o s) →
  hoare P m Q → hoare P' m Q'.
Proof. intros HP HQ H s Hs. apply HQ, H, HP, Hs. Qed.

Lemma hoare_ret (a : A) P Q :
  (∀ s, P s → Q (Return a) s) → hoare P (mret a) Q.
Proof. intros H s Hs. by apply H. Qed.

Lemma hoare_raise e P Q :
  (∀ s, P s → Q (Raise e) s) → hoare P (raise e) Q.
Proof. intros H s Hs. by apply H. Qed.

(** A fact that does not mention the state can be taken out of the
    precondition. *)
Lemma hoare_pure (φ : Prop) P Q m :
  (∀ s, P s → φ) → (φ → hoare P m Q) → hoare P m Q.
Proof. intros Hφ H s Hs. apply H; eauto. Qed.

Lemma hoare_bind {B} (R : Outcome B → Game → Prop) P Q (mb : M B) (k : B → M A) :
  hoare P mb R →
  (∀ b, hoare (R (Return b)) (k b) Q) →
  (∀ e s, R (Raise e) s → Q (Raise e) s) →
  hoare P (mb ≫= k) Q.
Proof.
  intros Hm Hk He s Hs. rewrite run_bind. specialize (Hm s Hs).
  destruct (mb s) as [[b|e] s']; simpl in *; [by apply Hk|by apply He].
Qed.

Lemma hoare_of_preserves (R : Game → Game → Prop) (I : Game → Prop) m :
  (∀ s s', I s → R s s' → I s') → preserves R m → hoare I m (λ _, I).
Proof. intros Hc Hm s Hs. eapply Hc; [exact Hs|apply Hm]. Qed.
End hoare_rules.

Lemma hoare_gets {A} (f : Game → A) P Q :
  (∀ s, P s → Q (Return (f s)) s) → hoare P (gets f) Q.
Proof. intros H s Hs. by apply H. Qed.

Lemma hoare_modify (f : Game → Game) P Q :
  (∀ s, P s → Q (Return tt) (f s)) → hoare P (modify f) Q.
Proof. intros H s Hs. by apply H. Qed.

Lemma hoare_get_player pid P Q :
  (∀ s p, P s → Dict.get pid (players s) = Some p → Q (Return p) s) →
  (∀ s e, P s → Q (Raise e) s) →
  hoare P (get_player pid) Q.
Proof.
  intros Hr He s Hs. destruct (Dict.get pid (players s)) as [p|] eqn:Hp.
  - rewrite (run_get_player _ _ _ Hp). by apply Hr.
  - rewrite (run_get_player_None _ _ Hp). by apply He.
Qed.

Lemma hoare_upd_player pid f P Q :
  (∀ s p, P s → Dict.get pid (players s) = Some p →
     Q (Return tt) (set_players (Dict.alter f pid (players s)) s)) →
  (∀ s e, P s → Q (Raise e) s) →
  hoare P (upd_player pid f) Q.
Proof.
  intros Hr He s Hs. destruct (Dict.get pid (players s)) as [p|] eqn:Hp.
  - rewrite (run_upd_player _ _ _ _ Hp). by eapply Hr.
  - unfold upd_player.
    rewrite (run_bind_raise _ _ _ _ _ (run_get_player_None _ _ Hp)).
    by apply He.
Qed.

(** An invariant: it holds after the method, returned or raised. *)
Section invariant.
Context (I : Game → Prop).

Lemma inv_bind {A B} (m : M A) (k : A → M B) :
  hoare I m (λ _, I) → (∀ a, hoare I (k a) (λ _, I)) →
  hoare I (m ≫= k) (λ _, I).
Proof. intros. by eapply hoare_bind. Qed.

Lemma inv_ret {A} (a : A) : hoare I (mret a) (λ _, I).
Proof. by apply hoare_ret. Qed.

Lemma inv_raise {A} e : hoare I (@raise A e) (λ _, I).
Proof. by apply hoare_raise. Qed.

Lemma inv_gets {A} (f : Game → A) : hoare I (gets f) (λ _, I).
Proof. by apply hoare_gets. Qed.

Lemma inv_when b (m : M unit) :
  hoare I m (λ _, I) → hoare I (when b m) (λ _, I).
Proof. destruct b; [done|]. intros _. apply inv_ret. Qed.

Lemma inv_for_each {A} (l : list A) (body : A → M unit) :
  (∀ x, hoare I (body x) (λ _, I)) → hoare I (for_each l body) (λ _, I).
Proof.
  intros H. induction l as [|x l IH]; simpl; [apply inv_ret|].
  apply inv_bind; [apply H|by intros _].
Qed.

Lemma inv_get_player pid : hoare I (get_player pid) (λ _, I).
Proof. by apply hoare_get_player. Qed.

(** Reading a player tells what the state holds for it. *)
Lemma inv_get_player_fact pid :
  hoare I (get_player pid)
    (λ o s, I s ∧ ∀ p, o = Return p → Dict.get pid (players s) = Some p).
Proof.
  apply hoare_get_player.
  - intros s p ? Hp. split; [done|]. by intros ? [= <-].
  - intros s e ?. split; [done|]. by intros ? [=].
Qed.

Lemma inv_bind_get_player {B} pid (k : Player → M B) :
  (∀ p, hoare (λ s, I s ∧ Dict.get pid (players s) = Some p) (k p) (λ _, I)) →
  hoare I (get_player pid ≫= k) (λ _, I).
Proof.
  intros Hk. eapply hoare_bind; [apply inv_get_player_fact| |].
  - intros p. eapply hoare_conseq; [| |apply (Hk p)]; [|done].
    intros s [? Hp]. split; [done|]. by apply Hp.
  - by intros e s [? _].
Qed.
End invariant.

(** One step of a proof that a method keeps an invariant. *)
Ltac inv_step :=
  lazymatch goal with
  | |- hoare _ (mret _) _ => apply inv_ret
  | |- hoare _ (raise _) _ => apply inv_raise
  | |- hoare _ (gets _) _ => apply inv_gets
  | |- hoare _ (_ ≫= _) _ => apply inv_bind; [|intros ?]
  | |- hoare _ (when _ _) _ => apply inv_when
  | |- hoare _ (for_each _ _) _ => apply inv_for_each; intros ?
  | |- hoare _ (get_player _) _ => apply inv_get_player
  | |- hoare _ (if ?b then _ else _) _ => destruct b eqn:?
  | |- hoare _ (match ?x with _ => _ end) _ => destruct x eqn:?
  end.

(** ** Energy depletion *)

(** C1. The energy invariant fails on the code.  Player 1 of a fresh game
    plays DEFEND, DEFEND, DEFEND, SOLVE_CTF and is left with 2 energy; a
    further DEFEND brings the energy to exactly 0, and the resolution
    raises [KeyError('alive')] instead of eliminating the player, who is
    still ALIVE.  With six DEFEND in a row the idle tax brings the energy
    to -1 after the clamp: the player is eliminated with a negative
    energy. *)
Theorem energy_depletion_faults :
  let g := run_calls (plays 1 <$> [DEFEND; DEFEND; DEFEND; SOLVE_CTF]) fresh_game in
  let r := execute_turn calm_env 1 DEFEND None g in
  energy_and_status 1 g = Some (2, StatusEnum ALIVE)
  ∧ fst r = Raise (KeyError "alive")
  ∧ energy_and_status 1 (snd r) = Some (0, StatusEnum ALIVE)
  ∧ energy_and_status 1 (run_calls (plays 1 <$> replicate 6 DEFEND) fresh_game)
    = Some (-1, StatusEnum ELIMINATED).
Proof. vm_compute. repeat split; reflexivity. Qed.

(** C2. The engine can raise: the third SOLVE_CTF attempt of player 1 of a
    fresh game spends the last 5 energy, and the post-action check reads
    the key ['alive'], which the player dictionary does not have. *)
Theorem post_action_check_faults :
  let g := run_calls (plays 1 <$> [SOLVE_CTF; SOLVE_CTF]) fresh_game in
  let r := execute_turn calm_env 1 SOLVE_CTF None g in
  energy_and_status 1 g = Some (5, StatusEnum ALIVE)
  ∧ (p_alive <$> Dict.get 1 (players g)) = Some None
  ∧ fst r = Raise (KeyError "alive").
Proof. vm_compute. repeat split; reflexivity. Qed.

(** ** Timeout *)

(** [_rank_on_timeout] only reads the state. *)
Lemma map_M_scores_pure l g :
  snd (map_M (λ pid, p ← get_player pid; mret (pid, score_player p)) l g) = g.
Proof.
  induction l as [|pid l IH]; [done|]. simpl. rewrite run_bind.
  destruct (Dict.get pid (players g)) as [p|] eqn:Hp.
  - rewrite (run_bind_return _ _ _ _ _ (run_get_player _ _ _ Hp)).
    cbn [mret M_ret]. rewrite run_bind.
    destruct (map_M _ l g) as [[ys|e] g'] eqn:E; simpl in *; by subst.
  - by rewrite (run_bind_raise _ _ _ _ _ (run_get_player_None _ _ Hp)).
Qed.

Lemma rank_on_timeout_pure g : snd (_rank_on_timeout g) = g.
Proof.
  unfold _rank_on_timeout, get_alive_players. do 3 run_step. rewrite run_bind.
  pose proof (map_M_scores_pure
    (map fst (List.filter (λ e : Z * Player, status_is ALIVE (p_status e.2))
                (players g))) g) as H.
  destruct (map_M _ _ g) as [[[|s0 rest]|e] g']; simpl in *; by subst.
Qed.

(** ** Elimination *)

(** A player whose status is not [PlayerStatus.ALIVE] gets no turn. *)
Lemma inactive_player_rejected env pid action data g p :
  game_over g = false →
  Dict.get pid (players g) = Some p →
  status_is ALIVE (p_status p) = false →
  execute_turn env pid action data g
  = (Return [("error", VStr "Player is not active")], g).
Proof.
  intros Hover Hp Ha. unfold execute_turn. run_step. unfold id.
  by rewrite Hover, Hp, Ha.
Qed.

(** C4. The disqualification path releases nothing.  Player 1 of a fresh
    game claims its cell and then asks three times for a move to a cell
    that is not adjacent: its status becomes the string "eliminated", and
    it still owns the cell.  [eliminate_player], which every other
    elimination goes through, clears the owner. *)
Theorem disqualification_keeps_territory :
  let claimed := run_calls [plays 1 CLAIM_TERRITORY] fresh_game in
  let g := run_calls (replicate 3 (moves_to 1 (0, 0))) claimed in
  owner_of (0, -4) claimed = Some (Some 1)
  ∧ energy_and_status 1 g = Some (7, StatusStr "eliminated")
  ∧ (p_territories <$> Dict.get 1 (players g)) = Some [(0, -4)]
  ∧ owner_of (0, -4) g = Some (Some 1)
  ∧ owner_of (0, -4) (snd (eliminate_player 1 "combat" claimed)) = Some None.
Proof. vm_compute. repeat split; reflexivity. Qed.

(** ** Disqualification *)

Lemma bad_move_third_strike g pid p energy_before err :
  Dict.get pid (players g) = Some p → 2 ≤ bad_moves_of p →
  ∃ r g' p',
    bad_move pid energy_before err g = (Return r, g')
    ∧ hexagons g' = hexagons g
    ∧ Dict.get pid (players g') = Some p'
    ∧ p_status p' = StatusStr "eliminated"
    ∧ p_alive p' = Some false
    ∧ p_territories p' = p_territories p.
Proof.
  intros Hp Hs. eexists _, _, _. split.
  - unfold bad_move. do 4 run_step.
    unfold bad_moves_of at 1. cbn [p_bad_moves set_energy set_bad_moves default].
    rewrite bool_decide_true by (unfold bad_moves_of in *; cbn; lia).
    repeat run_step. reflexivity.
  - game_simpl. split; [done|]. rewrite !dict_get_alter_eq, Hp. cbn. eauto.
Qed.

Lemma player_states_raise l g e s :
  e ∈ l → p_status e.2 = StatusStr s →
  map_M player_state l g =
  (Raise (AttributeError "'str' object has no attribute 'value'"), g).
Proof.
  intros Hin Hs. induction l as [|x l IH]; [by apply elem_of_nil in Hin|].
  simpl. rewrite run_bind. unfold player_state at 1. rewrite run_bind.
  destruct (p_status x.2) as [st|st] eqn:Hx; simpl.
  - apply elem_of_cons in Hin as [->|Hin]; [congruence|].
    rewrite run_bind, (IH Hin). done.
  - done.
Qed.

(** [get_game_state] raises as soon as one status is a string. *)
Lemma get_game_state_raises now g pid p s :
  Dict.get pid (players g) = Some p → p_status p = StatusStr s →
  fst (get_game_state now g)
  = Raise (AttributeError "'str' object has no attribute 'value'").
Proof.
  intros Hp Hs. unfold get_game_state. run_step. rewrite run_bind.
  rewrite (player_states_raise _ _ (pid, p) s); [done| |exact Hs].
  by apply dict_get_In in Hp.
Qed.

Lemma illegal_move_third_strike g pid p target data :
  Dict.get pid (players g) = Some p →
  data_field d_target data = Some target →
  _is_adjacent (p_position p) target = false
  ∨ Dict.mem target (hexagons g) = false →
  2 ≤ bad_moves_of p →
  ∃ r g' p',
    _action_move pid data g = (Return r, g')
    ∧ hexagons g' = hexagons g
    ∧ Dict.get pid (players g') = Some p'
    ∧ p_status p' = StatusStr "eliminated"
    ∧ p_alive p' = Some false
    ∧ p_territories p' = p_territories p.
Proof.
  intros Hp Hd Hbad Hs. unfold _action_move. run_step. rewrite Hd.
  destruct (_is_adjacent (p_position p) target) eqn:Ha; cbn [negb].
  - destruct Hbad as [|Hm]; [done|]. run_step. rewrite Hm. cbn [negb].
    by apply bad_move_third_strike.
  - by apply bad_move_third_strike.
Qed.

(** ** A disqualified player keeps its string status *)

#[global] Instance dq_status_stays_preorder : PreOrder dq_status_stays.
Proof. split; unfold dq_status_stays; [intros ?|intros ???]; auto. Qed.

Section disqualified.
Context (q : Z).

#[local] Abbreviation Dq := (disqualified q).

Lemma dq_closed s s' :
  Dq s → mono dq_status_stays any_cell s s' → Dq s'.
Proof.
  intros (Hnd & p & Hp & Hs) (Hps & _ & _ & Hk).
  destruct (Hps _ _ Hp) as (p' & ? & Hp').
  split; [by rewrite Hk|]. exists p'. split; [done|]. by apply Hp'.
Qed.

Lemma dq_not_alive s t p :
  Dq s → Dict.get t (players s) = Some p →
  status_is ALIVE (p_status p) = true → t ≠ q.
Proof.
  intros (_ & p' & Hp' & Hs) Hp Ha ->. rewrite Hp in Hp'. injection Hp' as ->.
  by rewrite Hs in Ha.
Qed.

Lemma dq_frame (f : Game → Game) s :
  players (f s) = players s → Dq s → Dq (f s).
Proof. intros E (? & p & Hp & Hs). split; [|exists p]; by rewrite E. Qed.

Lemma dq_modify (f : Game → Game) :
  (∀ s, players (f s) = players s) → hoare Dq (modify f) (λ _, Dq).
Proof. intros E. apply hoare_modify. intros s. by apply dq_frame. Qed.

Lemma dq_upd_hex c f : hoare Dq (upd_hex c f) (λ _, Dq).
Proof.
  eapply hoare_of_preserves; [apply dq_closed|].
  apply preserves_upd_hex; [apply _..|done].
Qed.

Lemma dq_upd_player_other t f :
  t ≠ q → hoare Dq (upd_player t f) (λ _, Dq).
Proof.
  intros Hne. apply hoare_upd_player; [|done].
  intros s _ (? & p & Hp & Hs) _. split; simpl.
  - by rewrite dict_keys_alter.
  - exists p. by rewrite dict_get_alter_ne.
Qed.

Lemma dq_upd_player_same t f :
  (∀ p, p_status (f p) = p_status p) → hoare Dq (upd_player t f) (λ _, Dq).
Proof.
  intros Hf. apply hoare_upd_player; [|done].
  intros s _ (? & p & Hp & Hs) _. split; simpl.
  { by rewrite dict_keys_alter. }
  destruct (decide (t = q)) as [->|Hne].
  - exists (f p). rewrite dict_get_alter_eq, Hp. split; [done|].
    by rewrite Hf.
  - exists p. by rewrite dict_get_alter_ne.
Qed.

(** Reading a player, or the players, tells that the disqualified player
    is not among the alive ones. *)
Lemma dq_bind_get_player {B} pid (k : Player → M B) :
  (∀ p, (status_is ALIVE (p_status p) = true → pid ≠ q) →
        hoare Dq (k p) (λ _, Dq)) →
  hoare Dq (get_player pid ≫= k) (λ _, Dq).
Proof.
  intros Hk. apply inv_bind_get_player. intros p.
  apply (hoare_pure (status_is ALIVE (p_status p) = true → pid ≠ q)).
  - intros s [HI Hp] Ha. by eapply dq_not_alive.
  - intros Hne. eapply hoare_conseq; [| |apply (Hk p Hne)]; [|done].
    by intros s [? _].
Qed.

Lemma dq_bind_gets_state {B} (k : Game → M B) :
  (∀ g, (∀ t p, Dict.get t (players g) = Some p →
                status_is ALIVE (p_status p) = true → t ≠ q) →
        hoare Dq (k g) (λ _, Dq)) →
  hoare Dq (gets id ≫= k) (λ _, Dq).
Proof.
  intros Hk s HI. change ((gets id ≫= k) s) with (k s s).
  apply Hk; [|done]. intros t p. by apply dq_not_alive.
Qed.

Lemma dq_bind_gets_players {B} (k : list (Z * Player) → M B) :
  (∀ ps, (∀ t p, Dict.get t ps = Some p →
                 status_is ALIVE (p_status p) = true → t ≠ q) →
         hoare Dq (k ps) (λ _, Dq)) →
  hoare Dq (gets players ≫= k) (λ _, Dq).
Proof.
  intros Hk s HI. change ((gets players ≫= k) s) with (k (players s) s).
  apply Hk; [|done]. intros t p. by apply dq_not_alive.
Qed.

Lemma dq_bind_get_alive_players {B} (k : list Z → M B) :
  (∀ l, q ∉ l → hoare Dq (k l) (λ _, Dq)) →
  hoare Dq (get_alive_players ≫= k) (λ _, Dq).
Proof.
  intros Hk s HI. unfold get_alive_players. run_step. run_step.
  apply Hk; [|done]. destruct HI as (Hnd & p & Hp & Hs).
  intros ([k' p'] & E & Hin)%list_elem_of_fmap. simpl in E. subst k'.
  apply list_elem_of_In, filter_In in Hin as [Hin Ha]. simpl in Ha.
  apply list_elem_of_In, dict_In_get in Hin; [|done].
  rewrite Hp in Hin. injection Hin as ->. by rewrite Hs in Ha.
Qed.

#[local] Ltac dq_step :=
  lazymatch goal with
  | |- hoare _ (upd_player _ _) _ =>
      first [ apply dq_upd_player_same; intros ?; reflexivity
            | apply dq_upd_player_other; solve [auto] ]
  | |- hoare _ (upd_hex _ _) _ => apply dq_upd_hex
  | |- hoare _ (modify _) _ => apply dq_modify; intros ?; reflexivity
  | |- hoare _ (get_player _ ≫= _) _ => apply dq_bind_get_player; intros ? ?
  | |- hoare _ (gets players ≫= _) _ => apply dq_bind_gets_players; intros ? ?
  | |- hoare _ (gets id ≫= _) _ => apply dq_bind_gets_state; intros ? ?
  | |- hoare _ (get_alive_players ≫= _) _ =>
      apply dq_bind_get_alive_players; intros ? ?
  | |- hoare _ (when ?b _) _ => destruct b eqn:?; cbn [when]
  | |- _ => inv_step
  end.

#[local] Ltac dq := repeat first [ dq_step | solve [eauto] ].

Lemma dq_declare_winner w timeout :
  w ≠ q → hoare Dq (_declare_winner w timeout) (λ _, Dq).
Proof.
  intros Hw. unfold _declare_winner. dq.
  apply andb_true_iff in Heqb as [_ Ea]. auto using dq_upd_player_other.
Qed.

Lemma dq_eliminate_player t reason :
  t ≠ q → hoare Dq (eliminate_player t reason) (λ _, Dq).
Proof.
  intros Ht. unfold eliminate_player. dq.
  apply dq_declare_winner. intros ->. apply H0, list_elem_of_here.
Qed.

Lemma dq_check_eliminations : hoare Dq _check_eliminations (λ _, Dq).
Proof.
  unfold _check_eliminations. dq; apply dq_eliminate_player; auto.
Qed.

(** The methods that store no member of [PlayerStatus]. *)
#[local] Ltac dq_generic lem :=
  eapply hoare_of_preserves; [apply dq_closed|];
  apply (lem dq_status_stays any_cell _ _); stable.

Lemma dq_action_attack a data :
  hoare Dq (_action_attack_player a data) (λ _, Dq).
Proof.
  unfold _action_attack_player. dq.
  apply dq_eliminate_player. eapply H0; [eassumption|].
  by apply negb_false_iff.
Qed.

Lemma dq_unlock_hint a t k : hoare Dq (unlock_hint a t k) (λ _, Dq).
Proof. dq_generic unlock_hint_keeps. Qed.

Lemma dq_action_solve env a data :
  a ≠ q → hoare Dq (_action_solve_ctf env a data) (λ _, Dq).
Proof.
  intros Ha. unfold _action_solve_ctf, validate_flag.
  pose proof dq_unlock_hint. pose proof (dq_declare_winner a false Ha). dq.
Qed.

Lemma dq_action_func env action a data :
  a ≠ q → hoare Dq (action_func env action a data) (λ _, Dq).
Proof.
  intros Ha. destruct action; simpl.
  - dq_generic action_move_keeps.
  - apply dq_action_attack.
  - by apply dq_action_solve.
  - dq_generic action_claim_keeps.
  - dq_generic action_rest_keeps.
  - dq_generic action_scout_keeps.
  - dq_generic action_defend_keeps.
  - dq_generic action_steal_keeps.
Qed.

Lemma dq_execute_action env a action data :
  a ≠ q → hoare Dq (_execute_action env a action data) (λ _, Dq).
Proof.
  intros Ha. unfold _execute_action, read_alive.
  pose proof (dq_action_func env action a data Ha).
  pose proof (dq_eliminate_player a "energy_depleted" Ha). dq.
Qed.

Lemma dq_execute_turn env a action data :
  hoare Dq (execute_turn env a action data) (λ _, Dq).
Proof.
  unfold execute_turn, timeout_elimination. dq.
  - apply dq_eliminate_player. eapply H; [eassumption|].
    by apply negb_false_iff.
  - dq_generic validate_action_keeps.
  - apply dq_execute_action. eapply H; [eassumption|].
    by apply negb_false_iff.
  - dq_generic apply_idle_tax_keeps.
  - apply dq_check_eliminations.
Qed.

Lemma dq_run_call c g : Dq g → Dq (run_call c g).
Proof.
  intros HI. destruct c as [t0|env a action data|t0| |n]; simpl.
  - revert g HI. change (hoare Dq (start_game t0) (λ _, Dq)).
    dq_generic start_game_keeps.
  - by apply dq_execute_turn.
  - revert g HI. change (hoare Dq (get_game_state t0) (λ _, Dq)).
    dq_generic get_game_state_keeps.
  - revert g HI. change (hoare Dq get_alive_players (λ _, Dq)).
    dq_generic get_alive_players_keeps.
  - by apply dq_frame.
Qed.

Lemma dq_run_calls calls g : Dq g → Dq (run_calls calls g).
Proof.
  revert g. induction calls as [|c calls IH]; intros g HI; simpl; [done|].
  by apply IH, dq_run_call.
Qed.
End disqualified.

(** C10. The third strike stores a string.  When a player with two
    strikes asks for a move to a cell that is not adjacent or not on the
    board, [_action_move] sets its status to the string "eliminated", not
    to a member of [PlayerStatus]; from then on, whatever calls the
    engine receives, [get_game_state] raises [AttributeError] on
    [p['status'].value]. *)
Theorem third_strike_breaks_get_game_state g pid p target data :
  NoDup (Dict.keys (players g)) →
  Dict.get pid (players g) = Some p →
  data_field d_target data = Some target →
  _is_adjacent (p_position p) target = false
  ∨ Dict.mem target (hexagons g) = false →
  2 ≤ bad_moves_of p →
  let g' := snd (_action_move pid data g) in
  (p_status <$> Dict.get pid (players g'))
  = Some (StatusStr (PlayerStatus_value ELIMINATED))
  ∧ ∀ calls now,
      fst (get_game_state now (run_calls calls g'))
      = Raise (AttributeError "'str' object has no attribute 'value'").
Proof.
  intros Hnd Hp Hd Hbad Hs g'.
  destruct (illegal_move_third_strike g pid p target data Hp Hd Hbad Hs)
    as (r & g1 & p' & E & _ & Hp' & Hst & _).
  assert (Hk : Dict.keys (players g') = Dict.keys (players g)).
  { apply (action_move_keeps any_player any_cell); stable. }
  subst g'. rewrite E in *. simpl in *. rewrite Hp'.
  split; [simpl; by rewrite Hst|].
  intros calls now.
  destruct (dq_run_calls pid calls g1) as (_ & p2 & Hp2 & Hst2).
  { split; [by rewrite Hk|]. by exists p'. }
  by eapply get_game_state_raises.
Qed.

Lemma third_strike_breaks_get_game_state_witness :
  let g' := snd (_action_move 1 (Some (Build_Data (Some (0, 0)) None None)) two_strikes) in
  (bad_moves_of <$> Dict.get 1 (players two_strikes)) = Some 2
  ∧ (p_status <$> Dict.get 1 (players g')) = Some (StatusStr "eliminated")
  ∧ fst (get_game_state 2 (run_calls [plays 2 REST] g'))
    = Raise (AttributeError "'str' object has no attribute 'value'").
Proof.
  intros g'. split; [by vm_compute|].
  destruct (third_strike_breaks_get_game_state two_strikes 1
              (default (new_player 1 (0, -4)) (Dict.get 1 (players two_strikes)))
              (0, 0) (Some (Build_Data (Some (0, 0)) None None)))
    as [H1 H2];
    [ apply (bool_decide_unpack _); by vm_compute
    | by vm_compute | reflexivity | left; by vm_compute | by vm_compute | ].
  split; [exact H1|]. exact (H2 [plays 2 REST] 2%float).
Defined.

(** ** Defending *)

Lemma run_calls_cons c calls g :
  run_calls (c :: calls) g = run_calls calls (run_call c g).
Proof. reflexivity. Qed.

(** C5. The defending flag is never reset.  Player 1 of a fresh game
    plays DEFEND.  Whatever calls the engine receives afterwards (turns,
    reads of the state, [start_game], and the assignments to
    [round_number] that end the rounds), the flag of player 1 is still
    set.  So, when player 2 walks next to player 1 in rounds 1 to 3 and
    attacks it in round 4, the attack is blocked by the DEFEND of round
    1: player 1 keeps its 100 health. *)
Theorem defending_outlives_round :
  let defending g := p_defending <$> Dict.get 1 (players g) in
  let health g := p_health <$> Dict.get 1 (players g) in
  (∀ calls, defending (run_calls (plays 1 DEFEND :: calls) fresh_game) = Some true)
  ∧ round_number (run_calls defend_match fresh_game) = 4
  ∧ health (run_calls defend_match fresh_game) = Some 100
  ∧ (last (action_history (run_calls defend_match fresh_game))
       ≫= Dict.get "result")
    = Some (VDict
        [("action", VStr "attack_player"); ("success", VBool false);
         ("energy", VInt 7);
         ("validation", VDict
            [("player_id", VInt 2); ("action", VStr "attack_player");
             ("legal", VBool true); ("reasoning", VStr "ok");
             ("timestamp", VFloat 1); ("round", VInt 3)])]).
Proof.
  cbv zeta. split; [|vm_compute; repeat split; reflexivity].
  intros calls.
  rewrite run_calls_cons.
  apply (defending_persists calls _ 1
           (default (new_player 1 (0, 0))
              (Dict.get 1 (players (run_call (plays 1 DEFEND) fresh_game)))));
    by vm_compute.
Qed.

(** ** Attack *)

#[global] Instance vitals_kept_preorder : PreOrder vitals_kept.
Proof.
  split; unfold vitals_kept; [intros ?|intros ???]; intuition congruence.
Qed.

Lemma adjacent_irrefl c : _is_adjacent c c = false.
Proof.
  destruct (_is_adjacent c c) eqn:E; [|done].
  apply is_adjacent_distance in E.
  by rewrite (proj2 (hex_distance_zero c c) eq_refl) in E.
Qed.

(** An elimination changes no energy, health or shield. *)
Lemma eliminate_player_vitals t reason g pid p :
  Dict.get pid (players g) = Some p →
  ∃ p', Dict.get pid (players (snd (eliminate_player t reason g))) = Some p'
        ∧ vitals_kept p p'.
Proof.
  intros Hp.
  destruct (eliminate_player_keeps vitals_kept any_cell
              ltac:(stable) ltac:(stable) t reason g) as (Hps & _).
  by apply Hps.
Qed.

Lemma attack_resolves g a t pa pt data :
  Dict.get a (players g) = Some pa →
  Dict.get t (players g) = Some pt →
  data_field d_target_player data = Some t →
  status_is ALIVE (p_status pt) = true →
  _is_adjacent (p_position pa) (p_position pt) = true →
  p_defending pt = false →
  4 ≤ p_energy pa →
  let damage := Z.max 0 (p_attack_power pa - p_shield pt - p_defense_power pt) in
  let stolen := if bool_decide (damage > 0) then Z.min 3 (p_energy pt) else 0 in
  match _action_attack_player a data g with
  | (o, g') =>
    ∃ pa' pt',
      Dict.get a (players g') = Some pa'
      ∧ Dict.get t (players g') = Some pt'
      ∧ p_shield pt' = Z.max 0 (p_shield pt - p_attack_power pa)
      ∧ p_health pt' = p_health pt - damage
      ∧ p_energy pt' = p_energy pt - stolen
      ∧ p_energy pa'
        = (if bool_decide (damage > 0)
           then Z.min (p_max_energy pa) (p_energy pa - 4 + stolen)
           else p_energy pa - 4)
      ∧ (∀ r, o = Return r →
           Dict.get "damage_dealt" r = Some (VInt damage)
           ∧ Dict.get "energy_stolen" r = Some (VInt stolen)
           ∧ Dict.get "target_health" r = Some (VInt (p_health pt - damage)))
      ∧ (damage < p_health pt → ∃ r, o = Return r)
  end.
Proof.
  intros Ha Ht Hd Halive Hadj Hdef He damage stolen.
  assert (a ≠ t) as Hne.
  { intros ->. rewrite Ha in Ht. injection Ht as ->.
    by rewrite adjacent_irrefl in Hadj. }
  assert (t ≠ a) as Hne' by done.
  unfold _action_attack_player. run_step. rewrite Hd. run_step.
  rewrite Ht, Halive, Hadj, Hdef. cbn [negb].
  rewrite bool_decide_false by lia. do 3 run_step. fold damage.
  subst stolen. destruct (bool_decide (damage > 0)) eqn:Hdmg.
  - do 8 run_step.
    destruct (bool_decide (p_health pt - damage ≤ 0)) eqn:Hkill.
    + run_step.
      match goal with |- context [ (eliminate_player _ _ ≫= _) ?G ] =>
        set (g1 := G) end.
      destruct (eliminate_player_vitals t "combat" g1 a _ ltac:(subst g1; lookup))
        as (pa2 & Ha2 & Va).
      destruct (eliminate_player_vitals t "combat" g1 t _ ltac:(subst g1; lookup))
        as (pt2 & Ht2 & Vt).
      rewrite run_bind.
      destruct (eliminate_player t "combat" g1) as [[[]|e] g2]; simpl in Ha2, Ht2.
      * clear Ha Ht. repeat run_step. cbn [mret M_ret].
        eexists _, _. split; [lookup|]. split; [lookup|].
        destruct Va as (? & ? & ? & ?), Vt as (? & ? & ? & ?).
        field_simpl_all. apply bool_decide_eq_true in Hkill.
        split_and!; try congruence; try lia.
        intros r [= <-]. cbn. split_and!; try done. repeat f_equal. lia.
      * exists pa2, pt2.
        destruct Va as (? & ? & ? & ?), Vt as (? & ? & ? & ?).
        field_simpl_all. apply bool_decide_eq_true in Hkill.
        split_and!; try done; try congruence; try lia.
    + repeat run_step. cbn [mret M_ret].
      eexists _, _. split; [lookup|]. split; [lookup|]. field_simpl.
      split_and!; try done; eauto.
      intros r [= <-]. by cbn.
  - do 2 run_step.
    destruct (bool_decide (p_health pt - damage ≤ 0)) eqn:Hkill.
    + run_step.
      match goal with |- context [ (eliminate_player _ _ ≫= _) ?G ] =>
        set (g1 := G) end.
      destruct (eliminate_player_vitals t "combat" g1 a _ ltac:(subst g1; lookup))
        as (pa2 & Ha2 & Va).
      destruct (eliminate_player_vitals t "combat" g1 t _ ltac:(subst g1; lookup))
        as (pt2 & Ht2 & Vt).
      rewrite run_bind.
      destruct (eliminate_player t "combat" g1) as [[[]|e] g2]; simpl in Ha2, Ht2.
      * clear Ha Ht. repeat run_step. cbn [mret M_ret].
        eexists _, _. split; [lookup|]. split; [lookup|].
        destruct Va as (? & ? & ? & ?), Vt as (? & ? & ? & ?).
        field_simpl_all. apply bool_decide_eq_true in Hkill.
        split_and!; try congruence; try lia.
        intros r [= <-]. cbn. split_and!; try done. repeat f_equal. lia.
      * exists pa2, pt2.
        destruct Va as (? & ? & ? & ?), Vt as (? & ? & ? & ?).
        field_simpl_all. apply bool_decide_eq_true in Hkill.
        split_and!; try done; try congruence; try lia.
    + repeat run_step. cbn [mret M_ret].
      eexists _, _. split; [lookup|]. split; [lookup|]. field_simpl.
      split_and!; try done; try lia; eauto.
      intros r [= <-]. by cbn.
Qed.

(** C6. An attack on an adjacent, alive target that is not defending, by
    an attacker with the 4 energy of the attack: the shield of the target
    loses the attack power, floored at 0; its health loses
    [max(0, attack - shield before - defense)]; when that damage is
    positive the attacker takes [min(3, energy of the target)] energy
    from the target, its own energy being capped at its maximum; and
    unless the target dies the method returns a result that reports the
    damage and the stolen energy. *)
Theorem attack_damage_and_theft g a t pa pt data :
  Dict.get a (players g) = Some pa →
  Dict.get t (players g) = Some pt →
  data_field d_target_player data = Some t →
  status_is ALIVE (p_status pt) = true →
  _is_adjacent (p_position pa) (p_position pt) = true →
  p_defending pt = false →
  4 ≤ p_energy pa →
  let damage := Z.max 0 (p_attack_power pa - p_shield pt - p_defense_power pt) in
  let stolen := if bool_decide (damage > 0) then Z.min 3 (p_energy pt) else 0 in
  let r := _action_attack_player a data g in
  let target f := f <$> Dict.get t (players (snd r)) in
  let attacker f := f <$> Dict.get a (players (snd r)) in
  target p_shield = Some (Z.max 0 (p_shield pt - p_attack_power pa))
  ∧ target p_health = Some (p_health pt - damage)
  ∧ target p_energy = Some (p_energy pt - stolen)
  ∧ attacker p_energy
    = Some (if bool_decide (damage > 0)
            then Z.min (p_max_energy pa) (p_energy pa - 4 + stolen)
            else p_energy pa - 4)
  ∧ (damage < p_health pt →
     ∃ res, fst r = Return res
            ∧ Dict.get "damage_dealt" res = Some (VInt damage)
            ∧ Dict.get "energy_stolen" res = Some (VInt stolen)
            ∧ Dict.get "target_health" res = Some (VInt (p_health pt - damage))).
Proof.
  intros Ha Ht Hd Halive Hadj Hdef He damage stolen r target attacker.
  pose proof (attack_resolves g a t pa pt data Ha Ht Hd Halive Hadj Hdef He) as H.
  cbv zeta in H. fold damage in H. fold stolen in H. fold r in H.
  subst target attacker. destruct r as [o g'].
  destruct H as (pa' & pt' & Ha' & Ht' & E1 & E2 & E3 & E4 & Hr & Hret).
  cbn [fst snd]. rewrite Ha', Ht'.
  cbn [fmap option_fmap option_map]. rewrite E1, E2, E3, E4.
  split_and!; try done. intros Hlt. destruct (Hret Hlt) as [res ->].
  exists res. split; [done|]. by apply Hr.
Qed.

(** The scenario of the specification: attack 5 against shield 0 and
    defense 3 deals 2 damage (health 100 to 98) and steals 3 energy. *)
Lemma attack_damage_and_theft_witness :
  let r := _action_attack_player 1 (targets 2) duel in
  (p_health <$> Dict.get 2 (players (snd r))) = Some 98
  ∧ (p_energy <$> Dict.get 2 (players (snd r))) = Some 12
  ∧ (p_energy <$> Dict.get 1 (players (snd r))) = Some 14
  ∧ ∃ res, fst r = Return res
           ∧ Dict.get "damage_dealt" res = Some (VInt 2)
           ∧ Dict.get "energy_stolen" res = Some (VInt 3).
Proof.
  intros r.
  destruct (attack_damage_and_theft duel 1 2
              (default (new_player 1 (0, 0)) (Dict.get 1 (players duel)))
              (default (new_player 2 (0, 0)) (Dict.get 2 (players duel)))
              (targets 2))
    as (_ & H2 & H3 & H4 & H5);
    [ by vm_compute | by vm_compute | reflexivity | reflexivity
    | by vm_compute | reflexivity | by vm_compute | ].
  destruct H5 as (res & E & Hd & Hs & _); [by vm_compute|].
  vm_compute in H2, H3, H4, E, Hd, Hs. subst r. vm_compute.
  split; [exact H2|]. split; [exact H3|]. split; [exact H4|].
  exists res. vm_compute. split; [exact E|]. split; [exact Hd|exact Hs].
Defined.

(** ** Hints *)

#[global] Instance hints_kept_preorder : PreOrder hints_kept.
Proof. split; unfold hints_kept; [intros ?|intros ???]; congruence. Qed.

#[global] Instance hints_progress_kept_preorder : PreOrder hints_progress_kept.
Proof.
  split; unfold hints_progress_kept; [intros ?|intros ???];
    intuition congruence.
Qed.

Lemma hints_grow_same texts p p' :
  p_ctf_hints p' = p_ctf_hints p → hints_grow texts p p'.
Proof.
  intros E. unfold hints_grow. rewrite E. split_and!; try done.
  intros k ?. lia.
Qed.

Lemma hints_grow_kept texts p p' p'' :
  hints_grow texts p p' → hints_progress_kept p' p'' → hints_grow texts p p''.
Proof. intros H [E1 E2]. unfold hints_grow in *. by rewrite E1, E2. Qed.

(** Granting the hint of rank [k] to a player that holds [k] hints. *)
Lemma hints_grow_push texts p p' k t h :
  hints_grow texts p p' →
  hint_threshold k = Some t →
  PrimFloat.leb t (p_ctf_progress p') = true →
  length (p_ctf_hints p') = k →
  texts !! k = Some h →
  hints_grow texts p (set_ctf_hints (p_ctf_hints p' ++ [h]) p').
Proof.
  intros (Hpre & Hlen & Hcan & Hthr) Ht Hleb Hk Hh.
  assert (k < 3)%nat as Hk3.
  { destruct k as [|[|[|k]]]; [lia..|done]. }
  unfold hints_grow. cbn. split_and!.
  - by apply prefix_app_r.
  - intros ?. rewrite length_app. simpl. lia.
  - intros [rest Hrest]%Hcan. rewrite Hrest in Hh.
    rewrite lookup_app_r in Hh by lia.
    replace (k - length (p_ctf_hints p'))%nat with 0%nat in Hh by lia.
    destruct rest as [|h' rest]; [done|]. injection Hh as ->.
    exists rest. rewrite Hrest. by rewrite <- app_assoc.
  - intros j [Hj1 Hj2]. rewrite length_app in Hj2. simpl in Hj2.
    destruct (decide (j = k)) as [->|Hne].
    + exists t. split_and!; [done..|].
      rewrite lookup_app_r by lia.
      replace (k - length (p_ctf_hints p'))%nat with 0%nat by lia.
      by rewrite Hh.
    + destruct (Hthr j ltac:(lia)) as (t' & ? & ? & ?).
      exists t'. split_and!; [done..|]. by rewrite lookup_app_l by lia.
Qed.

(** A method made of the methods of the monotone section keeps
    [mono Rp Rc] as soon as the updates it makes are stable. *)
Ltac keeps_lemma :=
  first
    [ apply update_vision_keeps | apply apply_idle_tax_keeps
    | apply get_alive_players_keeps | apply declare_winner_keeps
    | apply eliminate_player_keeps | apply timeout_elimination_keeps
    | apply check_eliminations_keeps | apply validate_flag_keeps
    | apply validate_action_keeps | apply read_alive_keeps
    | apply get_game_state_keeps | apply start_game_keeps ].

Ltac keeps := repeat first [ preserves_step | keeps_lemma | stable ].

Section hints.
Context (q : Z) (p : Player) (texts : list string).

#[local] Abbreviation Same := (hints_same q p texts).
#[local] Abbreviation Grown := (hints_grown q p texts).

Lemma same_grown s : Same s → Grown s.
Proof.
  intros (? & p' & ? & ?). split; [done|]. exists p'. split; [done|].
  by apply hints_grow_same.
Qed.

Lemma same_closed s s' : Same s → mono hints_kept any_cell s s' → Same s'.
Proof.
  intros (Ht & p' & Hp' & E) (Hps & _ & Hh & _).
  destruct (Hps _ _ Hp') as (p'' & ? & E'). split; [congruence|].
  exists p''. split; [done|]. unfold hints_kept in E'. congruence.
Qed.

Lemma grown_closed s s' :
  Grown s → mono hints_progress_kept any_cell s s' → Grown s'.
Proof.
  intros (Ht & p' & Hp' & Hg) (Hps & _ & Hh & _).
  destruct (Hps _ _ Hp') as (p'' & ? & E'). split; [congruence|].
  exists p''. split; [done|]. by eapply hints_grow_kept.
Qed.

(** The three blocks that unlock hints. *)
Lemma unlock_hint_grown pid t k :
  hint_threshold k = Some t →
  hoare Grown (unlock_hint pid t k) (λ _, Grown).
Proof.
  intros Ht s HG. unfold unlock_hint.
  destruct (Dict.get pid (players s)) as [player|] eqn:Hpid.
  2:{ by rewrite (run_bind_raise _ _ _ _ _ (run_get_player_None _ _ Hpid)). }
  run_step.
  destruct (PrimFloat.leb t (p_ctf_progress player)
            && bool_decide (length (p_ctf_hints player) = k)) eqn:Hc;
    [|done].
  apply andb_true_iff in Hc as [Hleb Hk%bool_decide_eq_true].
  run_step. destruct (ctf_hints s !! k) as [h|] eqn:Hh; [|done].
  run_step. cbn [mret M_ret fst snd].
  destruct HG as (Htexts & p' & Hp' & Hg). split; [done|].
  game_simpl. destruct (decide (pid = q)) as [->|Hne].
  - rewrite Hp' in Hpid. injection Hpid as <-.
    rewrite dict_get_alter_eq, Hp'. eexists. split; [done|].
    eapply hints_grow_push; eauto. by rewrite <- Htexts.
  - exists p'. by rewrite dict_get_alter_ne.
Qed.

Lemma bind_same {A B} (m : M A) (k : A → M B) :
  hoare Same m (λ _, Same) →
  (∀ a, hoare Same (k a) (λ _, Grown)) →
  hoare Same (m ≫= k) (λ _, Grown).
Proof.
  intros Hm Hk. eapply hoare_bind; [exact Hm|exact Hk|].
  intros e s. apply same_grown.
Qed.

Lemma switch_to_grown {A} (m : M A) :
  hoare Grown m (λ _, Grown) → hoare Same m (λ _, Grown).
Proof. apply hoare_conseq; [apply same_grown|done]. Qed.

(** One step under [Same], towards [Grown]. *)
#[local] Ltac same_step :=
  lazymatch goal with
  | |- hoare Same (unlock_hint _ _ _ ≫= _) _ => apply switch_to_grown
  | |- hoare Same (_ ≫= _) (λ _, Grown) =>
      apply bind_same;
      [ eapply hoare_of_preserves; [apply same_closed|solve [keeps]]
      | intros ? ]
  | |- hoare Same (mret _) _ => apply hoare_ret; intros ?; apply same_grown
  | |- hoare Same (raise _) _ => apply hoare_raise; intros ?; apply same_grown
  | |- hoare Same (if ?b then _ else _) _ => destruct b eqn:?
  | |- hoare Same (match ?x with _ => _ end) _ => destruct x eqn:?
  end.

(** One step under [Grown]. *)
#[local] Ltac grown_step :=
  lazymatch goal with
  | |- hoare Grown (unlock_hint _ _ _) _ =>
      apply unlock_hint_grown; reflexivity
  | |- hoare Grown (_ ≫= _) _ => apply inv_bind; [|intros ?]
  | |- hoare Grown (mret _) _ => apply inv_ret
  | |- hoare Grown (raise _) _ => apply inv_raise
  | |- hoare Grown (if ?b then _ else _) _ => destruct b eqn:?
  | |- hoare Grown (match ?x with _ => _ end) _ => destruct x eqn:?
  | |- hoare Grown _ (λ _, Grown) =>
      eapply hoare_of_preserves; [apply grown_closed|solve [keeps]]
  end.

Lemma action_solve_grown env pid data :
  hoare Same (_action_solve_ctf env pid data) (λ _, Grown).
Proof.
  unfold _action_solve_ctf. repeat same_step. repeat grown_step.
Qed.

Lemma execute_action_solve_grown env pid data :
  hoare Same (_execute_action env pid SOLVE_CTF data) (λ _, Grown).
Proof.
  unfold _execute_action, action_func. repeat same_step.
  eapply hoare_bind; [apply action_solve_grown| |done].
  intros r. cbv beta. repeat grown_step.
Qed.

Lemma execute_turn_solve_grown env pid data :
  hoare Same (execute_turn env pid SOLVE_CTF data) (λ _, Grown).
Proof.
  unfold execute_turn. repeat same_step.
  - apply switch_to_grown. repeat grown_step.
  - eapply hoare_bind; [apply execute_action_solve_grown| |done].
    intros r. cbv beta. repeat grown_step.
Qed.
End hints.

(** A theft takes the last hint of its target: the hints of a player do
    not only grow. *)
Lemma steal_loses_hint :
  ¬ hints_monotone wounded
      (snd (execute_turn calm_env 1 STEAL_PROGRESS (targets 2) wounded)).
Proof.
  intros H.
  destruct (H 2 (default (new_player 2 (0, 0)) (Dict.get 2 (players wounded))))
    as (p' & Hp' & Hpre); [by vm_compute|].
  vm_compute in Hp'. injection Hp' as <-. vm_compute in Hpre.
  destruct Hpre as [rest Hrest]. discriminate Hrest.
Qed.

(** After a theft a player can hold four hints. *)
Lemma steal_can_exceed_three :
  (length ∘ p_ctf_hints <$>
     Dict.get 1 (players (snd (execute_turn calm_env 1 STEAL_PROGRESS
                                 (targets 2) crowded))))
  = Some 4%nat.
Proof. by vm_compute. Qed.

(** A turn without theft: what it does to the hints of a player. *)
Lemma turn_without_steal_grows env pid action data g q p :
  action ≠ STEAL_PROGRESS →
  Dict.get q (players g) = Some p →
  ∃ p', Dict.get q (players (snd (execute_turn env pid action data g))) = Some p'
        ∧ hints_grow (ctf_hints g) p p'.
Proof.
  intros Hsteal Hp. destruct (decide (action = SOLVE_CTF)) as [->|Hsolve].
  - destruct (execute_turn_solve_grown q p (ctf_hints g) env pid data g)
      as (_ & p' & ? & ?); [|by exists p'].
    split; [done|]. by exists p.
  - destruct (execute_turn_keeps hints_kept any_cell
                ltac:(stable) ltac:(stable) ltac:(stable) env pid action data)
      with (g := g) as (Hps & _).
    { apply action_func_keeps_plain; try done; try apply _; stable. }
    destruct (Hps _ _ Hp) as (p' & ? & E). exists p'. split; [done|].
    by apply hints_grow_same.
Qed.

Lemma third_attempt_unlocks_first_hint :
  (p_ctf_hints <$>
     Dict.get 1 (players (snd (execute_turn calm_env 1 SOLVE_CTF None two_attempts))))
  = Some ["The flag format is: flag{...}"].
Proof. by vm_compute. Qed.

(** ** The resource bonus *)

(** A legal move: what happens to the energy of the mover and to the
    bonus of the cell. *)
Lemma move_onto_cell g pid p target cell data :
  Dict.get pid (players g) = Some p →
  data_field d_target data = Some target →
  _is_adjacent (p_position p) target = true →
  Dict.get target (hexagons g) = Some cell →
  2 ≤ p_energy p →
  let bonus := bool_decide (c_type cell = RESOURCE) && negb (c_bonus_consumed cell) in
  let g' := snd (_action_move pid data g) in
  (p_energy <$> Dict.get pid (players g'))
  = Some (if bonus then Z.min (p_max_energy p) (p_energy p - 2 + 3)
          else p_energy p - 2)
  ∧ (c_bonus_consumed <$> Dict.get target (hexagons g'))
    = Some (bonus || c_bonus_consumed cell).
Proof.
  intros H Hd Ha Hc He bonus. unfold _action_move.
  run_step. rewrite Hd, Ha. cbn [negb]. run_step.
  unfold Dict.mem. rewrite Hc. cbn [negb].
  rewrite bool_decide_false by lia.
  do 5 run_step. fold bonus. destruct bonus; cbn [when].
  - repeat run_step. cbn [mret M_ret snd]. game_simpl.
    rewrite !dict_get_alter_eq, H, Hc. done.
  - repeat run_step. cbn [mret M_ret snd]. game_simpl.
    rewrite !dict_get_alter_eq, H, Hc. done.
Qed.

(** C9. The resource bonus is granted once.  A legal move onto a RESOURCE
    cell whose bonus is not consumed gives the mover +3 energy on top of
    the cost of the move, capped at the maximum; from then on, whatever
    calls the engine receives, the bonus of that cell is consumed, and a
    legal move onto it, by any player, only costs the 2 energy. *)
Theorem resource_bonus_once g pid p target cell data :
  Dict.get pid (players g) = Some p →
  data_field d_target data = Some target →
  _is_adjacent (p_position p) target = true →
  Dict.get target (hexagons g) = Some cell →
  c_type cell = RESOURCE → c_bonus_consumed cell = false →
  2 ≤ p_energy p →
  let g' := snd (_action_move pid data g) in
  (p_energy <$> Dict.get pid (players g'))
  = Some (Z.min (p_max_energy p) (p_energy p - 2 + 3))
  ∧ ∀ calls pid2 p2 data2,
      let g2 := run_calls calls g' in
      (c_bonus_consumed <$> Dict.get target (hexagons g2)) = Some true
      ∧ (Dict.get pid2 (players g2) = Some p2 →
         data_field d_target data2 = Some target →
         _is_adjacent (p_position p2) target = true →
         2 ≤ p_energy p2 →
         (p_energy <$> Dict.get pid2 (players (snd (_action_move pid2 data2 g2))))
         = Some (p_energy p2 - 2)).
Proof.
  intros Hp Hd Ha Hc Ht Hb He g'.
  destruct (move_onto_cell g pid p target cell data Hp Hd Ha Hc He) as [He' Hc'].
  fold g' in He', Hc'. rewrite Ht, Hb in He', Hc'.
  rewrite bool_decide_true in He', Hc' by done. cbn [negb andb orb] in He', Hc'.
  split; [exact He'|]. intros calls pid2 p2 data2 g2.
  destruct (Dict.get target (hexagons g')) as [h'|] eqn:Hh'; [|done].
  injection Hc' as Hc'.
  destruct (bonus_consumed_persists calls g' target h' Hh') as (h2 & Hh2 & _ & Hb2).
  fold g2 in Hh2. split; [by rewrite Hh2; simpl; rewrite Hb2|].
  intros Hp2 Hd2 Ha2 He2.
  destruct (move_onto_cell g2 pid2 p2 target h2 data2 Hp2 Hd2 Ha2 Hh2 He2) as [E _].
  rewrite E, Hb2 by done. by rewrite andb_false_r.
Qed.

Lemma resource_bonus_once_witness :
  let g' := snd (_action_move 1 first_move rich_game) in
  (p_energy <$> Dict.get 1 (players g')) = Some 15
  ∧ (c_bonus_consumed <$>
       Dict.get (1, -4) (hexagons (run_calls [moves_to 2 (3, -4)] g')))
    = Some true.
Proof.
  intros g'.
  destruct (resource_bonus_once rich_game 1
              (default (new_player 1 (0, -4)) (Dict.get 1 (players rich_game)))
              (1, -4) (new_cell RESOURCE) first_move) as [H1 H2];
    [vm_compute; reflexivity | reflexivity | reflexivity
    | vm_compute; reflexivity | reflexivity | reflexivity | by vm_compute |].
  split; [exact H1|].
  exact (proj1 (H2 [moves_to 2 (3, -4)] 2 (new_player 2 (4, -4)) None)).
Defined.

(** ** The breadth-first search never exhausts its bound *)

Section dict_set.
Context {K V : Type} `{EqDecision K}.
Implicit Types (k : K) (v : V) (d : list (K * V)).

Lemma dict_get_set k k' v d :
  Dict.get k (Dict.set k' v d) =
  if decide (k = k') then Some v else Dict.get k d.
Proof.
  induction d as [|[k0 v0] d IH]; simpl.
  - by destruct (decide (k = k')).
  - destruct (decide (k' = k0)) as [->|Hne]; simpl.
    + by destruct (decide (k = k0)).
    + destruct (decide (k = k0)) as [->|?].
      * by rewrite decide_False.
      * apply IH.
Qed.

Lemma dict_set_length_fresh k v d :
  Dict.get k d = None → length (Dict.set k v d) = S (length d).
Proof.
  induction d as [|[k0 v0] d IH]; simpl; [done|].
  destruct (decide (k = k0)); [done|]. intros ?. simpl. by rewrite IH.
Qed.
End dict_set.

Lemma adjacent_on_board hexs c nb :
  nb ∈ _get_adjacent_hexagons hexs c → nb ∈ Dict.keys hexs.
Proof.
  unfold _get_adjacent_hexagons.
  intros [_ Hm]%list_elem_of_In%filter_In.
  apply dict_mem_true in Hm as [h Hh]. by eapply dict_get_Some_keys.
Qed.

Lemma bfs_unseen_drops (seen : gset Coord) nb cells :
  nb ∈ cells → nb ∉ seen →
  (length (List.filter (λ c, negb (bool_decide (c ∈ {[nb]} ∪ seen))) cells)
   < length (List.filter (λ c, negb (bool_decide (c ∈ seen))) cells))%nat.
Proof.
  intros Hin Hnb.
  assert (Hle : ∀ l : list Coord,
    (length (List.filter (λ c, negb (bool_decide (c ∈ {[nb]} ∪ seen))) l)
     ≤ length (List.filter (λ c, negb (bool_decide (c ∈ seen))) l))%nat).
  { induction l as [|c l IH]; simpl; [done|].
    destruct (decide (c ∈ seen)) as [Hc|Hc].
    - rewrite !bool_decide_true by set_solver. done.
    - rewrite (bool_decide_false (c ∈ seen)) by done. simpl.
      destruct (bool_decide (c ∈ {[nb]} ∪ seen)); simpl; lia. }
  induction cells as [|c cells IH]; [by apply elem_of_nil in Hin|].
  simpl. apply elem_of_cons in Hin as [<-|Hin].
  - rewrite bool_decide_true by set_solver.
    rewrite (bool_decide_false (nb ∈ seen)) by done. simpl.
    specialize (Hle cells). lia.
  - specialize (IH Hin).
    destruct (decide (c ∈ seen)) as [Hc|Hc].
    + rewrite !bool_decide_true by set_solver. done.
    + rewrite (bool_decide_false (c ∈ seen)) by done. simpl.
      destruct (bool_decide (c ∈ {[nb]} ∪ seen)); simpl; lia.
Qed.

Lemma bfs_path_fresh parent start nb v c n :
  Dict.get nb parent = None →
  bfs_path parent start c n → bfs_path (Dict.set nb v parent) start c n.
Proof.
  intros Hnb. induction 1 as [c Hc|c pc n Hc Hne _ IH].
  - apply bfs_path_child. rewrite dict_get_set, decide_False; [done|].
    intros ->. congruence.
  - eapply bfs_path_step; [|done|done].
    rewrite dict_get_set, decide_False; [done|]. intros ->. congruence.
Qed.

Lemma bfs_rooted_fresh parent start nb v c :
  Dict.get nb parent = None →
  bfs_rooted parent start c → bfs_rooted (Dict.set nb v parent) start c.
Proof.
  intros Hnb [->|(n & Hp & Hn)]; [by left|]. right. exists n. split.
  - by apply bfs_path_fresh.
  - rewrite dict_set_length_fresh by done. lia.
Qed.

(** Following [parent] from a rooted cell ends on a child of the start. *)
Lemma bfs_backtrack_returns parent start c n fuel :
  bfs_path parent start c n → (n ≤ fuel)%nat →
  ∃ r, bfs_backtrack fuel parent start (Some c) = Return r.
Proof.
  intros Hp. revert fuel. induction Hp as [c Hc|c pc n Hc Hne _ IH]; intros fuel Hf.
  - exists c. destruct fuel; simpl; rewrite Hc; by rewrite bool_decide_true.
  - destruct fuel as [|fuel]; [lia|]. simpl. rewrite Hc.
    rewrite bool_decide_false by congruence. apply IH. lia.
Qed.

(** One iteration of the [for neighbor] loop. *)
Lemma bfs_visit_inv hexs start cur neighbors st :
  (∀ nb, nb ∈ neighbors → nb ∈ Dict.keys hexs) →
  bfs_inv start st →
  bfs_rooted (snd (fst st)) start cur →
  bfs_inv start (bfs_visit cur neighbors st)
  ∧ (bfs_measure hexs (bfs_visit cur neighbors st) ≤ bfs_measure hexs st)%nat.
Proof.
  unfold bfs_visit. revert st.
  induction neighbors as [|nb neighbors IH]; intros [[seen parent] queue] Hnbs Hinv Hcur;
    simpl; [by split|].
  destruct (bool_decide (nb ∈ seen)) eqn:Hseen.
  { apply IH; [|done..]. intros ??. apply Hnbs. by apply list_elem_of_further. }
  apply bool_decide_eq_false in Hseen.
  destruct Hinv as (H1 & H2 & H3). simpl in Hcur.
  assert (Dict.get nb parent = None) as Hfresh.
  { destruct (Dict.get nb parent) eqn:E; [|done]. destruct Hseen. apply H1. by eexists. }
  assert (nb ≠ start) as Hns.
  { intros ->. congruence. }
  edestruct (IH ({[nb]} ∪ seen, Dict.set nb (Some cur) parent, queue ++ [nb]))
    as [Hinv' Hm'].
  - intros ??. apply Hnbs. by apply list_elem_of_further.
  - split_and!.
    + intros c. rewrite dict_get_set. destruct (decide (c = nb)) as [->|?].
      * intros _. apply elem_of_union_l. by apply elem_of_singleton.
      * intros ?%H1. by apply elem_of_union_r.
    + rewrite dict_get_set. by rewrite decide_False.
    + apply Forall_app. split.
      * eapply Forall_impl; [exact H3|]. intros c. by apply bfs_rooted_fresh.
      * apply Forall_singleton. right.
        destruct Hcur as [->|(n & Hp & Hn)].
        -- exists 0%nat. split.
           ++ apply bfs_path_child. by rewrite dict_get_set, decide_True.
           ++ rewrite dict_set_length_fresh by done. lia.
        -- exists (S n). split.
           ++ eapply bfs_path_step; [by rewrite dict_get_set, decide_True| |].
              ** intros ->. inversion Hp; congruence.
              ** by apply bfs_path_fresh.
           ++ rewrite dict_set_length_fresh by done. lia.
  - simpl. by apply bfs_rooted_fresh.
  - split; [done|]. etrans; [exact Hm'|]. simpl. rewrite length_app. simpl.
    pose proof (bfs_unseen_drops seen nb (Dict.keys hexs)
                  (Hnbs nb (list_elem_of_here _ _)) Hseen).
    lia.
Qed.

(** The [while queue] loop returns before its bound. *)
Lemma bfs_loop_returns hexs start fuel st :
  bfs_inv start st → (bfs_measure hexs st ≤ fuel)%nat →
  ∃ r, bfs_loop fuel hexs start st = Return r.
Proof.
  revert st. induction fuel as [|fuel IH]; intros [[seen parent] queue] Hinv Hm.
  - destruct queue as [|cur queue]; [by exists None|].
    simpl in Hm. lia.
  - destruct queue as [|cur queue]; [by exists None|].
    destruct Hinv as (H1 & H2 & H3). apply Forall_cons in H3 as [Hcur H3].
    cbn [bfs_loop].
    destruct (bool_decide (cur ≠ start)
              && match Dict.get cur hexs with
                 | Some h => bool_decide (c_owner h = None)
                 | None => false
                 end) eqn:Hfound.
    + apply andb_true_iff in Hfound as [Hne%bool_decide_eq_true _].
      destruct Hcur as [->|(n & Hp & Hn)]; [done|].
      destruct (bfs_backtrack_returns parent start cur n (length parent) Hp)
        as [r ->]; [lia|]. by eexists.
    + destruct (bfs_visit_inv hexs start cur (_get_adjacent_hexagons hexs cur)
                  (seen, parent, queue)) as [Hinv' Hm'].
      * intros nb. apply adjacent_on_board.
      * by split_and!.
      * done.
      * apply IH; [done|]. simpl in Hm, Hm'. simpl. lia.
Qed.

(** The search for the nearest unowned hexagon returns, and changes
    nothing. *)
Lemma find_nearest_unowned_returns pid p g :
  Dict.get pid (players g) = Some p →
  ∃ r, _find_nearest_unowned_for_player pid g = (Return r, g).
Proof.
  intros Hp. unfold _find_nearest_unowned_for_player. do 2 run_step.
  destruct (bfs_loop_returns (hexagons g) (p_position p) (bfs_bound (hexagons g))
              ({[p_position p]}, [(p_position p, None)], [p_position p]))
    as [r ->].
  - split_and!.
    + intros c [v Hv]. simpl in Hv. destruct (decide (c = p_position p)); [|done].
      set_solver.
    + simpl. by rewrite decide_True.
    + apply Forall_singleton. by left.
  - unfold bfs_measure, bfs_bound, Dict.keys.
    pose proof (filter_length_le
                  (λ c, negb (bool_decide (c ∈ ({[p_position p]} : gset Coord))))
                  (map fst (hexagons g))) as Hle.
    rewrite length_map in Hle. simpl. lia.
  - by exists r.
Qed.

(** ** Neighbours of a cell *)

Lemma adjacent_iff_direction (c nb : Coord) :
  _is_adjacent c nb = true ↔ (nb.1 - c.1, nb.2 - c.2) ∈ directions.
Proof.
  rewrite is_adjacent_distance. pose proof (hex_distance_unfold c nb) as H.
  destruct c as [q r], nb as [q' r']. cbn [fst snd] in *.
  set (x := q' - q) in *. set (y := r' - r) in *.
  unfold directions. rewrite !elem_of_cons, elem_of_nil. split.
  - intros H1.
    assert (x = 1 ∧ y = 0 ∨ x = 1 ∧ y = -1 ∨ x = 0 ∧ y = -1
            ∨ x = -1 ∧ y = 0 ∨ x = -1 ∧ y = 1 ∨ x = 0 ∧ y = 1) as Hc
      by (subst x y; lia).
    destruct Hc as [[-> ->]|[[-> ->]|[[-> ->]|[[-> ->]|[[-> ->]|[-> ->]]]]]];
      tauto.
  - intros Hc.
    assert (x = 1 ∧ y = 0 ∨ x = 1 ∧ y = -1 ∨ x = 0 ∧ y = -1
            ∨ x = -1 ∧ y = 0 ∨ x = -1 ∧ y = 1 ∨ x = 0 ∧ y = 1) as Hc'.
    { destruct Hc as [E|[E|[E|[E|[E|[E|[]]]]]]]; injection E as -> ->; lia. }
    subst x y. lia.
Qed.

Lemma adjacent_hexagons_cases hexs (c nb : Coord) :
  nb ∈ _get_adjacent_hexagons hexs c
  ↔ _is_adjacent c nb = true ∧ Dict.mem nb hexs = true.
Proof.
  unfold _get_adjacent_hexagons.
  rewrite list_elem_of_In, filter_In, <- list_elem_of_In, adjacent_iff_direction.
  rewrite list_elem_of_fmap. split.
  - intros [([dq dr] & -> & Hd) Hm]. split; [|done]. cbn [fst snd].
    by replace (c.1 + dq - c.1) with dq by lia;
       replace (c.2 + dr - c.2) with dr by lia.
  - intros [Hd Hm]. split; [|done].
    exists (nb.1 - c.1, nb.2 - c.2). split; [|done]. cbn [fst snd].
    destruct nb as [q r]. cbn [fst snd]. f_equal; lia.
Qed.

(** X1. The neighbours of a cell: a cell is in the list returned by
    [_get_adjacent_hexagons] exactly when it is adjacent to the given
    cell, in the sense of [_is_adjacent], and is on the board. *)
Theorem adjacent_hexagons_spec hexs (c nb : Coord) :
  nb ∈ _get_adjacent_hexagons hexs c
  ↔ _is_adjacent c nb = true ∧ Dict.mem nb hexs = true.
Proof. apply adjacent_hexagons_cases. Qed.

(** ** The step chosen by the search for the nearest unowned hexagon *)

Lemma bfs_backtrack_child fuel parent start cur r :
  bfs_backtrack fuel parent start cur = Return r →
  Dict.get r parent = Some (Some start).
Proof.
  revert cur. induction fuel as [|fuel IH]; intros [c|]; simpl; try done.
  - destruct (Dict.get c parent) as [pc|] eqn:E; [|done].
    destruct (bool_decide (pc = Some start)) eqn:B; [|done].
    intros [= <-]. apply bool_decide_eq_true in B. by subst.
  - destruct (Dict.get c parent) as [pc|] eqn:E; [|done].
    destruct (bool_decide (pc = Some start)) eqn:B; [|by apply IH].
    intros [= <-]. apply bool_decide_eq_true in B. by subst.
Qed.

Lemma bfs_visit_edges hexs cur neighbors st :
  (∀ nb, nb ∈ neighbors → nb ∈ _get_adjacent_hexagons hexs cur) →
  bfs_edges hexs st.1.2 →
  bfs_edges hexs (bfs_visit cur neighbors st).1.2.
Proof.
  unfold bfs_visit. revert st.
  induction neighbors as [|nb neighbors IH]; intros [[seen parent] queue] Hnbs He;
    simpl; [done|].
  assert (∀ nb', nb' ∈ neighbors → nb' ∈ _get_adjacent_hexagons hexs cur) as Hnbs'.
  { intros ??. apply Hnbs. by apply list_elem_of_further. }
  destruct (bool_decide (nb ∈ seen)); [by apply IH|].
  apply IH; [done|]. simpl. intros c pc. rewrite dict_get_set.
  destruct (decide (c = nb)) as [->|?]; [|by apply He].
  intros [= <-]. apply Hnbs, list_elem_of_here.
Qed.

Lemma bfs_loop_edges fuel hexs start st c :
  bfs_edges hexs st.1.2 →
  bfs_loop fuel hexs start st = Return (Some c) →
  c ∈ _get_adjacent_hexagons hexs start.
Proof.
  revert st. induction fuel as [|fuel IH]; intros [[seen parent] queue] He;
    destruct queue as [|cur queue]; cbn [bfs_loop]; try done.
  - destruct (_ && _); [|done].
    destruct (bfs_backtrack _ _ _ _) as [r|] eqn:E; [|done].
    intros [= <-]. eapply He, bfs_backtrack_child, E.
  - destruct (_ && _).
    + destruct (bfs_backtrack _ _ _ _) as [r|] eqn:E; [|done].
      intros [= <-]. eapply He, bfs_backtrack_child, E.
    + apply IH. apply bfs_visit_edges; [|done]. by intros.
Qed.

(** The cells seen stay seen, with the same parent; the queue grows at
    its end. *)
Lemma bfs_visit_frame cur neighbors seen parent queue seen' parent' queue' :
  bfs_visit cur neighbors (seen, parent, queue) = (seen', parent', queue') →
  seen ⊆ seen'
  ∧ (∃ new, queue' = queue ++ new)
  ∧ (∀ c, c ∈ seen → Dict.get c parent' = Dict.get c parent).
Proof.
  unfold bfs_visit. revert seen parent queue.
  induction neighbors as [|nb neighbors IH]; intros seen parent queue; simpl.
  { intros [= <- <- <-]. split_and!; [done|by exists []; rewrite app_nil_r|done]. }
  destruct (bool_decide (nb ∈ seen)) eqn:Hs; [apply IH|].
  apply bool_decide_eq_false in Hs.
  intros (H1 & [new H2] & H3)%IH. split_and!.
  - intros c ?. apply H1. by apply elem_of_union_r.
  - exists ([nb] ++ new). by rewrite H2, <- app_assoc.
  - intros c Hc. rewrite H3 by (by apply elem_of_union_r).
    rewrite dict_get_set, decide_False; [done|]. by intros ->.
Qed.

(** Visiting cells not seen yet puts them all in the queue, with the
    current cell as parent. *)
Lemma bfs_visit_fresh cur l seen parent queue seen' parent' queue' :
  NoDup l → (∀ nb, nb ∈ l → nb ∉ seen) →
  bfs_visit cur l (seen, parent, queue) = (seen', parent', queue') →
  queue' = queue ++ l
  ∧ ∀ nb, nb ∈ l → nb ∈ seen' ∧ Dict.get nb parent' = Some (Some cur).
Proof.
  revert seen parent queue.
  induction l as [|x l IH]; intros seen parent queue Hnd Hfresh.
  { intros [= <- <- <-]. split; [by rewrite app_nil_r|]. by intros ? ?%elem_of_nil. }
  apply NoDup_cons in Hnd as [Hx Hnd].
  unfold bfs_visit. simpl.
  rewrite bool_decide_false by (apply Hfresh, list_elem_of_here).
  change (fold_left _ l ?s) with (bfs_visit cur l s). intros E.
  assert (∀ nb, nb ∈ l → nb ∉ ({[x]} ∪ seen : gset Coord)) as Hfresh'.
  { intros nb Hnb [->%elem_of_singleton|?]%elem_of_union; [done|].
    by eapply Hfresh; [apply list_elem_of_further|]. }
  destruct (IH _ _ _ Hnd Hfresh' E) as [H1 H2].
  split; [by rewrite H1, <- app_assoc|].
  intros nb [->|Hnb]%elem_of_cons; [|by apply H2].
  destruct (bfs_visit_frame _ _ _ _ _ _ _ _ E) as (F1 & _ & F3).
  assert (x ∈ ({[x]} ∪ seen : gset Coord)) as Hin
    by (apply elem_of_union_l; by apply elem_of_singleton).
  split; [by apply F1|]. rewrite F3 by done.
  by rewrite dict_get_set, decide_True.
Qed.

Lemma bfs_loop_first_unowned fuel hexs start seen parent l extra u r :
  (∀ nb, nb ∈ l →
     nb ≠ start ∧ nb ∈ seen ∧ Dict.get nb parent = Some (Some start)) →
  head (List.filter (unowned hexs) l) = Some u →
  bfs_loop fuel hexs start (seen, parent, l ++ extra) = Return r →
  r = Some u.
Proof.
  revert fuel seen parent extra.
  induction l as [|x l IH]; intros fuel seen parent extra Hl Hu; [done|].
  destruct (Hl x (list_elem_of_here _ _)) as (Hx1 & Hx2 & Hx3).
  assert (bfs_backtrack (length parent) parent start (Some x) = Return x) as Hb.
  { destruct (length parent); simpl; rewrite Hx3; by rewrite bool_decide_true. }
  simpl in Hu. fold (unowned hexs x) in *.
  change (bfs_loop fuel hexs start (seen, parent, (x :: l) ++ extra))
    with (bfs_loop fuel hexs start (seen, parent, x :: (l ++ extra))).
  destruct fuel as [|fuel]; cbn [bfs_loop]; fold (unowned hexs x);
    rewrite (bool_decide_true (x ≠ start)) by done; cbn [andb];
    destruct (unowned hexs x) eqn:Hux.
  - rewrite Hb. simpl in Hu. by intros [= <-]; injection Hu as ->.
  - done.
  - rewrite Hb. simpl in Hu. by intros [= <-]; injection Hu as ->.
  - destruct (bfs_visit x _ _) as [[seen' parent'] queue'] eqn:E.
    destruct (bfs_visit_frame _ _ _ _ _ _ _ _ E) as (F1 & [new ->] & F3).
    rewrite <- app_assoc.
    apply IH; [|done]. intros nb Hnb.
    destruct (Hl nb (list_elem_of_further _ _ _ Hnb)) as (? & ? & ?).
    split_and!; [done|by apply F1|]. by rewrite F3.
Qed.

Lemma adjacent_hexagons_NoDup hexs c : NoDup (_get_adjacent_hexagons hexs c).
Proof.
  unfold _get_adjacent_hexagons. apply NoDup_ListNoDup, List.NoDup_filter.
  apply NoDup_ListNoDup, NoDup_fmap_2_strong; [|].
  - intros [dq dr] [dq' dr'] _ _ [= ??]. f_equal; lia.
  - unfold directions. apply (bool_decide_unpack _). by vm_compute.
Qed.

Lemma find_nearest_unowned_unfold pid p g r :
  Dict.get pid (players g) = Some p →
  _find_nearest_unowned_for_player pid g = (Return r, g) →
  bfs_loop (bfs_bound (hexagons g)) (hexagons g) (p_position p)
    ({[p_position p]}, [(p_position p, None)], [p_position p]) = Return r.
Proof.
  intros Hp. unfold _find_nearest_unowned_for_player. do 2 run_step.
  destruct (bfs_loop _ _ _ _) as [r'|e]; [|done]. by intros [= ->].
Qed.

Lemma find_nearest_unowned_spec pid p g :
  Dict.get pid (players g) = Some p →
  ∃ r, _find_nearest_unowned_for_player pid g = (Return r, g)
       ∧ ∀ c, r = Some c →
           _is_adjacent (p_position p) c = true
           ∧ Dict.mem c (hexagons g) = true.
Proof.
  intros Hp. destruct (find_nearest_unowned_returns pid p g Hp) as [r Hr].
  exists r. split; [done|]. intros c ->.
  apply adjacent_hexagons_cases.
  eapply bfs_loop_edges; [|by eapply find_nearest_unowned_unfold].
  intros c' pc. simpl. by destruct (decide (c' = p_position p)).
Qed.

(** X2. The step chosen by [_find_nearest_unowned_for_player]: for a
    player of the game the search returns without raising and changes
    nothing, and a cell it returns is adjacent to the position of the
    player and on the board. *)
Theorem nearest_unowned_is_legal_step pid p g :
  Dict.get pid (players g) = Some p →
  ∃ r, _find_nearest_unowned_for_player pid g = (Return r, g)
       ∧ ∀ c, r = Some c →
           _is_adjacent (p_position p) c = true
           ∧ Dict.mem c (hexagons g) = true.
Proof. apply find_nearest_unowned_spec. Qed.

Lemma nearest_unowned_is_legal_step_witness :
  let p := default (new_player 1 (0, 0)) (Dict.get 1 (players fresh_game)) in
  ∃ r, _find_nearest_unowned_for_player 1 fresh_game = (Return r, fresh_game)
       ∧ ∀ c, r = Some c →
           _is_adjacent (p_position p) c = true
           ∧ Dict.mem c (hexagons fresh_game) = true.
Proof.
  intros p. apply nearest_unowned_is_legal_step. by vm_compute.
Defined.

Lemma unowned_owner_of g c :
  unowned (hexagons g) c = bool_decide (owner_of c g = Some None).
Proof.
  unfold unowned, owner_of. destruct (Dict.get c (hexagons g)) as [h|]; simpl.
  - apply bool_decide_ext. split; [by intros ->|by intros [= ->]].
  - done.
Qed.

Lemma bfs_loop_step fuel hexs start seen parent cur queue :
  bfs_loop (S fuel) hexs start (seen, parent, cur :: queue)
  = if bool_decide (cur ≠ start) && unowned hexs cur
    then match bfs_backtrack (length parent) parent start (Some cur) with
         | Return c => Return (Some c)
         | Raise e => Raise e
         end
    else bfs_loop fuel hexs start
           (bfs_visit cur (_get_adjacent_hexagons hexs cur) (seen, parent, queue)).
Proof. reflexivity. Qed.

(** X3. The search prefers a neighbour: when a cell next to the player
    is on the board and has no owner, the search returns the first such
    cell, in the order of the six directions. *)
Theorem nearest_unowned_prefers_neighbour pid p g u :
  Dict.get pid (players g) = Some p →
  head (List.filter (λ nb, bool_decide (owner_of nb g = Some None))
          (_get_adjacent_hexagons (hexagons g) (p_position p))) = Some u →
  _find_nearest_unowned_for_player pid g = (Return (Some u), g).
Proof.
  intros Hp Hu. destruct (find_nearest_unowned_returns pid p g Hp) as [r Hr].
  rewrite Hr. do 2 f_equal.
  pose proof (find_nearest_unowned_unfold pid p g r Hp Hr) as Hl.
  set (start := p_position p) in *. set (hexs := hexagons g) in *.
  unfold bfs_bound in Hl. rewrite bfs_loop_step in Hl.
  rewrite (bool_decide_false (start ≠ start)) in Hl by (by intros []).
  cbn [andb] in Hl.
  destruct (bfs_visit start _ _) as [[seen' parent'] queue'] eqn:E.
  apply bfs_visit_fresh in E as [-> Hq].
  - cbn [app] in Hl. rewrite <- (app_nil_r (_get_adjacent_hexagons _ _)) in Hl.
    eapply bfs_loop_first_unowned; [| |exact Hl].
    + intros nb Hnb. destruct (Hq nb Hnb) as [? ?]. split_and!; [|done..].
      intros ->. apply adjacent_hexagons_cases in Hnb as [Ha _].
      by rewrite adjacent_irrefl in Ha.
    + rewrite <- Hu. f_equal. apply filter_ext. intros nb.
      apply unowned_owner_of.
  - apply adjacent_hexagons_NoDup.
  - intros nb Hnb ->%elem_of_singleton.
    apply adjacent_hexagons_cases in Hnb as [Ha _].
    by rewrite adjacent_irrefl in Ha.
Qed.

Lemma nearest_unowned_prefers_neighbour_witness :
  _find_nearest_unowned_for_player 1 fresh_game
  = (Return (Some (1, -4)), fresh_game).
Proof.
  apply (nearest_unowned_prefers_neighbour 1
           (default (new_player 1 (0, 0)) (Dict.get 1 (players fresh_game)))).
  - by vm_compute.
  - by vm_compute.
Defined.

(** ** Moves *)



(** ** A claim on a cell the player owns *)



(** X5. CLAIM_TERRITORY on a cell the player already owns, when the
    search finds no step or the player has less than 2 energy: the
    method returns the ['Already owned'] result and changes nothing. *)
Theorem claim_on_owned_cell_stalls g pid p h data :
  Dict.get pid (players g) = Some p →
  Dict.get (p_position p) (hexagons g) = Some h →
  c_owner h = Some pid ∨ p_position p ∈ p_territories p →
  fst (_find_nearest_unowned_for_player pid g) = Return None ∨ p_energy p < 2 →
  _action_claim_territory pid data g
  = (Return [("action", VStr "claim_territory"); ("success", VBool false);
             ("error", VStr "Already owned");
             ("error_code", VStr "already_owned");
             ("position", VCoord (p_position p));
             ("territories", VLen (p_territories p));
             ("income", VInt (p_territory_income p));
             ("energy", VInt (p_energy p))], g).
Proof.
  intros Hp Hh Hown Hstall.
  destruct (find_nearest_unowned_spec pid p g Hp) as (r & Hr & _).
  unfold _action_claim_territory. do 2 run_step.
  assert (bool_decide (c_owner h = Some pid)
          || bool_decide (p_position p ∈ p_territories p) = true) as ->.
  { destruct Hown; [rewrite bool_decide_true by done; done|].
    rewrite (bool_decide_true (_ ∈ _)) by done. apply orb_true_r. }
  unfold auto_move. rewrite (run_bind_return _ _ _ _ _ Hr). run_step.
  rewrite Hr in Hstall. destruct r as [t|].
  - destruct Hstall as [|Hlt]; [done|].
    rewrite bool_decide_false by lia. by run_step.
  - by run_step.
Qed.

Lemma claim_on_owned_cell_stalls_witness :
  (p_energy <$> Dict.get 1 (players exhausted_owner)) = Some 1
  ∧ snd (_action_claim_territory 1 None exhausted_owner) = exhausted_owner.
Proof.
  split; [by vm_compute|].
  rewrite (claim_on_owned_cell_stalls exhausted_owner 1
             (default (new_player 1 (0, 0)) (Dict.get 1 (players exhausted_owner)))
             (Build_Cell NORMAL (Some 1) 0 false) None);
    [reflexivity | by vm_compute | by vm_compute | by left
    | right; by vm_compute].
Defined.

(** ** The engine keeps pointwise preorders, update by update

    The same as above with one stability hypothesis for each kind of
    update the engine performs, so that a relation may depend on what an
    update writes: a status written by the engine is never ALIVE, health
    is lowered by a non-negative amount, counters are incremented. *)

Section engine_steps.
Context (Rp : Player → Player → Prop) (Rc : Cell → Cell → Prop).
Context `{!PreOrder Rp, !PreOrder Rc}.

#[local] Abbreviation R := (mono Rp Rc).

Create HintDb steps discriminated.

Hypothesis Rp_vision_range : ∀ v p, Rp p (set_vision_range v p).
Hypothesis Rp_visible_hexagons : ∀ v p, Rp p (set_visible_hexagons v p).
Hypothesis Rp_visible_players : ∀ v p, Rp p (set_visible_players v p).
Hypothesis Rp_position : ∀ v p, Rp p (set_position v p).
Hypothesis Rp_energy_sub : ∀ k p, Rp p (set_energy (p_energy p - k) p).
Hypothesis Rp_energy_strike : ∀ p, Rp p (set_energy (Z.max 0 (p_energy p - 1)) p).
Hypothesis Rp_energy_clamp : ∀ p, Rp p (set_energy (Z.max 0 (p_energy p)) p).
Hypothesis Rp_energy_gain :
  ∀ k p, Rp p (set_energy (Z.min (p_max_energy p) (p_energy p + k)) p).
Hypothesis Rp_health_sub : ∀ k p, 0 ≤ k → Rp p (set_health (p_health p - k) p).
Hypothesis Rp_health_rest : ∀ p, Rp p (set_health (Z.min 100 (p_health p + 10)) p).
Hypothesis Rp_shield_hit : ∀ d p, Rp p (set_shield (Z.max 0 (p_shield p - d)) p).
Hypothesis Rp_shield_rest :
  ∀ k p, Rp p (set_shield (Z.min 20 (p_shield p + k)) p).
Hypothesis Rp_status : ∀ s p, s ≠ ALIVE → Rp p (set_status (StatusEnum s) p).
Hypothesis Rp_disqualify :
  ∀ p, Rp p (set_status (StatusStr (PlayerStatus_value ELIMINATED)) p).
Hypothesis Rp_alive_key : ∀ p, Rp p (set_alive (Some false) p).
Hypothesis Rp_progress : ∀ v p, Rp p (set_ctf_progress v p).
Hypothesis Rp_hint_push :
  ∀ h p, Rp p (set_ctf_hints (p_ctf_hints p ++ [h]) p).
Hypothesis Rp_hint_pop :
  ∀ p, Rp p (set_ctf_hints (removelast (p_ctf_hints p)) p).
Hypothesis Rp_attempt : ∀ p, Rp p (set_ctf_attempts (p_ctf_attempts p + 1) p).
Hypothesis Rp_kill : ∀ p, Rp p (set_kills (p_kills p + 1) p).
Hypothesis Rp_action_taken :
  ∀ p, Rp p (set_actions_taken (p_actions_taken p + 1) p).
Hypothesis Rp_territory :
  ∀ c p, Rp p (set_territories (p_territories p ++ [c]) p).
Hypothesis Rp_income :
  ∀ p, Rp p (set_territory_income (p_territory_income p + 1) p).
Hypothesis Rp_idle_reset : ∀ p, Rp p (set_idle_streak 0 p).
Hypothesis Rp_idle_more : ∀ p, Rp p (set_idle_streak (p_idle_streak p + 1) p).
Hypothesis Rp_track : ∀ a p, Rp p (track_action a p).
Hypothesis Rp_objective : ∀ p, Rp p (set_since_objective 0 p).
Hypothesis Rp_no_objective :
  ∀ p, Rp p (set_since_objective (p_since_objective p + 1) p).
Hypothesis Rp_seen :
  ∀ k p, Rp p (set_seen_tiles ({[k]} ∪ p_seen_tiles p) p).
Hypothesis Rp_defend : ∀ p, Rp p (set_defending true p).
Hypothesis Rp_strikes_default :
  ∀ p, Rp p (set_bad_moves (Some (bad_moves_of p)) p).
Hypothesis Rp_strike : ∀ p, Rp p (set_bad_moves (Some (bad_moves_of p + 1)) p).
Hypothesis Rp_strikes_reset : ∀ p, Rp p (set_bad_moves (Some 0) p).
Hypothesis Rc_owner : ∀ v h, Rc h (set_owner v h).
Hypothesis Rc_consumed : ∀ h, Rc h (set_bonus_consumed true h).

#[local] Ltac update :=
  cbv beta zeta;
  first [ apply Rp_vision_range | apply Rp_visible_hexagons
        | apply Rp_visible_players | apply Rp_position
        | apply Rp_energy_strike | apply Rp_energy_clamp
        | apply Rp_energy_gain | apply Rp_energy_sub
        | apply Rp_health_rest | apply Rp_health_sub; lia
        | apply Rp_shield_hit | apply Rp_shield_rest
        | apply Rp_status;
            first [ discriminate
                  | match goal with |- context [if ?b then _ else _] =>
                      by destruct b end ]
        | apply Rp_disqualify | apply Rp_alive_key | apply Rp_progress
        | apply Rp_hint_push | apply Rp_hint_pop | apply Rp_attempt
        | apply Rp_kill | apply Rp_action_taken | apply Rp_territory
        | apply Rp_income | apply Rp_idle_reset | apply Rp_idle_more
        | apply Rp_track | apply Rp_objective | apply Rp_no_objective
        | apply Rp_seen | apply Rp_defend | apply Rp_strikes_default
        | apply Rp_strike | apply Rp_strikes_reset
        | apply Rc_owner | apply Rc_consumed ].

#[local] Ltac go :=
  repeat (first [ preserves_step | solve [eauto with steps] | update ]).

Lemma update_vision_steps pid : preserves R (_update_vision pid).
Proof. unfold _update_vision. go. Qed.
#[local] Hint Resolve update_vision_steps : steps.

Lemma apply_storm_steps : preserves R _apply_storm.
Proof. unfold _apply_storm. go. Qed.
#[local] Hint Resolve apply_storm_steps : steps.

Lemma apply_idle_tax_steps pid b : preserves R (_apply_idle_tax pid b).
Proof. unfold _apply_idle_tax. go. Qed.
#[local] Hint Resolve apply_idle_tax_steps : steps.

Lemma get_alive_players_steps : preserves R get_alive_players.
Proof. unfold get_alive_players. go. Qed.
#[local] Hint Resolve get_alive_players_steps : steps.

Lemma declare_winner_steps pid timeout : preserves R (_declare_winner pid timeout).
Proof. unfold _declare_winner. go. Qed.
#[local] Hint Resolve declare_winner_steps : steps.

Lemma eliminate_player_steps pid reason :
  preserves R (eliminate_player pid reason).
Proof.
  unfold eliminate_player. go.
Qed.
#[local] Hint Resolve eliminate_player_steps : steps.

Lemma timeout_elimination_steps pid : preserves R (timeout_elimination pid).
Proof.
  unfold timeout_elimination. go.
Qed.
#[local] Hint Resolve timeout_elimination_steps : steps.

Lemma check_eliminations_steps : preserves R _check_eliminations.
Proof.
  unfold _check_eliminations. go.
Qed.
#[local] Hint Resolve check_eliminations_steps : steps.

Lemma find_nearest_steps pid :
  preserves R (_find_nearest_unowned_for_player pid).
Proof. unfold _find_nearest_unowned_for_player. go. Qed.
#[local] Hint Resolve find_nearest_steps : steps.

Lemma bad_move_steps pid e err : preserves R (bad_move pid e err).
Proof. unfold bad_move. go. Qed.
#[local] Hint Resolve bad_move_steps : steps.

Lemma action_move_steps pid data : preserves R (_action_move pid data).
Proof.
  unfold _action_move. go.
Qed.
#[local] Hint Resolve action_move_steps : steps.

Lemma auto_move_steps pid reason original otherwise :
  preserves R otherwise →
  preserves R (auto_move pid reason original otherwise).
Proof.
  intros. unfold auto_move. go.
Qed.
#[local] Hint Resolve auto_move_steps : steps.

Lemma action_attack_steps pid data :
  preserves R (_action_attack_player pid data).
Proof.
  unfold _action_attack_player. go.
Qed.
#[local] Hint Resolve action_attack_steps : steps.

Lemma validate_flag_steps pid f : preserves R (validate_flag pid f).
Proof. unfold validate_flag. go. Qed.
#[local] Hint Resolve validate_flag_steps : steps.

Lemma unlock_hint_steps pid t k : preserves R (unlock_hint pid t k).
Proof. unfold unlock_hint. go. Qed.
#[local] Hint Resolve unlock_hint_steps : steps.

Lemma action_solve_steps env pid data :
  preserves R (_action_solve_ctf env pid data).
Proof.
  unfold _action_solve_ctf. go.
Qed.
#[local] Hint Resolve action_solve_steps : steps.

Lemma action_claim_steps pid data :
  preserves R (_action_claim_territory pid data).
Proof.
  unfold _action_claim_territory. repeat (go; try apply auto_move_steps).
Qed.
#[local] Hint Resolve action_claim_steps : steps.

Lemma rest_recover_steps pid : preserves R (rest_recover pid).
Proof. unfold rest_recover. go. Qed.
#[local] Hint Resolve rest_recover_steps : steps.

Lemma action_rest_steps pid data : preserves R (_action_rest pid data).
Proof.
  unfold _action_rest. repeat (go; try apply auto_move_steps).
Qed.
#[local] Hint Resolve action_rest_steps : steps.

Lemma scout_area_steps pid pos nbs : preserves R (scout_area pid pos nbs).
Proof.
  unfold scout_area. go.
Qed.
#[local] Hint Resolve scout_area_steps : steps.

Lemma action_scout_steps pid data : preserves R (_action_scout pid data).
Proof.
  unfold _action_scout. repeat (go; try apply auto_move_steps).
Qed.
#[local] Hint Resolve action_scout_steps : steps.

Lemma action_defend_steps pid data : preserves R (_action_defend pid data).
Proof. unfold _action_defend. go. Qed.
#[local] Hint Resolve action_defend_steps : steps.

Lemma action_steal_steps env pid data :
  preserves R (_action_steal_progress env pid data).
Proof.
  unfold _action_steal_progress. go.
Qed.
#[local] Hint Resolve action_steal_steps : steps.

Lemma read_alive_steps p : preserves R (read_alive p).
Proof. unfold read_alive. go. Qed.
#[local] Hint Resolve read_alive_steps : steps.

Lemma validate_action_steps env pid action data :
  preserves R (validate_action env pid action data).
Proof. unfold validate_action. go. Qed.
#[local] Hint Resolve validate_action_steps : steps.

Lemma start_game_steps now : preserves R (start_game now).
Proof. unfold start_game. go. Qed.

Lemma rank_on_timeout_steps : preserves R _rank_on_timeout.
Proof. unfold _rank_on_timeout. go. Qed.

Lemma status_value_steps st : preserves R (status_value st).
Proof. unfold status_value. go. Qed.
#[local] Hint Resolve status_value_steps : steps.

Lemma player_state_steps e : preserves R (player_state e).
Proof. unfold player_state. go. Qed.
#[local] Hint Resolve player_state_steps : steps.

Lemma get_game_state_steps now : preserves R (get_game_state now).
Proof. unfold get_game_state. go. Qed.
#[local] Hint Resolve get_game_state_steps : steps.

(** Resolution keeps the relation as soon as the action itself does. *)
Lemma execute_action_steps env pid action data :
  preserves R (action_func env action pid data) →
  preserves R (_execute_action env pid action data).
Proof. intros. unfold _execute_action. go. Qed.

Lemma execute_turn_steps env pid action data :
  preserves R (action_func env action pid data) →
  preserves R (execute_turn env pid action data).
Proof.
  intros. pose proof (execute_action_steps _ _ _ _ H).
  unfold execute_turn. go.
Qed.

(** Every action but [STEAL_PROGRESS] and [SOLVE_CTF]. *)
Lemma action_func_steps_plain env action pid data :
  action ≠ STEAL_PROGRESS → action ≠ SOLVE_CTF →
  preserves R (action_func env action pid data).
Proof. intros. destruct action; simpl; try done; eauto with steps. Qed.

(** Every action but [STEAL_PROGRESS]. *)
Lemma action_func_steps_no_steal env action pid data :
  action ≠ STEAL_PROGRESS →
  preserves R (action_func env action pid data).
Proof. intros. destruct action; simpl; try done; eauto with steps. Qed.

Lemma action_func_steps env action pid data :
  preserves R (action_func env action pid data).
Proof. destruct action; simpl; eauto with steps. Qed.

Lemma execute_turn_steps_all env pid action data :
  preserves R (execute_turn env pid action data).
Proof. apply execute_turn_steps, action_func_steps. Qed.
#[local] Hint Resolve execute_turn_steps_all : steps.

Lemma run_call_steps c g : R g (run_call c g).
Proof.
  destruct c; simpl.
  - apply start_game_steps.
  - apply execute_turn_steps_all.
  - apply get_game_state_steps.
  - apply get_alive_players_steps.
  - by apply mono_same.
Qed.

Lemma run_calls_steps calls g : R g (run_calls calls g).
Proof.
  revert g. induction calls as [|c calls IH]; intros g; simpl.
  - reflexivity.
  - etrans; [apply run_call_steps|apply IH].
Qed.
End engine_steps.

(** ** Elimination is final *)

#[global] Instance stays_out_preorder : PreOrder stays_out.
Proof. split; unfold stays_out; [intros ?|intros ???]; auto. Qed.

Lemma stays_out_run_calls calls g :
  mono stays_out any_cell g (run_calls calls g).
Proof.
  apply run_calls_steps; try apply _; try stable.
  intros s p Hs _. cbn. by apply bool_decide_eq_false.
Qed.

(** X6. Elimination is final.  Once the status of a player is not
    [PlayerStatus.ALIVE], no sequence of calls of the engine makes it
    ALIVE again, and every further turn of that player is refused with
    an error and changes nothing. *)
Theorem elimination_is_final calls g pid p env action data :
  Dict.get pid (players g) = Some p →
  status_is ALIVE (p_status p) = false →
  let g' := run_calls calls g in
  (∃ p', Dict.get pid (players g') = Some p'
         ∧ status_is ALIVE (p_status p') = false)
  ∧ ∃ msg rest,
      execute_turn env pid action data g'
      = (Return (("error", VStr msg) :: rest), g').
Proof.
  intros Hp Ha g'.
  destruct (stays_out_run_calls calls g) as (Hps & _).
  destruct (Hps _ _ Hp) as (p' & Hp' & Hout). fold g' in Hp'.
  specialize (Hout Ha). split; [by exists p'|].
  unfold execute_turn. run_step. unfold id.
  destruct (game_over g'); [by eexists _, _|].
  rewrite Hp', Hout. by eexists _, _.
Qed.

Lemma elimination_is_final_witness :
  let g := snd (eliminate_player 2 "combat" fresh_game) in
  ∃ msg rest,
    execute_turn calm_env 2 REST None (run_calls [plays 1 REST] g)
    = (Return (("error", VStr msg) :: rest), run_calls [plays 1 REST] g).
Proof.
  intros g.
  apply (elimination_is_final [plays 1 REST] g 2
           (default (new_player 2 (0, 0)) (Dict.get 2 (players g)))
           calm_env REST None); by vm_compute.
Defined.

(** ** What the engine never takes back, and what it never touches *)

#[global] Instance records_grow_preorder : PreOrder records_grow.
Proof.
  split.
  - intros p. unfold records_grow. split_and!; try done; lia.
  - intros p1 p2 p3 (?&?&?&?&?&?) (?&?&?&?&?&?). unfold records_grow.
    split_and!; try lia; by etrans.
Qed.

Lemma records_grow_run_calls calls g :
  mono records_grow any_cell g (run_calls calls g).
Proof.
  apply run_calls_steps; try apply _; try done;
    try (intros; hnf; unfold track_action; cbn; split_and!; done || lia).
  - intros c p. hnf. cbn. split_and!; try done; try lia. by apply prefix_app_r.
  - intros k p. hnf. cbn. split_and!; try done; try lia.
    apply union_subseteq_r.
Qed.

(** X13. The engine takes nothing back from the records of a player:
    whatever calls it receives, the kills, the attempts at the
    challenge, the actions taken and the territory income never
    decrease, the list of territories is only extended at its end (also
    when the player is eliminated and its cells are released) and the
    set of tiles seen only grows. *)
Theorem records_only_grow calls g pid p :
  Dict.get pid (players g) = Some p →
  ∃ p', Dict.get pid (players (run_calls calls g)) = Some p'
        ∧ p_kills p ≤ p_kills p'
        ∧ p_ctf_attempts p ≤ p_ctf_attempts p'
        ∧ p_actions_taken p ≤ p_actions_taken p'
        ∧ p_territory_income p ≤ p_territory_income p'
        ∧ p_territories p `prefix_of` p_territories p'
        ∧ p_seen_tiles p ⊆ p_seen_tiles p'.
Proof.
  intros Hp. destruct (records_grow_run_calls calls g) as (Hps & _).
  destruct (Hps _ _ Hp) as (p' & ? & ?). by exists p'.
Qed.

(** Player 1 claims its cell and is then eliminated: the cell is
    released and stays in its list of territories. *)
Lemma records_only_grow_witness :
  let g := run_calls [plays 1 CLAIM_TERRITORY] fresh_game in
  let p := default (new_player 1 (0, 0)) (Dict.get 1 (players g)) in
  p_territories p = [(0, -4)]
  ∧ owner_of (0, -4) (run_calls [call_execute_turn (Build_Env 400 (JudgeFailed "") 1 7 0.25) 1 REST None]
                        (snd (start_game 1 g))) = Some None
  ∧ ∃ p', Dict.get 1 (players
            (run_calls [call_start_game 1;
                        call_execute_turn (Build_Env 400 (JudgeFailed "") 1 7 0.25)
                          1 REST None] g)) = Some p'
          ∧ p_kills p ≤ p_kills p'
          ∧ p_ctf_attempts p ≤ p_ctf_attempts p'
          ∧ p_actions_taken p ≤ p_actions_taken p'
          ∧ p_territory_income p ≤ p_territory_income p'
          ∧ p_territories p `prefix_of` p_territories p'
          ∧ p_seen_tiles p ⊆ p_seen_tiles p'.
Proof.
  intros g p. split; [by vm_compute|]. split; [by vm_compute|].
  apply records_only_grow. by vm_compute.
Defined.

#[global] Instance stats_fixed_preorder : PreOrder stats_fixed.
Proof.
  split.
  - intros p. unfold stats_fixed. by split_and!.
  - intros p1 p2 p3 (?&?&?&?&?&?&?) (?&?&?&?&?&?&?). unfold stats_fixed.
    split_and!; try congruence. auto.
Qed.

#[global] Instance terrain_fixed_preorder : PreOrder terrain_fixed.
Proof.
  split; unfold terrain_fixed; [intros ?|intros ??? [??] [??]];
    split; congruence.
Qed.

Lemma stats_fixed_run_calls calls g :
  mono stats_fixed terrain_fixed g (run_calls calls g).
Proof.
  apply run_calls_steps; try apply _; try done;
    intros; hnf; unfold track_action; cbn; split_and!; done || lia.
Qed.

(** X14. What no call of the engine changes: the id, the name, the
    colour, the maximal energy, the attack power and the defense power
    of a player, and the type and the defense of a cell; and a health of
    at most 100 stays at most 100. *)
Theorem stats_and_terrain_are_fixed calls g :
  (∀ pid p, Dict.get pid (players g) = Some p →
     ∃ p', Dict.get pid (players (run_calls calls g)) = Some p'
           ∧ p_id p' = p_id p ∧ p_name p' = p_name p ∧ p_color p' = p_color p
           ∧ p_max_energy p' = p_max_energy p
           ∧ p_attack_power p' = p_attack_power p
           ∧ p_defense_power p' = p_defense_power p
           ∧ (p_health p ≤ 100 → p_health p' ≤ 100))
  ∧ (∀ c h, Dict.get c (hexagons g) = Some h →
       ∃ h', Dict.get c (hexagons (run_calls calls g)) = Some h'
             ∧ c_type h' = c_type h ∧ c_defense h' = c_defense h).
Proof.
  destruct (stats_fixed_run_calls calls g) as (Hps & Hcs & _). split.
  - intros pid p Hp. destruct (Hps _ _ Hp) as (p' & ? & ?). by exists p'.
  - intros c h Hc. destruct (Hcs _ _ Hc) as (h' & ? & ?). by exists h'.
Qed.

Lemma stats_and_terrain_are_fixed_witness :
  ∃ h', Dict.get (1, -4) (hexagons (run_calls [moves_to 1 (1, -4)] rich_game))
        = Some h'
        ∧ c_type h' = RESOURCE ∧ c_defense h' = 0.
Proof.
  apply (proj2 (stats_and_terrain_are_fixed [moves_to 1 (1, -4)] rich_game)
           (1, -4) (new_cell RESOURCE)).
  by vm_compute.
Defined.

(** ** Reading the state *)

Lemma status_value_run st g :
  status_value st g
  = (match st with
     | StatusEnum s => Return (VStr (PlayerStatus_value s))
     | StatusStr _ => Raise (AttributeError "'str' object has no attribute 'value'")
     end, g).
Proof. by destruct st. Qed.

Lemma player_states_pure l g : snd (map_M player_state l g) = g.
Proof.
  induction l as [|e l IH]; [done|]. simpl. rewrite run_bind.
  unfold player_state at 1. rewrite run_bind, status_value_run.
  destruct (p_status e.2); [|done]. cbn [mret M_ret]. rewrite run_bind.
  destruct (map_M player_state l g) as [[vs|err] g'] eqn:E; simpl in *;
    by subst.
Qed.

Lemma player_states_return l g :
  (∀ e, e ∈ l → ∃ s, p_status e.2 = StatusEnum s) →
  ∃ vs, map_M player_state l g = (Return vs, g).
Proof.
  induction l as [|e l IH]; intros Hl; [by eexists|].
  destruct (Hl e (list_elem_of_here _ _)) as [s Hs].
  destruct IH as [vs Hvs].
  { intros e' ?. apply Hl. by apply list_elem_of_further. }
  simpl. rewrite run_bind. unfold player_state at 1.
  rewrite run_bind, status_value_run, Hs. cbn [mret M_ret].
  rewrite run_bind, Hvs. by eexists.
Qed.

Lemma get_game_state_pure now g : snd (get_game_state now g) = g.
Proof.
  unfold get_game_state. run_step. unfold id. rewrite run_bind.
  pose proof (player_states_pure (players g) g) as H.
  destruct (map_M player_state (players g) g) as [[vs|err] g'];
    simpl in H; subst g'; [|done].
  unfold get_alive_players. by do 2 run_step.
Qed.

(** X7. [get_game_state] only reads: it never changes the game, and it
    returns a state exactly when the status of every player is a member
    of [PlayerStatus] (otherwise it raises on [p['status'].value]). *)
Theorem get_game_state_reads_only now g :
  snd (get_game_state now g) = g
  ∧ ((∃ st, fst (get_game_state now g) = Return st)
     ↔ ∀ e, e ∈ players g → ∃ s, p_status e.2 = StatusEnum s).
Proof.
  split; [apply get_game_state_pure|]. split.
  - intros [st Hst] e He. destruct (p_status e.2) as [s|s] eqn:Hs; [by exists s|].
    unfold get_game_state in Hst. revert Hst. run_step. rewrite run_bind.
    by rewrite (player_states_raise _ _ e s He Hs).
  - intros Hall. destruct (player_states_return (players g) g Hall) as [vs Hvs].
    unfold get_game_state. run_step. unfold id.
    rewrite (run_bind_return _ _ _ _ _ Hvs).
    unfold get_alive_players. do 2 run_step. by eexists.
Qed.

(** ** A finished game *)

Lemma game_over_turn env pid action data g :
  game_over g = true →
  execute_turn env pid action data g
  = (Return [("error", VStr "Game is over"); ("winner", VOptInt (winner g))], g).
Proof. intros H. unfold execute_turn. run_step. unfold id. by rewrite H. Qed.

(** X8. A finished game is frozen: once [game_over] is set, every turn
    is refused with ['Game is over'] and the winner on record, and no
    sequence of turns and reads changes anything in the game. *)
Theorem finished_game_is_frozen calls g env pid action data :
  game_over g = true →
  forallb playing_call calls = true →
  run_calls calls g = g
  ∧ execute_turn env pid action data (run_calls calls g)
    = (Return [("error", VStr "Game is over"); ("winner", VOptInt (winner g))], g).
Proof.
  intros Hover Hcalls.
  assert (run_calls calls g = g) as ->.
  { induction calls as [|c calls IH]; [done|]. simpl in *.
    apply andb_true_iff in Hcalls as [Hc Hcalls].
    assert (run_call c g = g) as ->; [|by apply IH].
    destruct c; simpl in *; try done.
    - by rewrite game_over_turn.
    - apply get_game_state_pure. }
  split; [done|]. by apply game_over_turn.
Qed.

Lemma finished_game_is_frozen_witness :
  let g := snd (_declare_winner 3 false fresh_game) in
  run_calls [plays 1 REST; call_get_game_state 2; plays 3 DEFEND] g = g.
Proof.
  intros g.
  apply (finished_game_is_frozen
           [plays 1 REST; call_get_game_state 2; plays 3 DEFEND] g
           calm_env 1 REST None); by vm_compute.
Defined.

(** ** Turns that the judge blocks *)

(** X9. A turn the judge declares illegal is not played: when the
    language model answers and its verdict is not [true] (it is [false],
    or the answer has no ['legal'] entry), [execute_turn] returns the
    ['Illegal move blocked by Green Agent'] result, and the only change
    in the game is the verdict appended to the validation history: no
    energy is spent, no turn is counted, nothing is added to the action
    history. *)
Theorem illegal_verdict_blocks_turn env pid action data g p legal reasoning :
  game_over g = false →
  Dict.get pid (players g) = Some p →
  status_is ALIVE (p_status p) = true →
  time_limit_reached g (now env) = false →
  judge env = JudgeAnswered legal reasoning →
  legal ≠ Some true →
  ∃ verdict,
    execute_turn env pid action data g
    = (Return [("error", VStr "Illegal move blocked by Green Agent");
               ("success", VBool false);
               ("validation", VDict verdict);
               ("action", VStr (ActionType_value action))],
       set_validation_history (validation_history g ++ [verdict]) g)
    ∧ Dict.get "legal" verdict = Some (VBool false)
    ∧ Dict.get "player_id" verdict = Some (VInt pid)
    ∧ Dict.get "round" verdict = Some (VInt (round_number g)).
Proof.
  intros Hover Hp Ha Ht Hj Hl. unfold execute_turn. run_step. unfold id.
  rewrite Hp, Ha, Ht. cbn [negb].
  destruct (game_over g) eqn:Hg; [done|]. clear Hover.
  unfold validate_action. rewrite Hj. repeat run_step.
  assert (default false legal = false) as ->.
  { destruct legal as [[]|]; done. }
  assert (∀ a b c d e f : Val,
            Dict.get "legal"
              [("player_id", a); ("action", b); ("legal", c);
               ("reasoning", d); ("timestamp", e); ("round", f)] = Some c)
    as -> by reflexivity.
  cbn [default truthy negb from_option]. rewrite ?Hg.
  eexists. split; [reflexivity|]. done.
Qed.

Lemma illegal_verdict_blocks_turn_witness :
  let env := Build_Env 1 (JudgeAnswered None None) 1 7 0.25 in
  players (snd (execute_turn env 1 SOLVE_CTF None fresh_game)) = players fresh_game
  ∧ turn_number (snd (execute_turn env 1 SOLVE_CTF None fresh_game)) = 0.
Proof.
  intros env.
  destruct (illegal_verdict_blocks_turn env 1 SOLVE_CTF None fresh_game
              (default (new_player 1 (0, 0)) (Dict.get 1 (players fresh_game)))
              None None) as (verdict & E & _);
    [reflexivity | by vm_compute | by vm_compute | reflexivity
    | reflexivity | done |].
  rewrite E. split; reflexivity.
Defined.

(** ** Energy checks *)

Lemma dict_alter_same {K V} `{EqDecision K} (f : V → V) (k : K) v d :
  Dict.get k d = Some v → f v = v → Dict.alter f k d = d.
Proof.
  induction d as [|[k0 v0] d IH]; simpl; [done|].
  destruct (decide (k = k0)) as [->|?].
  - by intros [= ->] ->.
  - intros ??. by rewrite IH.
Qed.

Lemma set_players_same g : set_players (players g) g = g.
Proof. by destruct g. Qed.

Lemma clamp_energy_same pid p g :
  Dict.get pid (players g) = Some p → 0 ≤ p_energy p →
  set_players
    (Dict.alter (λ p, set_energy (Z.max 0 (p_energy p)) p) pid (players g)) g
  = g.
Proof.
  intros Hp He. rewrite (dict_alter_same _ _ _ _ Hp); [apply set_players_same|].
  destruct p. unfold set_energy. cbn in *. f_equal. lia.
Qed.

(** What [_action_steal_progress] returns without touching anything. *)
Lemma steal_refused env pid p data g :
  Dict.get pid (players g) = Some p → p_energy p < 6 →
  ∃ msg, _action_steal_progress env pid data g
         = (Return (error_result msg), g).
Proof.
  intros Hp He. unfold _action_steal_progress. run_step.
  destruct (data_field d_target_player data) as [t|]; [|by eexists].
  run_step. destruct (Dict.get t (players g)) as [pt|]; [|by eexists].
  destruct (negb (status_is ALIVE (p_status pt))); [by eexists|].
  destruct (negb (_is_adjacent _ _)); [by eexists|].
  rewrite bool_decide_true by done. by eexists.
Qed.

(** X10. STEAL_PROGRESS needs 6 energy although its cost in the table of
    [_get_action_cost] is 4: with 4 or 5 energy the pre-check of
    [_execute_action] lets the action through, the action itself refuses
    it, and the resolution returns an error without spending anything. *)
Theorem steal_needs_six_energy env pid p data g :
  Dict.get pid (players g) = Some p →
  _get_action_cost STEAL_PROGRESS ≤ p_energy p < 6 →
  ∃ msg, _execute_action env pid STEAL_PROGRESS data g
         = (Return (error_result msg), g).
Proof.
  intros Hp [He1 He2]. simpl in He1.
  destruct (steal_refused env pid p data g Hp He2) as [msg Hs].
  exists msg. unfold _execute_action. run_step.
  rewrite (bool_decide_false (p_energy p < _)) by (simpl; lia).
  rewrite andb_false_r. cbn [action_func].
  rewrite (run_bind_return _ _ _ _ _ Hs). do 2 run_step.
  rewrite bool_decide_false by lia. run_step.
  cbn [mret M_ret]. f_equal. apply (clamp_energy_same pid p); [done|lia].
Qed.

Lemma steal_needs_six_energy_witness :
  let g := run_calls [plays 2 SOLVE_CTF; plays 2 SOLVE_CTF] duel in
  (p_energy <$> Dict.get 2 (players g)) = Some 5
  ∧ ∃ msg, _execute_action calm_env 2 STEAL_PROGRESS (targets 1) g
           = (Return (error_result msg), g).
Proof.
  intros g. split; [by vm_compute|].
  apply (steal_needs_six_energy calm_env 2
           (default (new_player 2 (0, 0)) (Dict.get 2 (players g)))).
  - by vm_compute.
  - by vm_compute.
Defined.

(** ** Attacks that are refused *)

(** X11. DEFEND protects for the rest of the match.  Once a player has
    its defending flag set, whatever calls the engine receives
    afterwards, an attack on that player never succeeds: it is refused
    (target not alive, not adjacent, or defending) and changes nothing,
    the attacker keeping its energy. *)
Theorem defended_player_is_immune calls g t pt a pa data :
  Dict.get t (players g) = Some pt →
  p_defending pt = true →
  Dict.get a (players g) = Some pa →
  data_field d_target_player data = Some t →
  let g' := run_calls calls g in
  ∃ res, _action_attack_player a data g' = (Return res, g')
         ∧ Dict.get "success" res = Some (VBool false).
Proof.
  intros Ht Hd Ha Hdata g'.
  destruct (run_calls_keeps defending_stays any_cell
              ltac:(stable) ltac:(stable) ltac:(stable) ltac:(stable)
              ltac:(stable) ltac:(stable) ltac:(stable) ltac:(stable)
              ltac:(stable) calls g) as (Hps & _).
  destruct (Hps _ _ Ht) as (pt' & Ht' & Hd').
  destruct (Hps _ _ Ha) as (pa' & Ha' & _). fold g' in Ht', Ha'.
  specialize (Hd' Hd).
  unfold _action_attack_player. run_step. rewrite Hdata. run_step.
  rewrite Ht'.
  destruct (negb (status_is ALIVE (p_status pt'))); [by eexists|].
  destruct (negb (_is_adjacent _ _)); [by eexists|].
  rewrite Hd'. by eexists.
Qed.

Lemma defended_player_is_immune_witness :
  let g := run_calls [plays 1 DEFEND] duel in
  ∃ res, _action_attack_player 2 (targets 1) (run_calls [plays 2 REST] g)
         = (Return res, run_calls [plays 2 REST] g)
         ∧ Dict.get "success" res = Some (VBool false).
Proof.
  intros g.
  apply (defended_player_is_immune [plays 2 REST] g 1
           (default (new_player 1 (0, 0)) (Dict.get 1 (players g))) 2
           (default (new_player 2 (0, 0)) (Dict.get 2 (players g)))
           (targets 1)); by vm_compute.
Defined.

(** X12. A player cannot target itself: ATTACK_PLAYER and STEAL_PROGRESS
    with the player's own id as target return an error (the target is
    not alive, or it is not adjacent: a cell is not adjacent to itself)
    and change nothing. *)
Theorem self_target_is_refused env pid p data g :
  Dict.get pid (players g) = Some p →
  data_field d_target_player data = Some pid →
  (∃ msg, _action_attack_player pid data g = (Return (error_result msg), g))
  ∧ (∃ msg, _action_steal_progress env pid data g
            = (Return (error_result msg), g)).
Proof.
  intros Hp Hd. split.
  - unfold _action_attack_player. run_step. rewrite Hd. run_step. rewrite Hp.
    destruct (negb (status_is ALIVE (p_status p))); [by eexists|].
    rewrite adjacent_irrefl. by eexists.
  - unfold _action_steal_progress. run_step. rewrite Hd. run_step. rewrite Hp.
    destruct (negb (status_is ALIVE (p_status p))); [by eexists|].
    rewrite adjacent_irrefl. by eexists.
Qed.

Lemma self_target_is_refused_witness :
  ∃ msg, _action_attack_player 1 (targets 1) fresh_game
         = (Return (error_result msg), fresh_game).
Proof.
  apply (self_target_is_refused calm_env 1
           (default (new_player 1 (0, 0)) (Dict.get 1 (players fresh_game)))
           (targets 1) fresh_game); by vm_compute.
Defined.

(** ** Declaring a winner *)

Lemma dict_keys_is_Some {K V} `{EqDecision K} (k : K) (d : list (K * V)) :
  k ∈ Dict.keys d ↔ is_Some (Dict.get k d).
Proof.
  split; [apply dict_keys_get|]. intros [v Hv]. by eapply dict_get_Some_keys.
Qed.

(** A loop over player ids that updates the players a test selects, the
    update making the test fail. *)
Lemma for_each_guarded_updates (cond : Z → Player → bool)
    (f : Z → Player → Player) l g :
  (∀ k p, cond k p = true → cond k (f k p) = false) →
  (∀ k, k ∈ l → is_Some (Dict.get k (players g))) →
  ∃ ps',
    for_each l (λ k, player ← get_player k;
                     when (cond k player) (upd_player k (f k))) g
    = (Return tt, set_players ps' g)
    ∧ Dict.keys ps' = Dict.keys (players g)
    ∧ ∀ q, Dict.get q ps'
           = (λ p, if bool_decide (q ∈ l) && cond q p then f q p else p)
               <$> Dict.get q (players g).
Proof.
  intros Hidem. revert g. induction l as [|k l IH]; intros g Hl.
  { exists (players g). simpl. rewrite set_players_same. split_and!; [done..|].
    intros q. destruct (Dict.get q (players g)) as [pq|]; [|done].
    done. }
  destruct (Hl k (list_elem_of_here _ _)) as [p Hp].
  cbn [for_each]. rewrite run_bind. run_step.
  set (g1 := if cond k p
             then set_players (Dict.alter (f k) k (players g)) g else g).
  assert (when (cond k p) (upd_player k (f k)) g = (Return tt, g1)) as ->.
  { subst g1. destruct (cond k p); [|done]. cbn [when].
    by rewrite (run_upd_player _ _ _ _ Hp). }
  assert (Dict.keys (players g1) = Dict.keys (players g)) as Hk1.
  { subst g1. destruct (cond k p); [|done]. apply dict_keys_alter. }
  assert (∀ q, Dict.get q (players g1)
               = (λ p, if bool_decide (q = k) && cond q p then f q p else p)
                   <$> Dict.get q (players g)) as Hg1.
  { intros q. subst g1. destruct (cond k p) eqn:Hc.
    - cbn [players set_players]. rewrite dict_get_alter.
      destruct (decide (k = q)) as [<-|Hne].
      + rewrite Hp. cbn. by rewrite bool_decide_true, Hc by done.
      + destruct (Dict.get q (players g)); [|done]. cbn.
        by rewrite bool_decide_false by done.
    - destruct (Dict.get q (players g)) as [pq|] eqn:Hq; [|done]. cbn.
      destruct (bool_decide (q = k)) eqn:Hqk; [|done].
      apply bool_decide_eq_true in Hqk as ->.
      rewrite Hp in Hq. injection Hq as <-. by rewrite Hc. }
  destruct (IH g1) as (ps' & Hrun & Hkeys & Hget).
  { intros k' Hk'. apply dict_keys_is_Some. rewrite Hk1.
    apply dict_keys_is_Some, Hl. by apply list_elem_of_further. }
  exists ps'. split_and!.
  - rewrite Hrun. f_equal. subst g1. by destruct (cond k p).
  - by rewrite Hkeys.
  - intros q. rewrite Hget, Hg1.
    destruct (Dict.get q (players g)) as [pq|]; [|done]. cbn. f_equal.
    destruct (decide (q = k)) as [->|Hne].
    + rewrite (bool_decide_true (k = k)) by done.
      rewrite (bool_decide_true (k ∈ k :: l)) by apply list_elem_of_here.
      cbn [andb]. destruct (cond k pq) eqn:Hc.
      * rewrite (Hidem _ _ Hc). by rewrite andb_false_r.
      * rewrite Hc. by rewrite andb_false_r.
    + rewrite (bool_decide_false (q = k)) by done. cbn [andb].
      destruct (decide (q ∈ l)) as [Hin|Hin].
      * rewrite !bool_decide_true; [done|by apply list_elem_of_further|done].
      * rewrite !bool_decide_false; [done| |done].
        by intros [?|?]%elem_of_cons.
Qed.

Lemma declare_winner_spec w timeout g pw :
  Dict.get w (players g) = Some pw →
  ∃ ps',
    _declare_winner w timeout g
    = (Return tt, set_players ps' (set_game_over true (set_winner (Some w) g)))
    ∧ Dict.keys ps' = Dict.keys (players g)
    ∧ ∀ q, Dict.get q ps' = status_after_win w timeout q <$> Dict.get q (players g).
Proof.
  intros Hw. unfold _declare_winner. do 4 run_step.
  match goal with |- context [ for_each _ _ ?G ] => set (g1 := G) end.
  destruct (for_each_guarded_updates
              (λ k p, bool_decide (k ≠ w) && status_is ALIVE (p_status p))
              (λ _, set_status (StatusEnum (if timeout then LOST_TIMEOUT else ELIMINATED)))
              (Dict.keys (Dict.alter (set_status (StatusEnum WINNER)) w (players g)))
              g1)
    as (ps' & Hrun & Hkeys & Hget).
  { intros k p _. apply andb_false_iff. right. by destruct timeout. }
  { intros k Hk. by apply dict_keys_is_Some. }
  exists ps'. split_and!.
  - rewrite Hrun. by subst g1.
  - rewrite Hkeys. subst g1. cbn. apply dict_keys_alter.
  - intros q. rewrite Hget. subst g1. cbn [players]. rewrite dict_get_alter.
    unfold status_after_win.
    destruct (decide (w = q)) as [<-|Hne].
    + rewrite Hw. cbn. rewrite (bool_decide_true (w = w)) by done.
      rewrite (bool_decide_false (w ≠ w)) by (by intros []).
      by rewrite andb_false_r.
    + destruct (Dict.get q (players g)) as [pq|] eqn:Hq; [|done]. cbn.
      rewrite (bool_decide_false (q = w)) by done.
      rewrite (bool_decide_true (q ≠ w)) by done.
      rewrite bool_decide_true.
      * by destruct (status_is ALIVE (p_status pq)).
      * rewrite dict_keys_alter. by eapply dict_get_Some_keys.
Qed.

(** X15. [_declare_winner]: for a player of the game, the method sets
    the winner and the end of the game, gives the status WINNER to that
    player, and ELIMINATED (LOST_TIMEOUT when [timeout] is set) to every
    other player that was ALIVE; the players that were not ALIVE keep
    their status; afterwards no player is ALIVE, and nothing else is
    changed. *)
Theorem declare_winner_marks_everyone w timeout g pw :
  Dict.get w (players g) = Some pw →
  ∃ g', _declare_winner w timeout g = (Return tt, g')
        ∧ winner g' = Some w ∧ game_over g' = true
        ∧ hexagons g' = hexagons g
        ∧ (∀ q p, Dict.get q (players g) = Some p →
             ∃ st, Dict.get q (players g') = Some (set_status st p)
                   ∧ status_is ALIVE st = false
                   ∧ st = if bool_decide (q = w) then StatusEnum WINNER
                          else if status_is ALIVE (p_status p)
                          then StatusEnum (if timeout then LOST_TIMEOUT
                                           else ELIMINATED)
                          else p_status p).
Proof.
  intros Hw. destruct (declare_winner_spec w timeout g pw Hw)
    as (ps' & Hrun & Hkeys & Hget).
  eexists. split; [exact Hrun|]. split_and!; try done.
  intros q p Hq. cbn [players set_players]. rewrite Hget, Hq. cbn.
  unfold status_after_win. destruct (bool_decide (q = w)).
  { by eexists. }
  destruct (status_is ALIVE (p_status p)) eqn:Ha.
  - eexists. split_and!; [done| |done]. by destruct timeout.
  - exists (p_status p). split_and!; [|done..]. by destruct p.
Qed.

Lemma declare_winner_marks_everyone_witness :
  ∃ g', _declare_winner 2 true fresh_game = (Return tt, g')
        ∧ winner g' = Some 2
        ∧ statuses g'
          = [StatusEnum LOST_TIMEOUT; StatusEnum WINNER; StatusEnum LOST_TIMEOUT;
             StatusEnum LOST_TIMEOUT; StatusEnum LOST_TIMEOUT; StatusEnum LOST_TIMEOUT].
Proof.
  destruct (declare_winner_marks_everyone 2 true fresh_game
              (default (new_player 2 (0, 0)) (Dict.get 2 (players fresh_game))))
    as (g' & E & Hw & _); [by vm_compute|].
  exists g'. split; [exact E|]. split; [exact Hw|].
  vm_compute in E. injection E as <-. by vm_compute.
Defined.

(** ** Eliminating a player *)

Lemma set_hexagons_same g : set_hexagons (hexagons g) g = g.
Proof. by destruct g. Qed.

Lemma set_status_same p : set_status (p_status p) p = p.
Proof. by destruct p. Qed.

Lemma set_status_twice s s' p : set_status s (set_status s' p) = set_status s p.
Proof. done. Qed.

(** The loop that releases the territories. *)
Lemma release_territories l g :
  (∀ c, c ∈ l → is_Some (Dict.get c (hexagons g))) →
  ∃ hs',
    for_each l (λ c, upd_hex c (set_owner None)) g
    = (Return tt, set_hexagons hs' g)
    ∧ Dict.keys hs' = Dict.keys (hexagons g)
    ∧ ∀ c, Dict.get c hs'
           = (λ h, if bool_decide (c ∈ l) then set_owner None h else h)
               <$> Dict.get c (hexagons g).
Proof.
  revert g. induction l as [|k l IH]; intros g Hl.
  { exists (hexagons g). simpl. rewrite set_hexagons_same. split_and!; [done..|].
    intros c. by destruct (Dict.get c (hexagons g)). }
  destruct (Hl k (list_elem_of_here _ _)) as [h Hh].
  cbn [for_each]. rewrite run_bind, (run_upd_hex _ _ _ _ Hh).
  set (g1 := set_hexagons (Dict.alter (set_owner None) k (hexagons g)) g).
  destruct (IH g1) as (hs' & Hrun & Hkeys & Hget).
  { intros c Hc. apply dict_keys_is_Some. subst g1. cbn [hexagons set_hexagons].
    rewrite dict_keys_alter. apply dict_keys_is_Some, Hl.
    by apply list_elem_of_further. }
  exists hs'. split_and!.
  - by rewrite Hrun.
  - rewrite Hkeys. subst g1. cbn [hexagons set_hexagons]. apply dict_keys_alter.
  - intros c. rewrite Hget. subst g1. cbn [hexagons set_hexagons].
    rewrite dict_get_alter. destruct (decide (k = c)) as [<-|Hne].
    + rewrite Hh. cbn.
      rewrite (bool_decide_true (k ∈ k :: l)) by apply list_elem_of_here.
      by destruct (bool_decide (k ∈ l)).
    + destruct (Dict.get c (hexagons g)) as [hc|]; [|done]. cbn. f_equal.
      destruct (decide (c ∈ l)) as [Hin|Hin].
      * rewrite !bool_decide_true; [done|by apply list_elem_of_further|done].
      * rewrite !bool_decide_false; [done| |done].
        intros [?|?]%elem_of_cons; congruence.
Qed.

Lemma alive_in_list_has_key (ps : list (Z * Player)) a :
  a ∈ map fst (List.filter (λ e : Z * Player, status_is ALIVE (p_status e.2)) ps) →
  is_Some (Dict.get a ps).
Proof.
  intros ([k p] & -> & Hin)%list_elem_of_fmap.
  apply list_elem_of_In, filter_In in Hin as [Hin _].
  apply dict_keys_is_Some. apply list_elem_of_fmap. exists (k, p).
  split; [done|]. by apply list_elem_of_In.
Qed.

Lemma eliminated_not_survivor pid g p :
  NoDup (Dict.keys (players g)) →
  Dict.get pid (players g) = Some p → pid ∉ survivors pid g.
Proof.
  intros Hnd Hp ([k pk] & Hk & Hin)%list_elem_of_fmap. simpl in Hk. subst k.
  apply list_elem_of_In, filter_In in Hin as [Hin Halive].
  apply list_elem_of_In, dict_In_get in Hin; [|by rewrite dict_keys_alter].
  rewrite dict_get_alter_eq, Hp in Hin. injection Hin as <-. done.
Qed.

Lemma eliminate_player_spec pid reason g p :
  NoDup (Dict.keys (players g)) →
  Dict.get pid (players g) = Some p →
  (∀ c, c ∈ p_territories p → is_Some (Dict.get c (hexagons g))) →
  ∃ g',
    eliminate_player pid reason g = (Return tt, g')
    ∧ (∀ c, Dict.get c (hexagons g')
            = (λ h, if bool_decide (c ∈ p_territories p)
                    then set_owner None h else h) <$> Dict.get c (hexagons g))
    ∧ Dict.keys (players g') = Dict.keys (players g)
    ∧ (∀ q pq, Dict.get q (players g) = Some pq →
         ∃ st, Dict.get q (players g') = Some (set_status st pq)
               ∧ (status_is ALIVE st = true →
                    st = p_status pq ∧ q ≠ pid)
               ∧ (st = p_status pq ∨ st = StatusEnum ELIMINATED
                  ∨ st = StatusEnum WINNER)
               ∧ (q = pid → st = StatusEnum ELIMINATED))
    ∧ match survivors pid g with
      | [] => winner g' = winner g ∧ game_over g' = true
      | [a] =>
          winner g' = Some a ∧ game_over g' = true
          ∧ (p_status <$> Dict.get a (players g')) = Some (StatusEnum WINNER)
          ∧ ∀ q pq, Dict.get q (players g') = Some pq →
              status_is ALIVE (p_status pq) = false
      | _ => winner g' = winner g ∧ game_over g' = game_over g
             ∧ players g'
               = Dict.alter (set_status (StatusEnum ELIMINATED)) pid (players g)
      end.
Proof.
  intros Hnd Hp Hterr. unfold eliminate_player. do 2 run_step.
  match goal with |- context [ (for_each _ _ ≫= _) ?G ] => set (g1 := G) end.
  destruct (release_territories (p_territories p) g1 Hterr)
    as (hs' & Hrel & Hhk & Hhget).
  rewrite (run_bind_return _ _ _ _ _ Hrel).
  set (g2 := set_hexagons hs' g1).
  unfold get_alive_players. do 2 run_step.
  change (map fst (List.filter _ (players g2))) with (survivors pid g).
  assert (∀ q pq, Dict.get q (players g) = Some pq →
            ∃ st, Dict.get q (players g2) = Some (set_status st pq)
                  ∧ (status_is ALIVE st = true → st = p_status pq ∧ q ≠ pid)
                  ∧ (st = p_status pq ∨ st = StatusEnum ELIMINATED
                     ∨ st = StatusEnum WINNER)
                  ∧ (q = pid → st = StatusEnum ELIMINATED)) as Hplain.
  { intros q pq Hq. subst g2 g1. cbn [players set_hexagons set_players].
    rewrite dict_get_alter. destruct (decide (pid = q)) as [<-|Hne].
    - rewrite Hq. cbn. exists (StatusEnum ELIMINATED). split_and!; auto. done.
    - exists (p_status pq). rewrite set_status_same. split_and!; auto.
      congruence. }
  destruct (survivors pid g) as [|a [|b rest]] eqn:Hsurv.
  - cbn. eexists. split; [reflexivity|]. cbn.
    split_and!; [done|apply dict_keys_alter|exact Hplain|done..].
  - assert (is_Some (Dict.get a (players g2))) as [pa Ha].
    { apply alive_in_list_has_key. unfold survivors in Hsurv.
      subst g2 g1. cbn [players set_hexagons set_players]. rewrite Hsurv.
      apply list_elem_of_here. }
    destruct (declare_winner_spec a false g2 pa Ha) as (ps' & Hrun & Hkeys & Hget).
    rewrite run_bind. cbn [mret M_ret].
    rewrite Hrun. eexists. split; [reflexivity|]. game_simpl.
    split_and!; try done.
    + rewrite Hkeys. subst g2 g1. cbn. apply dict_keys_alter.
    + intros q pq Hq. destruct (Hplain q pq Hq) as (st & Hq2 & H1 & H2 & H3).
      rewrite Hget, Hq2. cbn. unfold status_after_win.
      destruct (bool_decide (q = a)) eqn:Hqa.
      { exists (StatusEnum WINNER). split_and!; auto; [done|].
        intros ->. apply bool_decide_eq_true in Hqa as <-.
        destruct (eliminated_not_survivor pid g p Hnd Hp).
        rewrite Hsurv. apply list_elem_of_here. }
      cbn [p_status set_status].
      destruct (status_is ALIVE st) eqn:Hst.
      * exists (StatusEnum ELIMINATED). split_and!; auto. done.
      * exists st. split_and!; auto. congruence.
    + rewrite Hget, Ha. cbn. unfold status_after_win.
      by rewrite bool_decide_true.
    + intros q pq. rewrite Hget.
      destruct (Dict.get q (players g2)) as [pq2|]; [|done]. cbn.
      intros [= <-]. unfold status_after_win.
      destruct (bool_decide (q = a)); [done|].
      destruct (status_is ALIVE (p_status pq2)) eqn:E; [done|exact E].
  - cbn. eexists. split; [reflexivity|]. cbn.
    split_and!; [done|apply dict_keys_alter|exact Hplain|done..].
Qed.

Lemma alter_unknown_key {K V} `{EqDecision K} (f : V → V) (k : K) d :
  k ∉ Dict.keys d → Dict.alter f k d = d.
Proof.
  unfold Dict.keys. induction d as [|[k0 v0] d IH]; simpl; [done|].
  intros Hk. destruct (decide (k = k0)) as [->|?].
  - destruct Hk. apply list_elem_of_here.
  - rewrite IH; [done|]. intros ?. apply Hk. by apply list_elem_of_further.
Qed.

Lemma filter_other_ids pid (ps : list (Z * Player)) (test : Z * Player → bool) :
  pid ∉ Dict.keys ps →
  List.filter (λ q, bool_decide (q ≠ pid)) (map fst (List.filter test ps))
  = map fst (List.filter test ps).
Proof.
  unfold Dict.keys. induction ps as [|[k v] ps IH]; simpl; [done|].
  intros Hk.
  assert (pid ∉ map fst ps) as Hk'
    by (intros ?; apply Hk; by apply list_elem_of_further).
  destruct (test (k, v)); simpl; [|by apply IH].
  rewrite bool_decide_true. { by rewrite IH. }
  intros ->. apply Hk, list_elem_of_here.
Qed.

Lemma survivors_others pid g :
  NoDup (Dict.keys (players g)) →
  survivors pid g
  = List.filter (λ q, bool_decide (q ≠ pid))
      (map fst (List.filter (λ e : Z * Player, status_is ALIVE (p_status e.2))
                  (players g))).
Proof.
  unfold survivors, Dict.keys. generalize (players g). intros ps.
  induction ps as [|[k v] ps IH]; simpl; [done|].
  intros [Hk Hnd]%NoDup_cons. destruct (decide (pid = k)) as [<-|Hne]; simpl.
  - destruct (status_is ALIVE (p_status v)); simpl.
    + rewrite bool_decide_false by (by intros []).
      by rewrite (filter_other_ids pid ps).
    + by rewrite (filter_other_ids pid ps).
  - destruct (status_is ALIVE (p_status v)); simpl.
    + rewrite bool_decide_true by done. by rewrite IH.
    + by apply IH.
Qed.

Lemma get_alive_players_run g :
  get_alive_players g
  = (Return (map fst (List.filter (λ e : Z * Player,
                                     status_is ALIVE (p_status e.2))
                        (players g))), g).
Proof. reflexivity. Qed.

(** X16. [GreenAgent.eliminate_player], for a player of the game whose
    territories are cells of the board: the method returns; the player
    is ELIMINATED; every cell of its list of territories has no owner
    afterwards and the owner of no other cell changes; when exactly one
    other player is ALIVE, that player is declared the winner and the
    game is over; when none is, the game is over without a winner being
    set; otherwise neither changes. *)
Theorem eliminate_player_releases_and_settles pid reason g p alive :
  NoDup (Dict.keys (players g)) →
  Dict.get pid (players g) = Some p →
  (∀ c, c ∈ p_territories p → Dict.mem c (hexagons g) = true) →
  fst (get_alive_players g) = Return alive →
  ∃ g',
    eliminate_player pid reason g = (Return tt, g')
    ∧ (p_status <$> Dict.get pid (players g')) = Some (StatusEnum ELIMINATED)
    ∧ (∀ c, owner_of c g'
            = (λ o, if bool_decide (c ∈ p_territories p) then None else o)
                <$> owner_of c g)
    ∧ match List.filter (λ q, bool_decide (q ≠ pid)) alive with
      | [] => winner g' = winner g ∧ game_over g' = true
      | [a] =>
          winner g' = Some a ∧ game_over g' = true
          ∧ (p_status <$> Dict.get a (players g')) = Some (StatusEnum WINNER)
      | _ => winner g' = winner g ∧ game_over g' = game_over g
      end.
Proof.
  intros Hnd Hp Hterr Halive.
  destruct (eliminate_player_spec pid reason g p Hnd Hp)
    as (g' & Hrun & Hcells & _ & Hps & Hsettle).
  { intros c Hc. by apply dict_mem_true, Hterr. }
  exists g'. split; [done|]. split_and!.
  - destruct (Hps pid p Hp) as (st & -> & _ & _ & Hst). by rewrite Hst.
  - intros c. unfold owner_of. rewrite Hcells.
    destruct (Dict.get c (hexagons g)) as [h|]; [|done]. cbn.
    by destruct (bool_decide (c ∈ p_territories p)).
  - rewrite get_alive_players_run in Halive. injection Halive as <-.
    rewrite <- survivors_others by done.
    destruct (survivors pid g) as [|a [|b rest]]; [done| |by destruct Hsettle as (?&?&?)].
    by destruct Hsettle as (?&?&?&?).
Qed.

Lemma eliminate_player_releases_and_settles_witness :
  owner_of (0, -4) last_two = Some (Some 1)
  ∧ ∃ g',
      eliminate_player 1 "combat" last_two = (Return tt, g')
      ∧ owner_of (0, -4) g' = Some None
      ∧ winner g' = Some 2 ∧ game_over g' = true.
Proof.
  split; [by vm_compute|].
  destruct (eliminate_player_releases_and_settles 1 "combat" last_two
              (default (new_player 1 (0, 0)) (Dict.get 1 (players last_two)))
              [1; 2])
    as (g' & E & _ & Hc & Hw & Ho & _);
    [ apply (bool_decide_unpack _); by vm_compute | by vm_compute
    | intros c Hc; vm_compute in Hc; apply list_elem_of_singleton in Hc as ->;
      by vm_compute
    | by vm_compute | ].
  exists g'. split; [exact E|].
  split; [rewrite (Hc (0, -4)); vm_compute; reflexivity|].
  split; [exact Hw|exact Ho].
Defined.

(** ** The correct flag *)

(** X17. The correct flag wins at once.  SOLVE_CTF with the correct
    (non-empty) flag, by a player with the 5 energy of an attempt: the
    method returns the winning result; the player has paid 5 energy and
    is the WINNER, the game is over, the validation is counted; every
    other player that was ALIVE is ELIMINATED, so that nobody is ALIVE
    afterwards; and no cell changes: the territories of the players
    eliminated in this way keep their owner. *)
Theorem correct_flag_wins env pid p data g :
  Dict.get pid (players g) = Some p →
  5 ≤ p_energy p →
  data_field d_flag data = Some (correct_flag g) →
  correct_flag g ≠ "" →
  ∃ g',
    _action_solve_ctf env pid data g
    = (Return [("action", VStr "solve_ctf"); ("success", VBool true);
               ("flag_valid", VBool true); ("energy", VInt (p_energy p - 5));
               ("game_over", VBool true)], g')
    ∧ winner g' = Some pid ∧ game_over g' = true
    ∧ validation_count g' = validation_count g + 1
    ∧ hexagons g' = hexagons g
    ∧ (p_energy <$> Dict.get pid (players g')) = Some (p_energy p - 5)
    ∧ ∀ q pq, Dict.get q (players g) = Some pq →
        ∃ pq', Dict.get q (players g') = Some pq'
               ∧ status_is ALIVE (p_status pq') = false
               ∧ p_status pq'
                 = if bool_decide (q = pid) then StatusEnum WINNER
                   else if status_is ALIVE (p_status pq)
                   then StatusEnum ELIMINATED else p_status pq.
Proof.
  intros Hp He Hflag Hne. unfold _action_solve_ctf. run_step.
  rewrite bool_decide_false by lia. do 2 run_step. rewrite Hflag.
  rewrite bool_decide_false by done. unfold validate_flag. do 5 run_step.
  rewrite bool_decide_true by done.
  match goal with |- context [ (_declare_winner _ _ ≫= _) ?G ] =>
    set (g2 := G) end.
  assert (∀ q, Dict.get q (players g2)
               = (λ pq, if bool_decide (q = pid)
                        then set_ctf_attempts (p_ctf_attempts pq + 1)
                               (set_energy (p_energy pq - 5) pq)
                        else pq) <$> Dict.get q (players g)) as Hg2.
  { intros q. subst g2. cbn [players]. rewrite !dict_get_alter.
    destruct (decide (pid = q)) as [<-|Hq].
    - rewrite Hp. cbn. by rewrite bool_decide_true.
    - destruct (Dict.get q (players g)); [|done]. cbn.
      by rewrite bool_decide_false. }
  destruct (declare_winner_spec pid false g2
              (set_ctf_attempts (p_ctf_attempts p + 1)
                 (set_energy (p_energy p - 5) p)))
    as (ps' & Hrun & Hkeys & Hget).
  { rewrite Hg2, Hp. cbn. by rewrite bool_decide_true. }
  rewrite (run_bind_return _ _ _ _ _ Hrun).
  assert (Dict.get pid ps'
          = Some (set_status (StatusEnum WINNER)
                    (set_ctf_attempts (p_ctf_attempts p + 1)
                       (set_energy (p_energy p - 5) p)))) as Hwin.
  { rewrite Hget, Hg2, Hp. cbn. unfold status_after_win.
    by rewrite !bool_decide_true. }
  erewrite (run_bind_return (get_player pid)); [|by apply run_get_player].
  cbn [mret M_ret]. eexists. split; [reflexivity|].
  cbn [winner game_over validation_count hexagons players set_players
       set_game_over set_winner].
  split_and!; try done.
  - by rewrite Hwin.
  - intros q pq Hq. rewrite Hget, Hg2, Hq. cbn. unfold status_after_win.
    destruct (bool_decide (q = pid)) eqn:Hqp.
    + eexists. split; [reflexivity|]. done.
    + destruct (status_is ALIVE (p_status pq)) eqn:Ha.
      * eexists. split; [reflexivity|]. done.
      * eexists. split; [reflexivity|]. done.
Qed.

Lemma correct_flag_wins_witness :
  let data := Some (Build_Data None None
                      (Some "flag{hexagonal_hunger_games_victory_2025}")) in
  ∃ g',
    _action_solve_ctf calm_env 3 data fresh_game
    = (Return [("action", VStr "solve_ctf"); ("success", VBool true);
               ("flag_valid", VBool true); ("energy", VInt 10);
               ("game_over", VBool true)], g')
    ∧ winner g' = Some 3 ∧ game_over g' = true.
Proof.
  intros data.
  destruct (correct_flag_wins calm_env 3
              (default (new_player 3 (0, 0)) (Dict.get 3 (players fresh_game)))
              data fresh_game)
    as (g' & E & Hw & Ho & _);
    [by vm_compute | by vm_compute | reflexivity | done |].
  exists g'. split; [exact E|]. split; [exact Hw|exact Ho].
Defined.

(** ** The check for eliminations *)










(** ** The order of the floating-point numbers *)

Lemma Pcompare_Eq_lt_trans (a b c : positive) :
  Pos.compare a b = Lt → Pos.compare b c = Lt → Pos.compare a c = Lt.
Proof. rewrite !Pos.compare_lt_iff. lia. Qed.

Lemma SFcompare_lt_trans a b c :
  SFcompare a b = Some Lt → SFcompare b c = Some Lt → SFcompare a c = Some Lt.
Proof.
  destruct a as [sa|sa| |sa ma ea], b as [sb|sb| |sb mb eb],
    c as [sc|sc| |sc mc ec]; simpl; try done;
    repeat match goal with s : bool |- _ => destruct s end; simpl; try done.
  all: destruct (Z.compare_spec ea eb), (Z.compare_spec eb ec),
         (Z.compare_spec ea ec); try done; try lia; subst.
  all: fold (Pos.compare ma mb); fold (Pos.compare mb mc);
       fold (Pos.compare ma mc).
  all: destruct (Pos.compare_spec ma mb), (Pos.compare_spec mb mc),
         (Pos.compare_spec ma mc); simpl; try done; try lia.
Qed.

Lemma float_ltb_trans (x y z : float) :
  PrimFloat.ltb x y = true → PrimFloat.ltb y z = true →
  PrimFloat.ltb x z = true.
Proof.
  rewrite !ltb_spec. unfold SFltb.
  destruct (SFcompare (Prim2SF x) (Prim2SF y)) as [[]|] eqn:E1; try done.
  destruct (SFcompare (Prim2SF y) (Prim2SF z)) as [[]|] eqn:E2; try done.
  by rewrite (SFcompare_lt_trans _ _ _ E1 E2).
Qed.

Lemma SFcompare_irrefl a : SFcompare a a ≠ Some Lt.
Proof.
  destruct a as [[]|[]| |[] m e]; simpl; try done;
    rewrite Z.compare_refl; fold (Pos.compare m m);
    by rewrite Pos.compare_refl.
Qed.

Lemma float_ltb_irrefl (x : float) : PrimFloat.ltb x x = false.
Proof.
  rewrite ltb_spec. unfold SFltb.
  pose proof (SFcompare_irrefl (Prim2SF x)).
  by destruct (SFcompare (Prim2SF x) (Prim2SF x)) as [[]|].
Qed.

Lemma SFcompare_lt_eq_trans a b c :
  SFcompare a b = Some Lt → SFcompare b c = Some Eq → SFcompare a c = Some Lt.
Proof.
  destruct a as [sa|sa| |sa ma ea], b as [sb|sb| |sb mb eb],
    c as [sc|sc| |sc mc ec]; simpl; try done;
    repeat match goal with s : bool |- _ => destruct s end; simpl; try done.
  all: destruct (Z.compare_spec ea eb), (Z.compare_spec eb ec),
         (Z.compare_spec ea ec); try done; try lia; subst.
  all: fold (Pos.compare ma mb); fold (Pos.compare mb mc);
       fold (Pos.compare ma mc).
  all: destruct (Pos.compare_spec ma mb), (Pos.compare_spec mb mc),
         (Pos.compare_spec ma mc); simpl; try done; try lia.
Qed.

Lemma float_lt_le_trans (x y z : float) :
  PrimFloat.ltb x y = true → PrimFloat.leb y z = true →
  PrimFloat.ltb x z = true.
Proof.
  rewrite !ltb_spec, leb_spec. unfold SFltb, SFleb.
  destruct (SFcompare (Prim2SF x) (Prim2SF y)) as [[]|] eqn:E1; try done.
  destruct (SFcompare (Prim2SF y) (Prim2SF z)) as [[]|] eqn:E2; try done.
  - by rewrite (SFcompare_lt_eq_trans _ _ _ E1 E2).
  - by rewrite (SFcompare_lt_trans _ _ _ E1 E2).
Qed.

Lemma float_lt_le (x y : float) :
  PrimFloat.ltb x y = true → PrimFloat.leb x y = true.
Proof.
  rewrite ltb_spec, leb_spec. unfold SFltb, SFleb.
  by destruct (SFcompare (Prim2SF x) (Prim2SF y)) as [[]|].
Qed.

Lemma float_lt_not_ge (x y : float) :
  PrimFloat.ltb x y = true → PrimFloat.leb y x = false.
Proof.
  intros Hlt. destruct (PrimFloat.leb y x) eqn:Hle; [|done].
  by rewrite <- (float_ltb_irrefl x), (float_lt_le_trans x y x).
Qed.

(** ** The timeout ranking *)

(** [max] keeps the first of the greatest items: the result stands at a
    place of the list before which no item is as great, and after which
    no item is greater. *)
Lemma max_by_place {A} (score : A → float) l :
  ∀ best (pre mid : list A),
    (∀ x, x ∈ pre → PrimFloat.leb (score best) (score x) = false) →
    (∀ x, x ∈ mid → PrimFloat.ltb (score best) (score x) = false) →
    ∃ l1 l2,
      pre ++ best :: mid ++ l = l1 ++ max_by score best l :: l2
      ∧ (∀ x, x ∈ l1 →
           PrimFloat.leb (score (max_by score best l)) (score x) = false)
      ∧ (∀ x, x ∈ l2 →
           PrimFloat.ltb (score (max_by score best l)) (score x) = false).
Proof.
  induction l as [|y l IH]; intros best pre mid Hpre Hmid.
  { exists pre, mid. by rewrite app_nil_r. }
  cbn [max_by]. destruct (PrimFloat.ltb (score best) (score y)) eqn:Hy.
  - destruct (IH y (pre ++ best :: mid) []) as (l1 & l2 & E & H1 & H2).
    + intros x [Hx|[->|Hx]%elem_of_cons]%elem_of_app.
      * destruct (PrimFloat.leb (score y) (score x)) eqn:Hle; [|done].
        by rewrite <- (Hpre x Hx),
          (float_lt_le _ _ (float_lt_le_trans _ _ _ Hy Hle)).
      * by apply float_lt_not_ge.
      * destruct (PrimFloat.leb (score y) (score x)) eqn:Hle; [|done].
        by rewrite <- (Hmid x Hx), (float_lt_le_trans _ _ _ Hy Hle).
    + by intros x ?%elem_of_nil.
    + exists l1, l2. split; [|done]. rewrite <- E.
      by rewrite <- !app_assoc.
  - destruct (IH best pre (mid ++ [y])) as (l1 & l2 & E & H1 & H2).
    + done.
    + intros x [Hx| ->%list_elem_of_singleton]%elem_of_app; [by apply Hmid|done].
    + exists l1, l2. split; [|done]. rewrite <- E.
      by rewrite <- !app_assoc.
Qed.

Lemma max_by_first {A} (score : A → float) best l :
  (∀ x, x ∈ l → PrimFloat.ltb (score best) (score x) = false) →
  max_by score best l = best.
Proof.
  induction l as [|y l IH]; intros H; simpl; [done|].
  rewrite (H y (list_elem_of_here _ _)). apply IH.
  intros x Hx. by apply H, list_elem_of_further.
Qed.

(** The item before which every item is smaller, and after which no
    item is greater, is the result. *)
Lemma max_by_rule {A} (score : A → float) a l2 l1 :
  ∀ best,
    PrimFloat.ltb (score best) (score a) = true →
    (∀ x, x ∈ l1 → PrimFloat.ltb (score x) (score a) = true) →
    (∀ x, x ∈ l2 → PrimFloat.ltb (score a) (score x) = false) →
    max_by score best (l1 ++ a :: l2) = a.
Proof.
  induction l1 as [|c l1 IH]; intros best Hbest H1 H2; cbn [app max_by].
  - rewrite Hbest. by apply max_by_first.
  - apply IH; [|intros x Hx; by apply H1, list_elem_of_further|done].
    destruct (PrimFloat.ltb (score best) (score c)); [|done].
    apply H1, list_elem_of_here.
Qed.

(** The scores that [_rank_on_timeout] computes for a list of ids of the
    game. *)
Lemma map_M_scores_run l g :
  (∀ q, q ∈ l → is_Some (Dict.get q (players g))) →
  map_M (λ pid, p ← get_player pid; mret (pid, score_player p)) l g
  = (Return (map (λ q, (q, score_player
                             (default (new_player q (0, 0))
                                (Dict.get q (players g))))) l), g).
Proof.
  induction l as [|q l IH]; intros Hl; [done|].
  destruct (Hl q (list_elem_of_here _ _)) as [p Hp].
  cbn [map_M]. rewrite run_bind.
  rewrite (run_bind_return _ _ _ _ _ (run_get_player _ _ _ Hp)).
  cbn [mret M_ret]. rewrite run_bind, IH.
  - cbn. by rewrite Hp.
  - intros q' Hq'. by apply Hl, list_elem_of_further.
Qed.

Lemma alive_ids_have_players g q :
  q ∈ map fst (List.filter (λ e : Z * Player, status_is ALIVE (p_status e.2))
                 (players g)) →
  is_Some (Dict.get q (players g)).
Proof.
  intros Hq. apply dict_keys_is_Some. unfold Dict.keys.
  apply list_elem_of_fmap in Hq as (e & -> & He).
  apply list_elem_of_fmap. exists e. split; [done|].
  apply list_elem_of_In, filter_In in He as [He _]. by apply list_elem_of_In.
Qed.

Lemma rank_on_timeout_spec g :
  let alive := map fst (List.filter (λ e : Z * Player,
                                       status_is ALIVE (p_status e.2))
                          (players g)) in
  let score q := score_player (default (new_player q (0, 0))
                                 (Dict.get q (players g))) in
  ∃ r, _rank_on_timeout g = (Return r, g)
       ∧ match r with
         | None => alive = []
         | Some w =>
             (∃ l1 l2,
                alive = l1 ++ w :: l2
                ∧ (∀ q, q ∈ l1 → PrimFloat.leb (score w) (score q) = false)
                ∧ (∀ q, q ∈ l2 → PrimFloat.ltb (score w) (score q) = false))
             ∧ ∀ a l1 l2,
                 alive = l1 ++ a :: l2 →
                 (∀ q, q ∈ l1 → PrimFloat.ltb (score q) (score a) = true) →
                 (∀ q, q ∈ l2 → PrimFloat.ltb (score a) (score q) = false) →
                 w = a
         end.
Proof.
  intros alive score. unfold _rank_on_timeout. rewrite run_bind.
  rewrite get_alive_players_run. cbn [mret M_ret]. fold alive.
  rewrite run_bind, map_M_scores_run by apply alive_ids_have_players.
  fold score. destruct alive as [|a0 rest] eqn:Ea; cbn [map].
  { by exists None. }
  set (pair := λ q : Z, (q, score q)).
  change (a0, score a0) with (pair a0).
  exists (Some (max_by snd (pair a0) (map pair rest)).1). split; [done|].
  assert (∀ b l, (max_by snd (pair b) (map pair l)).2
                 = score (max_by snd (pair b) (map pair l)).1) as Hsnd.
  { intros b l. revert b. induction l as [|c l IH]; intros b; [done|].
    cbn [map max_by]. destruct (PrimFloat.ltb _ _); apply IH. }
  assert (∀ l, map fst (map pair l) = l) as Hids.
  { induction l as [|c l IH]; cbn; congruence. }
  split.
  - destruct (max_by_place snd (map pair rest) (pair a0) [] [])
      as (l1 & l2 & E & H1 & H2); [by intros ? ?%elem_of_nil..|].
    cbn [app] in E.
    change (pair a0 :: map pair rest) with (map pair (a0 :: rest)) in E.
    assert (∀ e, e ∈ l1 ++ max_by snd (pair a0) (map pair rest) :: l2 →
              e.2 = score e.1) as Hin.
    { rewrite <- E. by intros e (q & -> & _)%list_elem_of_fmap. }
    exists (map fst l1), (map fst l2). split_and!.
    + apply (f_equal (map fst)) in E. by rewrite Hids, map_app in E.
    + intros q (e & -> & He)%list_elem_of_fmap. specialize (H1 e He).
      rewrite Hsnd, (Hin e) in H1; [done|].
      apply elem_of_app. by left.
    + intros q (e & -> & He)%list_elem_of_fmap. specialize (H2 e He).
      rewrite Hsnd, (Hin e) in H2; [done|].
      apply elem_of_app. right. by apply list_elem_of_further.
  - intros a l1 l2 E Hl1 Hl2. destruct l1 as [|b l1]; cbn [app] in E.
    + injection E as -> ->. rewrite max_by_first; [done|].
      intros e (q & -> & Hq)%list_elem_of_fmap. by apply Hl2.
    + injection E as -> ->. rewrite map_app. cbn [map].
      rewrite (max_by_rule snd (pair a) (map pair l2) (map pair l1)); [done|..].
      * apply Hl1, list_elem_of_here.
      * intros e (q & -> & Hq)%list_elem_of_fmap.
        by apply Hl1, list_elem_of_further.
      * intros e (q & -> & Hq)%list_elem_of_fmap. by apply Hl2.
Qed.

(** X19. [_rank_on_timeout] on any game: the method returns and changes
    nothing; it returns None exactly when no player is ALIVE; otherwise
    it returns the first alive player of greatest score: the player
    stands at a place of the list of alive players before which no
    player has a score as great, and after which no player has a greater
    score; and an alive player before which every alive player has a
    smaller score, and after which none has a greater score, is the one
    returned (ties go to the earliest). *)
Theorem rank_on_timeout_names_a_best_alive_player g :
  ∃ r, _rank_on_timeout g = (Return r, g)
       ∧ match r with
         | None => fst (get_alive_players g) = Return []
         | Some w =>
             ∃ alive pw,
               fst (get_alive_players g) = Return alive
               ∧ Dict.get w (players g) = Some pw
               ∧ (∃ l1 l2,
                    alive = l1 ++ w :: l2
                    ∧ (∀ q pq, q ∈ l1 → Dict.get q (players g) = Some pq →
                         PrimFloat.leb (score_player pw) (score_player pq)
                         = false)
                    ∧ (∀ q pq, q ∈ l2 → Dict.get q (players g) = Some pq →
                         PrimFloat.ltb (score_player pw) (score_player pq)
                         = false))
               ∧ ∀ a pa l1 l2,
                   alive = l1 ++ a :: l2 →
                   Dict.get a (players g) = Some pa →
                   (∀ q pq, q ∈ l1 → Dict.get q (players g) = Some pq →
                      PrimFloat.ltb (score_player pq) (score_player pa) = true) →
                   (∀ q pq, q ∈ l2 → Dict.get q (players g) = Some pq →
                      PrimFloat.ltb (score_player pa) (score_player pq) = false) →
                   w = a
         end.
Proof.
  destruct (rank_on_timeout_spec g) as (r & Hrun & Hr). cbv zeta in Hr.
  exists r. split; [done|]. rewrite get_alive_players_run. cbn [fst].
  destruct r as [w|]; [|by rewrite Hr].
  destruct Hr as ((l1 & l2 & E & H1 & H2) & Hrule).
  assert (∀ q, q ∈ l1 ++ w :: l2 → is_Some (Dict.get q (players g))) as Hget.
  { rewrite <- E. apply alive_ids_have_players. }
  destruct (Hget w) as [pw Hpw].
  { apply elem_of_app. right. apply list_elem_of_here. }
  eexists _, pw. split; [reflexivity|]. split; [done|]. split.
  - exists l1, l2. split; [done|]. split.
    + intros q pq Hq Hpq. specialize (H1 q Hq). by rewrite Hpw, Hpq in H1.
    + intros q pq Hq Hpq. specialize (H2 q Hq). by rewrite Hpw, Hpq in H2.
  - intros a pa l1' l2' Ea Hpa Hl1 Hl2. apply (Hrule a l1' l2' Ea).
    + intros q Hq. rewrite Hpa. destruct (Hget q) as [pq Hpq].
      { rewrite <- E, Ea. apply elem_of_app. by left. }
      rewrite Hpq. by apply (Hl1 q pq).
    + intros q Hq. rewrite Hpa. destruct (Hget q) as [pq Hpq].
      { rewrite <- E, Ea. apply elem_of_app. right.
        by apply list_elem_of_further. }
      rewrite Hpq. by apply (Hl2 q pq).
Qed.

(** ** The end of [Agent.run] *)

Lemma get_game_state_returns now g :
  (∀ e, e ∈ players g → ∃ s, p_status e.2 = StatusEnum s) →
  ∃ st, get_game_state now g = (Return st, g).
Proof.
  intros Hall. destruct (player_states_return (players g) g Hall) as [vs Hvs].
  unfold get_game_state. run_step. unfold id.
  rewrite (run_bind_return _ _ _ _ _ Hvs).
  unfold get_alive_players. do 2 run_step. by eexists.
Qed.

Lemma play_turn_run participants now pid g :
  (∀ e, e ∈ players g → ∃ s, p_status e.2 = StatusEnum s) →
  play_turn participants now pid g
  = (if has_endpoint participants pid
     then Raise (NameError "name 'logger' is not defined") else Return tt, g).
Proof.
  intros Hall. unfold play_turn, has_endpoint.
  destruct (player_url participants pid); [|done].
  rewrite run_bind. by destruct (get_game_state_returns now g Hall) as [st ->].
Qed.

Lemma play_turns_run participants (clock : Z → float) l g :
  (∀ e, e ∈ players g → ∃ s, p_status e.2 = StatusEnum s) →
  for_each l (λ pid, play_turn participants (clock pid) pid) g
  = (if existsb (has_endpoint participants) l
     then Raise (NameError "name 'logger' is not defined") else Return tt, g).
Proof.
  intros Hall. induction l as [|pid l IH]; [done|].
  cbn [for_each existsb]. rewrite run_bind, play_turn_run by done.
  by destruct (has_endpoint participants pid).
Qed.

Lemma play_round_run participants clock n g :
  (∀ e, e ∈ players g → ∃ s, p_status e.2 = StatusEnum s) →
  play_round participants clock n g
  = if existsb (has_endpoint participants)
         (map fst (List.filter (λ e : Z * Player,
                                  status_is ALIVE (p_status e.2)) (players g)))
    then (Raise (NameError "name 'logger' is not defined"), g)
    else (Return tt, set_round_number n g).
Proof.
  intros Hall. unfold play_round.
  rewrite run_bind, get_alive_players_run. cbn [mret M_ret].
  rewrite run_bind, (play_turns_run participants (clock n)) by done.
  by destruct (existsb _ _).
Qed.

Lemma last_cons_default {A} (m n : A) l :
  List.last (m :: l) n = List.last l m.
Proof.
  revert m n. induction l as [|a l IH]; intros m n; [done|].
  change (List.last (m :: a :: l) n) with (List.last (a :: l) n).
  by rewrite !IH.
Qed.

Lemma play_rounds_run participants clock n rounds g :
  (∀ e, e ∈ players g → ∃ s, p_status e.2 = StatusEnum s) →
  game_over g = false →
  play_rounds participants clock (n :: rounds) g
  = if existsb (has_endpoint participants)
         (map fst (List.filter (λ e : Z * Player,
                                  status_is ALIVE (p_status e.2)) (players g)))
    then (Raise (NameError "name 'logger' is not defined"), g)
    else (Return tt, set_round_number (List.last rounds n) g).
Proof.
  revert n g. induction rounds as [|m rounds IH]; intros n g Hall Hover.
  - cbn [List.last]. set (g1 := set_round_number n g).
    cbn [play_rounds]. run_step. rewrite Hover, run_bind.
    rewrite play_round_run by done. by destruct (existsb _ _).
  - rewrite last_cons_default.
    set (g2 := set_round_number (List.last rounds m) g).
    change (play_rounds participants clock (n :: m :: rounds))
      with (over ← gets game_over;
            if over : bool then mret tt
            else play_round participants clock n ;;
                 play_rounds participants clock (m :: rounds)).
    run_step. rewrite Hover, run_bind, play_round_run by done.
    destruct (existsb _ _) eqn:Hany; [done|].
    rewrite IH by done. change (players (set_round_number n g)) with (players g).
    by rewrite Hany.
Qed.

Lemma started_game_players challenge rng t0 :
  players (started_game challenge rng t0) = players fresh_game.
Proof. vm_compute. reflexivity. Qed.

Lemma agent_run_cases challenge rng t0 t1 clock participants :
  Agent_run challenge rng t0 t1 clock participants
  = if existsb (has_endpoint participants) (range 1 7)
    then (Raise (NameError "name 'logger' is not defined"),
          started_game challenge rng t0)
    else (Raise (AttributeError
                   "'CTFHungerGame' object has no attribute 'check_winner'"),
          set_round_number 20 (started_game challenge rng t0)).
Proof.
  unfold Agent_run. rewrite run_bind.
  change (start_game t0 (CTFHungerGame_init challenge rng))
    with (Return tt, started_game challenge rng t0).
  generalize (started_game_players challenge rng t0).
  assert (game_over (started_game challenge rng t0) = false) as Hover by done.
  revert Hover. generalize (started_game challenge rng t0). intros g Hover Hps.
  rewrite run_bind.
  change (range 1 21) with (1 :: range 2 21).
  rewrite play_rounds_run, Hps; [| |done].
  - change (map fst (List.filter _ (players fresh_game))) with (range 1 7).
    by destruct (existsb _ _).
  - rewrite Hps. apply Forall_forall. by vm_compute; repeat constructor; eexists.
Qed.

(** X20. [Agent.run], from the creation of the game on (that is, once
    the configuration has been read), never reaches its result and never
    plays a turn, whatever the challenge, the random draws, the clock and
    the participants.  When one of the six players has an endpoint, the
    run ends in round 1 on the NameError of the unbound name [logger],
    the game being as [start_game] left it.  Otherwise the twenty rounds
    pass without a turn, only [round_number] changes, and the call of
    [check_winner], a method that the game does not have, raises
    AttributeError. *)
Theorem agent_run_never_returns challenge rng t0 t1 clock participants :
  Agent_run challenge rng t0 t1 clock participants
  = if existsb (has_endpoint participants) (range 1 7)
    then (Raise (NameError "name 'logger' is not defined"),
          set_game_over false
            (set_start_time (Some t0) (CTFHungerGame_init challenge rng)))
    else (Raise (AttributeError
                   "'CTFHungerGame' object has no attribute 'check_winner'"),
          set_round_number 20
            (set_game_over false
               (set_start_time (Some t0) (CTFHungerGame_init challenge rng)))).
Proof. apply agent_run_cases. Qed.

(** C3. The timeout ranking is never applied.  [Agent.run] with a
    configuration without participants plays the twenty rounds of the
    budget and ends on AttributeError (the engine has no
    [check_winner]): the six players are still ALIVE, there is no winner
    and the game is not over.  [_rank_on_timeout] would name player 1 on
    that state (all scores are equal, the first wins), but it changes
    nothing: nothing calls it, and it does not call [_declare_winner],
    which with [timeout=True] would make the others LOST_TIMEOUT. *)
Theorem timeout_leaves_match_unresolved challenge rng t0 t1 clock :
  let r := Agent_run challenge rng t0 t1 clock [] in
  let g := snd r in
  fst r = Raise (AttributeError "'CTFHungerGame' object has no attribute 'check_winner'")
  ∧ round_number g = 20
  ∧ statuses g = replicate 6 (StatusEnum ALIVE)
  ∧ winner g = None ∧ game_over g = false
  ∧ _rank_on_timeout g = (Return (Some 1), g)
  ∧ statuses (snd (_declare_winner 1 true g))
    = StatusEnum WINNER :: replicate 5 (StatusEnum LOST_TIMEOUT).
Proof.
  cbv zeta. rewrite agent_run_cases.
  change (existsb (has_endpoint []) (range 1 7)) with false. cbn [fst snd].
  split; [done|]. split; [done|]. split; [by vm_compute|].
  split; [done|]. split; [done|]. split.
  - rewrite (surjective_pairing (_rank_on_timeout _)), rank_on_timeout_pure.
    apply (f_equal (λ o, (o, _))). vm_compute. reflexivity.
  - vm_compute. reflexivity.
Qed.

(** ** Hints: what grants them and what moves them *)

Lemma dict_alter_ext_at {K V} `{EqDecision K} (f f' : V → V) (k : K) p d :
  Dict.get k d = Some p → f p = f' p → Dict.alter f k d = Dict.alter f' k d.
Proof.
  induction d as [|[k0 v0] d IH]; simpl; [done|].
  destruct (decide (k = k0)) as [->|?].
  - by intros [= ->] ->.
  - intros ??. by rewrite IH.
Qed.

Lemma unlock_hint_run pid t k g p h :
  Dict.get pid (players g) = Some p →
  ctf_hints g !! k = Some h →
  ∃ r, unlock_hint pid t k g
       = (Return r, set_players (Dict.alter (grant t k h) pid (players g)) g).
Proof.
  intros Hp Hh. unfold unlock_hint. run_step.
  destruct (PrimFloat.leb t (p_ctf_progress p)
            && bool_decide (length (p_ctf_hints p) = k)) eqn:Hc.
  - run_step. rewrite Hh. run_step. exists [h]. cbn [mret M_ret].
    rewrite (dict_alter_ext_at (grant t k h)
               (λ p, set_ctf_hints (p_ctf_hints p ++ [h]) p) pid p); [done..|].
    unfold grant. by rewrite Hc.
  - exists []. cbn [mret M_ret].
    rewrite (dict_alter_same (grant t k h) pid p); [by destruct g|done|].
    unfold grant. by rewrite Hc.
Qed.

(** A missing, empty or wrong flag is not valid. *)
Lemma wrong_flag_is_invalid pid data g :
  (∀ f, data_field d_flag data = Some f → f ≠ "" → f ≠ correct_flag g) →
  ∃ g1, (match data_field d_flag data with
         | Some f => if bool_decide (f = "") then mret false
                     else validate_flag pid f
         | None => mret false
         end) g = (Return false, g1)
        ∧ players g1 = players g ∧ ctf_hints g1 = ctf_hints g.
Proof.
  intros Hwrong. destruct (data_field d_flag data) as [f|]; [|by exists g].
  destruct (bool_decide (f = "")) eqn:Hf; [by exists g|].
  apply bool_decide_eq_false in Hf. unfold validate_flag. do 2 run_step.
  rewrite bool_decide_false by (by apply Hwrong).
  eexists. cbn [mret M_ret]. by split.
Qed.

Ltac unlock_step h Hhints :=
  match goal with
  | |- context [ (unlock_hint ?pid ?t ?k ≫= ?c) ?G ] =>
      let Hl := fresh in
      let r := fresh "r" in
      let Hr := fresh in
      eassert (Hl : Dict.get pid (players G) = Some _) by lookup;
      destruct (unlock_hint_run pid t k G _ h Hl) as [r Hr];
      [ game_simpl; rewrite Hhints; reflexivity | ];
      rewrite (run_bind_return _ c G _ _ Hr); clear Hr Hl
  end.

Lemma solve_grants env pid data g p h0 h1 h2 rest :
  Dict.get pid (players g) = Some p →
  5 ≤ p_energy p →
  (∀ f, data_field d_flag data = Some f → f ≠ "" → f ≠ correct_flag g) →
  ctf_hints g = h0 :: h1 :: h2 :: rest →
  ∃ r g' pP,
    _action_solve_ctf env pid data g = (Return r, g')
    ∧ p_ctf_hints pP = p_ctf_hints p
    ∧ Dict.get pid (players g')
      = Some (set_since_objective 0
                (track_action "solve_ctf"
                   (grant 75 2 h2 (grant 50 1 h1 (grant 25 0 h0 pP))))).
Proof.
  intros Hp He Hwrong Hhints. unfold _action_solve_ctf. run_step.
  rewrite bool_decide_false by lia. do 2 run_step.
  match goal with |- context [ (_ ≫= _) ?G ] => set (g0 := G) end.
  destruct (wrong_flag_is_invalid pid data g0) as (g1 & Hv & Hps & Hh);
    [done|].
  rewrite (run_bind_return _ _ _ _ _ Hv).
  assert (Dict.get pid (players g1)
          = Some (set_ctf_attempts (p_ctf_attempts p + 1)
                    (set_energy (p_energy p - 5) p))) as Hp1.
  { rewrite Hps. unfold g0. game_simpl. by rewrite !dict_get_alter_eq, Hp. }
  assert (ctf_hints g1 = h0 :: h1 :: h2 :: rest) as Hh1 by (by rewrite Hh).
  clearbody g0. clear Hv Hps Hh.
  do 2 run_step.
  unlock_step h0 Hh1. unlock_step h1 Hh1. unlock_step h2 Hh1.
  do 3 run_step. cbn [mret M_ret]. eexists _, _, _. split; [reflexivity|].
  split; [|game_simpl; rewrite !dict_get_alter_eq, Hp1; reflexivity]. done.
Qed.

Lemma thresholds_ordered (progress : float) :
  (PrimFloat.leb 75 progress = true → PrimFloat.leb 50 progress = true)
  ∧ (PrimFloat.leb 50 progress = true → PrimFloat.leb 25 progress = true).
Proof.
  split; intros H; apply float_lt_le;
    (eapply float_lt_le_trans; [|exact H]); reflexivity.
Qed.

Lemma grant_progress t k h p :
  p_ctf_progress (grant t k h p) = p_ctf_progress p.
Proof. unfold grant. by destruct (_ && _). Qed.

Lemma grant_hints t k h p :
  p_ctf_hints (grant t k h p)
  = if PrimFloat.leb t (p_ctf_progress p)
       && bool_decide (length (p_ctf_hints p) = k)
    then p_ctf_hints p ++ [h] else p_ctf_hints p.
Proof. unfold grant. by destruct (_ && _). Qed.

Lemma grants_formula h0 h1 h2 rest p :
  let p' := grant 75 2 h2 (grant 50 1 h1 (grant 25 0 h0 p)) in
  p_ctf_progress p' = p_ctf_progress p
  ∧ p_ctf_hints p'
    = p_ctf_hints p
      ++ take (thresholds_reached (p_ctf_progress p) - length (p_ctf_hints p))
           (drop (length (p_ctf_hints p)) (h0 :: h1 :: h2 :: rest)).
Proof.
  cbv zeta. rewrite !grant_progress. split; [done|].
  rewrite !grant_hints, !grant_progress.
  destruct (thresholds_ordered (p_ctf_progress p)) as [H75 H50].
  unfold thresholds_reached. cbn [List.filter].
  revert H75 H50. generalize (p_ctf_progress p) (p_ctf_hints p).
  intros P l H75 H50.
  destruct (PrimFloat.leb 25 P) eqn:E25, (PrimFloat.leb 50 P) eqn:E50,
           (PrimFloat.leb 75 P) eqn:E75;
    try (by specialize (H75 eq_refl)); try (by specialize (H50 eq_refl));
    destruct l as [|a [|b [|c [|d l]]]]; cbn; rewrite ?app_nil_r; done.
Qed.

(** STEAL_PROGRESS when its guards pass: what happens to the hints. *)
Lemma steal_moves_hint env pid target_id data g attacker target :
  Dict.get pid (players g) = Some attacker →
  data_field d_target_player data = Some target_id →
  Dict.get target_id (players g) = Some target →
  status_is ALIVE (p_status target) = true →
  _is_adjacent (p_position attacker) (p_position target) = true →
  6 ≤ p_energy attacker →
  p_health target ≤ 50 →
  let drawn := PrimFloat.ltb (random01 env) 0.5
               && bool_decide (0 < length (p_ctf_hints target))%nat in
  ∃ r g',
    _action_steal_progress env pid data g = (Return r, g')
    ∧ (p_ctf_hints <$> Dict.get target_id (players g'))
      = Some (if drawn then removelast (p_ctf_hints target)
              else p_ctf_hints target)
    ∧ (p_ctf_hints <$> Dict.get pid (players g'))
      = Some (match last (p_ctf_hints target) with
              | Some h =>
                  if drawn && negb (bool_decide (h ∈ p_ctf_hints attacker))
                  then p_ctf_hints attacker ++ [h] else p_ctf_hints attacker
              | None => p_ctf_hints attacker
              end)
    ∧ ∀ q, q ≠ pid → q ≠ target_id →
        Dict.get q (players g') = Dict.get q (players g).
Proof.
  intros Ha Hd Ht Halive Hadj He Hh. cbv zeta.
  assert (pid ≠ target_id) as Hne.
  { intros <-. rewrite Ha in Ht. injection Ht as <-.
    by rewrite adjacent_irrefl in Hadj. }
  assert (target_id ≠ pid) as Hne' by done.
  unfold _action_steal_progress. run_step. rewrite Hd. run_step. rewrite Ht.
  rewrite Halive, Hadj. cbn [negb].
  rewrite !bool_decide_false by lia. do 4 run_step.
  field_simpl.
  destruct (PrimFloat.ltb (random01 env) 0.5
            && bool_decide (0 < length (p_ctf_hints target))%nat) eqn:Hdrawn.
  - destruct (last (p_ctf_hints target)) as [h|] eqn:Hlast.
    2:{ apply last_None in Hlast. rewrite Hlast in Hdrawn.
        apply andb_prop in Hdrawn as [_ Hlen].
        apply bool_decide_eq_true in Hlen. cbn in Hlen. lia. }
    do 2 run_step. field_simpl.
    destruct (bool_decide (h ∈ p_ctf_hints attacker)) eqn:Hin; cbn [negb andb].
    + repeat run_step. field_simpl. rewrite ?Hin. repeat run_step.
      cbn [mret M_ret]. eexists _, _. split; [reflexivity|].
      game_simpl. split_and!.
      * repeat first [rewrite dict_get_alter_ne by done | rewrite dict_get_alter_eq].
        by rewrite Ht.
      * repeat first [rewrite dict_get_alter_ne by done | rewrite dict_get_alter_eq].
        by rewrite Ha.
      * intros q ? ?. by rewrite !dict_get_alter_ne by done.
    + repeat run_step. field_simpl. rewrite ?Hin. repeat run_step.
      cbn [mret M_ret]. eexists _, _. split; [reflexivity|].
      game_simpl. split_and!.
      * repeat first [rewrite dict_get_alter_ne by done | rewrite dict_get_alter_eq].
        by rewrite Ht.
      * repeat first [rewrite dict_get_alter_ne by done | rewrite dict_get_alter_eq].
        by rewrite Ha.
      * intros q ? ?. by rewrite !dict_get_alter_ne by done.
  - repeat run_step. cbn [mret M_ret]. eexists _, _. split; [reflexivity|].
    game_simpl. split_and!.
    + repeat first [rewrite dict_get_alter_ne by done | rewrite dict_get_alter_eq].
      by rewrite Ht.
    + repeat first [rewrite dict_get_alter_ne by done | rewrite dict_get_alter_eq].
      rewrite Ha. by destruct (last (p_ctf_hints target)).
    + intros q ? ?. by rewrite !dict_get_alter_ne by done.
Qed.

(** C7, amended.  (1) In a turn whose action is not STEAL_PROGRESS,
    every player keeps the hints it holds, in place; a player that holds
    at most three hints still does; a player that holds the first hints
    of the game, in order, still does; and a hint granted in the turn is
    the hint of its rank, granted with a progress of at least 25, 50 or
    75 for ranks 0, 1 and 2.  (2) Hints are granted at these thresholds:
    a SOLVE_CTF attempt with a missing, empty or wrong flag, by a player
    with at least 5 energy, appends to the hints of the player the hints
    of the game of the ranks from the number of hints it holds up to the
    number of thresholds that its new progress has reached, in ascending
    order, and nothing else.  (3) STEAL_PROGRESS, when its guards pass
    (target ALIVE, adjacent and with at most 50 health, thief with at
    least 6 energy): when the draw is below 0.5 and the target holds a
    hint, the target loses its last hint, which is appended to the hints
    of the thief unless the thief holds it; otherwise no hint moves; and
    the hints of the other players are unchanged. *)
Theorem hints_at_thresholds_and_thefts :
  (∀ env pid action data g q p,
     action ≠ STEAL_PROGRESS →
     Dict.get q (players g) = Some p →
     ∃ p', Dict.get q (players (snd (execute_turn env pid action data g)))
           = Some p'
           ∧ hints_grow (ctf_hints g) p p')
  ∧ (∀ env pid data g p,
       Dict.get pid (players g) = Some p →
       5 ≤ p_energy p →
       (∀ f, data_field d_flag data = Some f → f ≠ "" → f ≠ correct_flag g) →
       (3 ≤ length (ctf_hints g))%nat →
       ∃ r g' p',
         _action_solve_ctf env pid data g = (Return r, g')
         ∧ Dict.get pid (players g') = Some p'
         ∧ p_ctf_hints p'
           = p_ctf_hints p
             ++ take (thresholds_reached (p_ctf_progress p')
                      - length (p_ctf_hints p))
                  (drop (length (p_ctf_hints p)) (ctf_hints g)))
  ∧ (∀ env pid target_id data g attacker target,
       Dict.get pid (players g) = Some attacker →
       data_field d_target_player data = Some target_id →
       Dict.get target_id (players g) = Some target →
       status_is ALIVE (p_status target) = true →
       _is_adjacent (p_position attacker) (p_position target) = true →
       6 ≤ p_energy attacker →
       p_health target ≤ 50 →
       let drawn := PrimFloat.ltb (random01 env) 0.5
                    && bool_decide (0 < length (p_ctf_hints target))%nat in
       ∃ r g',
         _action_steal_progress env pid data g = (Return r, g')
         ∧ (p_ctf_hints <$> Dict.get target_id (players g'))
           = Some (if drawn then removelast (p_ctf_hints target)
                   else p_ctf_hints target)
         ∧ (p_ctf_hints <$> Dict.get pid (players g'))
           = Some (match last (p_ctf_hints target) with
                   | Some h =>
                       if drawn && negb (bool_decide (h ∈ p_ctf_hints attacker))
                       then p_ctf_hints attacker ++ [h]
                       else p_ctf_hints attacker
                   | None => p_ctf_hints attacker
                   end)
         ∧ ∀ q, q ≠ pid → q ≠ target_id →
             Dict.get q (players g') = Dict.get q (players g)).
Proof.
  split_and!.
  - apply turn_without_steal_grows.
  - intros env pid data g p Hp He Hwrong Hlen.
    destruct (ctf_hints g) as [|h0 [|h1 [|h2 rest]]] eqn:Hhints;
      [cbn in Hlen; lia..|].
    destruct (solve_grants env pid data g p h0 h1 h2 rest)
      as (r & g' & pP & Hrun & HpP & Hget); [done..|].
    destruct (grants_formula h0 h1 h2 rest pP) as [Hprog Hgrown].
    cbv zeta in Hprog, Hgrown.
    eexists r, g', _. split; [done|]. split; [exact Hget|].
    unfold track_action. field_simpl. rewrite Hgrown, Hprog. by rewrite HpP.
  - apply steal_moves_hint.
Qed.

(** The third attempt of player 1 at the challenge brings its progress to
    25 and grants it the first hint; and the theft of player 1 from the
    wounded player 2 moves that hint. *)
Lemma hints_at_thresholds_and_thefts_witness :
  (∃ r g' p',
     _action_solve_ctf calm_env 1 None two_attempts = (Return r, g')
     ∧ Dict.get 1 (players g') = Some p'
     ∧ p_ctf_hints p' = ["The flag format is: flag{...}"])
  ∧ ∃ r g',
      _action_steal_progress calm_env 1 (targets 2) wounded = (Return r, g')
      ∧ (p_ctf_hints <$> Dict.get 2 (players g')) = Some []
      ∧ (p_ctf_hints <$> Dict.get 1 (players g'))
        = Some ["The flag format is: flag{...}"].
Proof.
  destruct hints_at_thresholds_and_thefts as (_ & Hsolve & Hsteal). split.
  - destruct (Hsolve calm_env 1 None two_attempts
                (default (new_player 1 (0, 0))
                   (Dict.get 1 (players two_attempts))))
      as (r & g' & p' & Hrun & Hget & Hhints);
      [ by vm_compute | by vm_compute | intros f Hf; discriminate Hf
      | vm_compute; lia | ].
    exists r, g', p'. split; [exact Hrun|]. split; [exact Hget|].
    rewrite Hhints. vm_compute in Hrun. injection Hrun as _ <-.
    vm_compute in Hget. injection Hget as <-. vm_compute. reflexivity.
  - destruct (Hsteal calm_env 1 2 (targets 2) wounded
                (default (new_player 1 (0, 0)) (Dict.get 1 (players wounded)))
                (default (new_player 2 (0, 0)) (Dict.get 2 (players wounded))))
      as (r & g' & Hrun & Ht & Ha & _);
      [ by vm_compute | reflexivity | by vm_compute | by vm_compute
      | by vm_compute | by vm_compute | by vm_compute | ].
    exists r, g'. split; [exact Hrun|]. split.
    + rewrite Ht. vm_compute. reflexivity.
    + rewrite Ha. vm_compute. reflexivity.
Defined.

(** ** The board *)

Lemma elem_of_range lo hi x : x ∈ range lo hi ↔ lo ≤ x < hi.
Proof.
  unfold range. rewrite list_elem_of_fmap. split.
  - intros (i & -> & Hi). apply elem_of_seq in Hi. lia.
  - intros Hx. exists (Z.to_nat (x - lo)). split; [lia|].
    apply elem_of_seq. lia.
Qed.

Lemma fold_left_invariant {A B} (f : A → B → A) (I : list B → A → Prop) l :
  (∀ pre x a, I pre a → I (pre ++ [x]) (f a x)) →
  ∀ pre a, I pre a → I (pre ++ l) (fold_left f l a).
Proof.
  intros Hstep. induction l as [|x l IH]; intros pre a Ha; simpl.
  - by rewrite app_nil_r.
  - rewrite (cons_middle x pre l), app_assoc. by apply IH, Hstep.
Qed.

Lemma dict_keys_set {K V} `{EqDecision K} (k : K) (v : V) d :
  Dict.keys (Dict.set k v d)
  = if decide (k ∈ Dict.keys d) then Dict.keys d else Dict.keys d ++ [k].
Proof.
  unfold Dict.keys. induction d as [|[k0 v0] d IH]; simpl.
  { done. }
  destruct (decide (k = k0)) as [->|Hne]; simpl.
  - rewrite decide_True; [done|]. apply list_elem_of_here.
  - rewrite IH. destruct (decide (k ∈ map fst d)) as [Hin|Hout].
    + rewrite decide_True; [done|]. by apply list_elem_of_further.
    + rewrite decide_False; [done|].
      intros [?|?]%elem_of_cons; [done|]. by apply Hout.
Qed.

Lemma initialize_board_spec radius rng :
  let board := _initialize_board radius rng in
  NoDup (Dict.keys board)
  ∧ (∀ c, is_Some (Dict.get c board)
          ↔ (- radius ≤ c.1 ≤ radius ∧ - radius ≤ c.2 ≤ radius)
            ∧ Z.abs (- c.1 - c.2) ≤ radius)
  ∧ ∀ c cell, Dict.get c board = Some cell → initial_cell rng c cell.
Proof.
  cbv zeta. unfold _initialize_board.
  set (cells := (q ← range (- radius) (radius + 1);
                 r ← range (- radius) (radius + 1); [(q, r)])).
  set (step := λ (acc : list (Coord * Cell) * nat) (qr : Coord), _).
  assert (∀ c : Coord, c ∈ cells
            ↔ - radius ≤ c.1 ≤ radius ∧ - radius ≤ c.2 ≤ radius) as Hcells.
  { intros [q r]. unfold cells. rewrite list_elem_of_bind. split.
    - intros (q' & (r' & ->%list_elem_of_singleton & Hr)%list_elem_of_bind & Hq).
      apply elem_of_range in Hq, Hr. cbn. lia.
    - cbn. intros [Hq Hr]. exists q. split; [|apply elem_of_range; lia].
      apply list_elem_of_bind. exists r.
      split; [by apply list_elem_of_singleton|apply elem_of_range; lia]. }
  pose proof (fold_left_invariant step
    (λ pre acc,
       NoDup (Dict.keys acc.1)
       ∧ (∀ c : Coord, is_Some (Dict.get c acc.1)
                       ↔ c ∈ pre ∧ Z.abs (- c.1 - c.2) ≤ radius)
       ∧ ∀ c cell, Dict.get c acc.1 = Some cell → initial_cell rng c cell)
    cells) as Hfold.
  destruct (Hfold) with (pre := @nil Coord) (a := (@nil (Coord * Cell), 0%nat))
    as (Hnd & Hkeys & Hcell).
  - clear Hfold. intros pre x [hexs n] (Hnd & Hkeys & Hcell). unfold step.
    cbn [fst] in *.
    destruct (bool_decide (Z.abs (- x.1 - x.2) ≤ radius)) eqn:Hin.
    + apply bool_decide_eq_true in Hin.
      assert (∀ t, initial_cell rng x (new_cell t) →
                NoDup (Dict.keys (Dict.set x (new_cell t) hexs))
                ∧ (∀ c : Coord, is_Some (Dict.get c (Dict.set x (new_cell t) hexs))
                                ↔ c ∈ pre ++ [x] ∧ Z.abs (- c.1 - c.2) ≤ radius)
                ∧ ∀ c cell, Dict.get c (Dict.set x (new_cell t) hexs) = Some cell →
                    initial_cell rng c cell) as Hset.
      { intros t Ht. split_and!.
        - rewrite dict_keys_set. destruct (decide (x ∈ Dict.keys hexs)); [done|].
          apply NoDup_app. split_and!; [done| |apply NoDup_singleton].
          by intros ? ? ->%list_elem_of_singleton.
        - intros c. rewrite dict_get_set, elem_of_app, list_elem_of_singleton.
          destruct (decide (c = x)) as [->|Hne].
          + split; [intros _; by auto|by eauto].
          + rewrite Hkeys. split; [intros [? ?]; by auto|].
            by intros [[?|?] ?].
        - intros c cell. rewrite dict_get_set.
          destruct (decide (c = x)) as [->|Hne]; [by intros [= <-]|].
          apply Hcell. }
      destruct (bool_decide (x ∈ spawn_positions)) eqn:Hsp; cbn [fst].
      * apply Hset. by left.
      * apply Hset. right. apply bool_decide_eq_false in Hsp. by eauto.
    + apply bool_decide_eq_false in Hin. cbn [fst]. split_and!; [done| |done].
      intros c. rewrite Hkeys, elem_of_app, list_elem_of_singleton.
      split; [intros [? ?]; by auto|]. intros [[?| ->] ?]; [done|lia].
  - cbn. split_and!; [apply NoDup_nil_2| |done].
    intros c. split; [by intros []|]. by intros [?%elem_of_nil _].
  - cbn [app] in *. split_and!; [done| |done].
    intros c. split.
    + intros [Hc ?]%Hkeys. by apply Hcells in Hc.
    + intros [Hc ?]. apply Hkeys. by apply Hcells in Hc.
Qed.

Lemma hex_distance_origin (c : Coord) radius :
  _hex_distance (0, 0) c ≤ radius
  ↔ (- radius ≤ c.1 ≤ radius ∧ - radius ≤ c.2 ≤ radius)
    ∧ Z.abs (- c.1 - c.2) ≤ radius.
Proof.
  destruct c as [q r]. unfold _hex_distance. cbn [fst snd].
  Z.div_mod_to_equations. lia.
Qed.

(** X21. The board of a new game, whatever the challenge and the random
    draws: it has 61 cells with distinct coordinates, exactly the cells
    at hexagonal distance at most 4 from the centre; every cell is
    without owner, with defense 0 and an unconsumed bonus; the cells of
    the six spawn positions are NORMAL; and player [i] stands on the
    [i]-th spawn position. *)
Theorem new_game_board_is_the_hexagon challenge rng :
  let g := CTFHungerGame_init challenge rng in
  length (hexagons g) = 61%nat
  ∧ NoDup (Dict.keys (hexagons g))
  ∧ (∀ c, Dict.mem c (hexagons g) = true ↔ _hex_distance (0, 0) c ≤ 4)
  ∧ (∀ c cell, Dict.get c (hexagons g) = Some cell →
       c_owner cell = None ∧ c_defense cell = 0
       ∧ c_bonus_consumed cell = false
       ∧ (c ∈ spawn_positions → c_type cell = NORMAL))
  ∧ map (λ e : Z * Player, (e.1, p_position e.2)) (players g)
    = zip (range 1 7) spawn_positions.
Proof.
  cbv zeta.
  assert (hexagons (CTFHungerGame_init challenge rng) = _initialize_board 4 rng)
    as -> by (vm_compute; reflexivity).
  destruct (initialize_board_spec 4 rng) as (Hnd & Hkeys & Hcell).
  split_and!.
  - vm_compute. reflexivity.
  - done.
  - intros c. by rewrite dict_mem_true, Hkeys, hex_distance_origin.
  - intros c cell [->|(Hc & n & ->)]%Hcell; [done|].
    split_and!; [done..|]. by intros ?.
  - vm_compute. reflexivity.
Qed.

(** ** Vision *)

Lemma filter_alter_ignored {V} (test : Z * V → bool) (f : V → V) pid d :
  (∀ v, test (pid, v) = false) →
  List.filter test (Dict.alter f pid d) = List.filter test d.
Proof.
  intros Hpid. induction d as [|[k v] d IH]; simpl; [done|].
  destruct (decide (pid = k)) as [<-|Hne]; simpl.
  - by rewrite !Hpid.
  - by rewrite IH.
Qed.

Lemma update_vision_run pid p g :
  Dict.get pid (players g) = Some p →
  let visible_hexes :=
    List.filter (λ c, bool_decide (_hex_distance (p_position p) c ≤ p_vision_range p))
      (Dict.keys (hexagons g)) in
  let visible_players :=
    map fst
      (List.filter
         (λ e : Z * Player,
            bool_decide (e.1 ≠ pid) && status_is ALIVE (p_status e.2)
            && bool_decide (p_position e.2 ∈ visible_hexes))
         (players g)) in
  _update_vision pid g
  = (Return tt,
     set_players
       (Dict.alter (λ p, set_visible_players visible_players
                           (set_visible_hexagons visible_hexes p))
          pid (players g)) g).
Proof.
  intros Hp. cbv zeta. unfold _update_vision. do 4 run_step.
  erewrite run_upd_player by lookup.
  game_simpl. rewrite dict_alter_alter, filter_alter_ignored; [done|].
  intros v. cbn. by rewrite bool_decide_false by (by intros []).
Qed.

(** X22. [_update_vision], for a player of the game: the method returns
    and rewrites only the two vision fields of that player; the visible
    cells are exactly the cells of the board within the vision range of
    the player's position; the visible players are exactly the other
    players that are ALIVE and stand on a visible cell; and a second call
    changes nothing more. *)
Theorem update_vision_sees_the_range pid p g :
  Dict.get pid (players g) = Some p →
  ∃ vh vp,
    let g' := set_players
                (Dict.alter (λ p, set_visible_players vp
                                    (set_visible_hexagons vh p))
                   pid (players g)) g in
    _update_vision pid g = (Return tt, g')
    ∧ (∀ c, c ∈ vh ↔ Dict.mem c (hexagons g) = true
                     ∧ _hex_distance (p_position p) c ≤ p_vision_range p)
    ∧ (∀ q, q ∈ vp ↔ q ≠ pid
                     ∧ ∃ pq, (q, pq) ∈ players g
                             ∧ status_is ALIVE (p_status pq) = true
                             ∧ p_position pq ∈ vh)
    ∧ _update_vision pid g' = (Return tt, g').
Proof.
  intros Hp. pose proof (update_vision_run pid p g Hp) as Hrun.
  cbv zeta in Hrun.
  set (vh := List.filter _ (Dict.keys (hexagons g))) in Hrun.
  set (vp := map fst _) in Hrun.
  exists vh, vp. cbv zeta. split; [done|]. split_and!.
  - intros c. unfold vh.
    rewrite list_elem_of_In, filter_In, <- list_elem_of_In, bool_decide_eq_true.
    by rewrite dict_keys_is_Some, dict_mem_true.
  - intros q. unfold vp. rewrite list_elem_of_fmap. split.
    + intros ([q' pq] & -> & Hin). apply list_elem_of_In, filter_In in Hin.
      destruct Hin as [Hin Htest]. cbn in Htest.
      apply andb_prop in Htest as [[H1 H2]%andb_prop H3].
      apply bool_decide_eq_true in H1, H3. split; [done|].
      exists pq. by rewrite list_elem_of_In.
    + intros (Hq & pq & Hin & Ha & Hpos). exists (q, pq). split; [done|].
      apply list_elem_of_In, filter_In. split; [by apply list_elem_of_In|].
      cbn. rewrite Ha, !bool_decide_true by done. done.
  - set (p' := set_visible_players vp (set_visible_hexagons vh p)).
    match goal with |- _ ?G = _ => set (g' := G) end.
    assert (Dict.get pid (players g') = Some p') as Hp'.
    { unfold g'. game_simpl. by rewrite dict_get_alter_eq, Hp. }
    rewrite (update_vision_run pid p' g' Hp'). cbv zeta. f_equal.
    rewrite (dict_alter_same _ pid p'); [apply set_players_same|done|].
    change (hexagons g') with (hexagons g).
    change (p_position p') with (p_position p).
    change (p_vision_range p') with (p_vision_range p). fold vh.
    change (players g')
      with (Dict.alter (λ p, set_visible_players vp (set_visible_hexagons vh p))
              pid (players g)).
    rewrite filter_alter_ignored.
    2:{ intros v. cbn. by rewrite bool_decide_false by (by intros []). }
    fold vp. unfold p'. by destruct p.
Qed.

(** Player 2 stands next to player 1: player 1 sees the cell and the
    player. *)
Lemma update_vision_sees_the_range_witness :
  ∃ vh vp,
    _update_vision 1 duel
    = (Return tt,
       set_players
         (Dict.alter (λ p, set_visible_players vp (set_visible_hexagons vh p))
            1 (players duel)) duel)
    ∧ (1, -4) ∈ vh ∧ 2 ∈ vp.
Proof.
  destruct (update_vision_sees_the_range 1
              (default (new_player 1 (0, 0)) (Dict.get 1 (players duel))) duel)
    as (vh & vp & Hrun & Hvh & Hvp & _); [by vm_compute|].
  exists vh, vp. split; [exact Hrun|]. split.
  - apply Hvh. split; by vm_compute.
  - apply Hvp. split; [done|].
    exists (default (new_player 2 (0, 0)) (Dict.get 2 (players duel))).
    split_and!.
    + apply dict_get_In. by vm_compute.
    + by vm_compute.
    + apply (proj2 (Hvh _)). split; by vm_compute.
Defined.
